(** * MedQuery: the retrieval-and-ranking pipeline, embedded and verified

  A shallow embedding of [retriever.py] and [embedder.py]: query
  cleaning, medical-term extraction, lexical relevance scoring, the
  stable re-ranking of fetched articles, the merge of the two fetch
  strategies, the retry loop of the HTTP client and the conversion of
  nearest-neighbour distances into similarity results.

  Conventions.
  - Python [str] is [string]; the text is taken to be ASCII, so
    [str.lower] touches only [A]..[Z] and [str.split] cuts at the ASCII
    white space characters.
  - Article records are Python dicts: [gmap string value], where a
    value is what the program puts into a record: text, [None] or a
    float.  Dicts and lists that are shared between caller and callee
    live in an explicit store, addressed by locations.
  - A Python exception that leaves a function is the [Raise] outcome of
    the [result] type.
  - Relevance scores are Python floats.  Every term the scorer adds is a
    multiple of one half, so the double-precision sums are exact and are
    represented by rationals.  The similarity transform runs on numpy
    [float32] values and is embedded on the IEEE 754 formats of
    [SpecFloat], binary32 and binary64.  The value of a float is a
    rational; rounding to nearest, ties to even, is specified on
    rationals and proved of [SpecFloat]'s conversion, addition and
    division. *)

From Stdlib Require Import ZArith QArith Qabs Qround Qpower Lia Lqa.
From Stdlib Require Import String Ascii List Permutation Sorted.
From Stdlib Require Import SpecFloat.
From stdpp Require Import gmap strings list.

Local Open Scope string_scope.

(** ** Python's string operations *)

Module PyStr.

(** [ch.isspace()] on the ASCII range: TAB..CR, FS..US and the blank. *)
Definition is_space (c : ascii) : bool :=
  let n := nat_of_ascii c in
  ((9 <=? n) && (n <=? 13) || (28 <=? n) && (n <=? 32))%nat.

Definition lower_char (c : ascii) : ascii :=
  let n := nat_of_ascii c in
  if ((65 <=? n) && (n <=? 90))%nat then ascii_of_nat (n + 32) else c.

(** [s.lower()] *)
Fixpoint lower (s : string) : string :=
  match s with
  | EmptyString => EmptyString
  | String c s' => String (lower_char c) (lower s')
  end.

Definition is_empty (s : string) : bool :=
  match s with EmptyString => true | String _ _ => false end.

(** [s.lstrip()], [s.rstrip()], [s.strip()] *)
Fixpoint lstrip (s : string) : string :=
  match s with
  | EmptyString => EmptyString
  | String c s' => if is_space c then lstrip s' else s
  end.

Fixpoint rstrip (s : string) : string :=
  match s with
  | EmptyString => EmptyString
  | String c s' =>
      let r := rstrip s' in
      if is_space c && is_empty r then EmptyString else String c r
  end.

Definition strip (s : string) : string := rstrip (lstrip s).

(** [s.split()]: the maximal runs of non-space characters, in order.
    [cur] is the word being read. *)
Fixpoint split_from (cur : string) (s : string) : list string :=
  match s with
  | EmptyString => if is_empty cur then [] else [cur]
  | String c s' =>
      if is_space c
      then (if is_empty cur then split_from EmptyString s'
            else cur :: split_from EmptyString s')
      else split_from (cur ++ String c EmptyString) s'
  end.

Definition split (s : string) : list string := split_from EmptyString s.

(** [sep.join(words)] *)
Definition join (sep : string) (words : list string) : string :=
  String.concat sep words.

(** [sub in s] *)
Fixpoint contains (sub s : string) : bool :=
  match s with
  | EmptyString => is_empty sub
  | String _ s' => String.prefix sub s || contains sub s'
  end.

(** [s.replace(old, new)]: every non-overlapping occurrence, scanning
    from the left.  [skip] counts the characters of a matched occurrence
    that are still to be dropped. *)
Fixpoint replace_from (old new : string) (skip : nat) (s : string) : string :=
  match s with
  | EmptyString => EmptyString
  | String c s' =>
      match skip with
      | S k => replace_from old new k s'
      | O =>
          if String.prefix old s
          then new ++ replace_from old new (String.length old - 1) s'
          else String c (replace_from old new 0 s')
      end
  end.

(** With an empty [old] Python puts [new] before every character and at
    the end. *)
Fixpoint intersperse (new s : string) : string :=
  match s with
  | EmptyString => new
  | String c s' => new ++ String c (intersperse new s')
  end.

Definition replace (old new s : string) : string :=
  if is_empty old then intersperse new s else replace_from old new 0 s.

(** [word in words] for a list of strings *)
Definition mem (word : string) (words : list string) : bool :=
  existsb (String.eqb word) words.

(** [s.isascii()] *)
Fixpoint is_ascii (s : string) : bool :=
  match s with
  | EmptyString => true
  | String c s' => (nat_of_ascii c <? 128)%nat && is_ascii s'
  end.

End PyStr.

(** ** retriever.py: the query normalizer *)

Module Normalizer.
Import PyStr.

Definition words_to_remove : list string :=
  [ "what are the"; "what is the"; "what are"; "what is";
    "how do"; "how does"; "how can"; "how to";
    "when should"; "when do"; "when is";
    "why do"; "why does"; "why is";
    "where do"; "where does"; "where is" ].

Definition medical_stopwords : list string :=
  [ "a"; "an"; "the"; "of"; "at"; "by" ].

(** [query.lower().strip()] *)
Definition query_lower_of (query : string) : string := strip (lower query).

(** The loop [for phrase in words_to_remove: cleaned = cleaned.replace(phrase, "")] *)
Definition strip_lead_phrases (query_lower : string) : string :=
  fold_left (fun cleaned phrase => replace phrase "" cleaned)
            words_to_remove query_lower.

(** [words = cleaned.split()] *)
Definition cleaned_words (query : string) : list string :=
  split (strip_lead_phrases (query_lower_of query)).

(** [[word for word in words if word not in medical_stopwords or len(words) <= 3]] *)
Definition filter_stopwords (words : list string) : list string :=
  List.filter
    (fun word => negb (mem word medical_stopwords) || (List.length words <=? 3)%nat)
    words.

(** [result = " ".join(filtered_words).strip()] *)
Definition cleaned_result (query : string) : string :=
  strip (join " " (filter_stopwords (cleaned_words query))).

(** [query_lower.replace("what are the", "").replace("what is the", "").split()] *)
Definition fallback_words (query : string) : list string :=
  split (replace "what is the" "" (replace "what are the" "" (query_lower_of query))).

(** [" ".join(words[:6])] *)
Definition fallback_result (query : string) : string :=
  join " " (firstn 6 (fallback_words query)).

Definition clean_medical_query (query : string) : string :=
  let result := cleaned_result query in
  if (List.length (split result) <? 2)%nat
  then fallback_result query
  else result.

(** The important phrases and words of [extract_medical_terms]. *)
Definition medical_phrases : list string :=
  [ "type 2 diabetes"; "type 1 diabetes";
    "first-line treatment"; "second-line treatment";
    "side effects"; "adverse effects";
    "contraindications"; "drug interactions";
    "ace inhibitors"; "beta blockers";
    "blood pressure"; "heart failure";
    "clinical trial"; "systematic review";
    "meta-analysis"; "guidelines" ].

Definition important_words : list string :=
  [ "diabetes"; "hypertension"; "metformin"; "insulin";
    "treatment"; "therapy"; "medication"; "drug";
    "elderly"; "pediatric"; "pregnancy"; "renal";
    "cardiovascular"; "nephropathy"; "retinopathy" ].

(** [list(set(found_terms))]: the order in which Python lists the
    members of a set is unspecified; [elements] fixes one. *)
Definition extract_medical_terms (query : string) : list string :=
  let found_terms := List.filter (fun phrase => contains phrase query) medical_phrases in
  let query_words := split query in
  let found_terms :=
    (found_terms ++ List.filter (fun word => mem word query_words) important_words)%list in
  elements (list_to_set found_terms : gset string).

End Normalizer.


(** ** Python values, exceptions and the object store *)

Module Py.

Inductive exn :=
| KeyError (key : string)
| AttributeError
| IndexError
| TypeError
| ValueError.

(** The outcome of a call: a returned value or an exception. *)
Inductive result (A : Type) :=
| Ok (a : A)
| Raise (e : exn).

Arguments Ok {A} a.
Arguments Raise {A} e.

Definition rbind {A B} (r : result A) (f : A -> result B) : result B :=
  match r with
  | Ok a => f a
  | Raise e => Raise e
  end.

(** What an article dict holds under a key: text, [None] (the pmid of
    an article whose [PMID] element is empty), or a float once a score
    has been attached. *)
Inductive value :=
| VStr (s : string)
| VNone
| VFloat (x : Q).

(** [v1 == v2] in Python. *)
Definition value_eqb (v1 v2 : value) : bool :=
  match v1, v2 with
  | VStr a, VStr b => String.eqb a b
  | VNone, VNone => true
  | VFloat a, VFloat b => Qeq_bool a b
  | _, _ => false
  end.

(** [isinstance(v, str)] *)
Definition is_text (v : value) : bool :=
  match v with
  | VStr _ => true
  | _ => false
  end.

Abbreviation dict := (gmap string value).

Definition loc := positive.

Inductive object :=
| ODict (d : dict)
| OList (items : list loc).

Abbreviation store := (gmap loc object).

(** Computations that read and write the store and may raise. *)
Definition M (A : Type) : Type := store -> result A * store.

Definition ret {A} (a : A) : M A := fun h => (Ok a, h).

Definition raise {A} (e : exn) : M A := fun h => (Raise e, h).

Definition bind {A B} (m : M A) (f : A -> M B) : M B :=
  fun h =>
    match m h with
    | (Ok a, h') => f a h'
    | (Raise e, h') => (Raise e, h')
    end.

Definition lift {A} (r : result A) : M A := fun h => (r, h).

(** A new object gets a location that is not in use. *)
Definition alloc (o : object) : M loc :=
  fun h => let l := fresh (dom h) in (Ok l, <[l := o]> h).

Definition read_dict (l : loc) : M dict :=
  fun h =>
    match h !! l with
    | Some (ODict d) => (Ok d, h)
    | _ => (Raise AttributeError, h)
    end.

Definition read_list (l : loc) : M (list loc) :=
  fun h =>
    match h !! l with
    | Some (OList items) => (Ok items, h)
    | _ => (Raise TypeError, h)
    end.

(** [d[key] = v] on the dict at [l] *)
Definition dict_setitem (l : loc) (key : string) (v : value) : M unit :=
  fun h =>
    match h !! l with
    | Some (ODict d) => (Ok tt, <[l := ODict (<[key := v]> d)]> h)
    | _ => (Raise TypeError, h)
    end.

(** [d[key]] on the dict at [l] *)
Definition dict_getitem (l : loc) (key : string) : M value :=
  fun h =>
    match h !! l with
    | Some (ODict d) =>
        match d !! key with
        | Some v => (Ok v, h)
        | None => (Raise (KeyError key), h)
        end
    | _ => (Raise TypeError, h)
    end.

(** [xs.append(x)] and [xs.extend(ys)] on the list at [l] *)
Definition list_extend (l : loc) (more : list loc) : M unit :=
  fun h =>
    match h !! l with
    | Some (OList items) => (Ok tt, <[l := OList (items ++ more)]> h)
    | _ => (Raise AttributeError, h)
    end.

Definition list_append (l : loc) (x : loc) : M unit := list_extend l [x].

(** [for x in xs: body(x)] over a list that the body does not change *)
Fixpoint for_each {A} (xs : list A) (body : A -> M unit) : M unit :=
  match xs with
  | [] => ret tt
  | x :: xs' => bind (body x) (fun _ => for_each xs' body)
  end.

(** [[f(x) for x in xs]] *)
Fixpoint map_M {A B} (f : A -> M B) (xs : list A) : M (list B) :=
  match xs with
  | [] => ret []
  | x :: xs' =>
      bind (f x) (fun y => bind (map_M f xs') (fun ys => ret (y :: ys)))
  end.

(** [[x for x in xs if keep(x)]] *)
Fixpoint filter_M {A} (keep : A -> M bool) (xs : list A) : M (list A) :=
  match xs with
  | [] => ret []
  | x :: xs' =>
      bind (keep x) (fun b =>
      bind (filter_M keep xs') (fun ys =>
      ret (if b then x :: ys else ys)))
  end.

(** [xs[i]] with Python's negative indices *)
Definition py_index {A} (xs : list A) (i : Z) : result A :=
  let n := Z.of_nat (List.length xs) in
  let j := if (i <? 0)%Z then (n + i)%Z else i in
  if ((0 <=? j) && (j <? n))%Z
  then match nth_error xs (Z.to_nat j) with
       | Some x => Ok x
       | None => Raise IndexError
       end
  else Raise IndexError.

(** [xs[:n]] *)
Definition py_slice_to {A} (xs : list A) (n : Z) : list A :=
  if (n <? 0)%Z
  then firstn (Z.to_nat (Z.of_nat (List.length xs) + n)) xs
  else firstn (Z.to_nat n) xs.

End Py.

(** ** retriever.py: the lexical relevance scorer *)

Module Scorer.
Import PyStr Normalizer Py.

Definition no_abstract : string := "no abstract available".

(** [article.get(key, '').lower()] *)
Definition get_lower (article : dict) (key : string) : result string :=
  match article !! key with
  | None => Ok (lower "")
  | Some (VStr s) => Ok (lower s)
  | Some VNone => Raise AttributeError
  | Some (VFloat _) => Raise AttributeError
  end.

(** One turn of the loop over [medical_terms]. *)
Definition add_term (title abstract : string) (score : Q) (term : string) : Q :=
  if contains term title then (score + 3.0)%Q
  else if contains term abstract then (score + 1.5)%Q
  else score.

Definition calculate_relevance_score
    (article : dict) (query_words : gset string)
    (medical_terms : list string) (full_query : string) : result Q :=
  rbind (get_lower article "title") (fun title =>
  rbind (get_lower article "abstract") (fun abstract =>
    let score := 0.0%Q in
    (* 1. exact phrase matching *)
    let score :=
      if contains full_query title then (score + 10.0)%Q
      else if contains full_query abstract then (score + 5.0)%Q
      else score in
    (* 2. medical terms matching *)
    let score := fold_left (add_term title abstract) medical_terms score in
    (* 3. individual word matching *)
    let title_words : gset string := list_to_set (split title) in
    let abstract_words : gset string := list_to_set (split abstract) in
    let title_matches := size (query_words ∩ title_words) in
    let score := (score + inject_Z (Z.of_nat title_matches) * 2.0)%Q in
    let abstract_matches := size (query_words ∩ abstract_words) in
    let score := (score + inject_Z (Z.of_nat abstract_matches) * 0.5)%Q in
    (* 4. completeness bonus *)
    let score :=
      if negb (is_empty abstract) && negb (String.eqb abstract no_abstract)
      then (score + 1.0)%Q else score in
    (* 5. recency bonus *)
    let score := (score + 0.5)%Q in
    Ok score)).

(** The reference sum, term by term as the specification lists it, over
    the lowercased title and abstract. *)
Definition phrase_points (title abstract full_query : string) : Q :=
  if contains full_query title then 10.0%Q
  else if contains full_query abstract then 5.0%Q
  else 0%Q.

Definition term_points (title abstract term : string) : Q :=
  if contains term title then 3.0%Q
  else if contains term abstract then 1.5%Q
  else 0%Q.

Definition sum_Q (xs : list Q) : Q := fold_right Qplus 0%Q xs.

Definition word_matches (query_words : gset string) (text : string) : Q :=
  inject_Z (Z.of_nat (size (query_words ∩ (list_to_set (split text) : gset string)))).

Definition completeness_points (abstract : string) : Q :=
  if is_empty abstract then 0%Q
  else if String.eqb abstract no_abstract then 0%Q
  else 1.0%Q.

Definition reference_score
    (title abstract : string) (query_words : gset string)
    (medical_terms : list string) (full_query : string) : Q :=
  (phrase_points title abstract full_query
   + sum_Q (List.map (term_points title abstract) medical_terms)
   + 2.0 * word_matches query_words title
   + 0.5 * word_matches query_words abstract
   + completeness_points abstract
   + 0.5)%Q.

(** [list.sort(key=..., reverse=True)] is a stable sort: elements come
    out by decreasing key and elements with equal keys keep their order.
    Any stable sort returns the same list; insertion is the simplest. *)
Fixpoint insert_desc {A} (x : Q * A) (sorted : list (Q * A)) : list (Q * A) :=
  match sorted with
  | [] => [x]
  | y :: rest =>
      if Qle_bool (fst y) (fst x) then x :: y :: rest
      else y :: insert_desc x rest
  end.

Definition stable_sort_desc {A} (xs : list (Q * A)) : list (Q * A) :=
  fold_right insert_desc [] xs.

(** The key function [lambda x: x['relevance_score']]; the keys that
    are compared are floats. *)
Definition relevance_key (x : loc) : M (Q * loc) :=
  bind (dict_getitem x "relevance_score") (fun v =>
    match v with
    | VFloat k => ret (k, x)
    | VStr _ => raise TypeError
    | VNone => raise TypeError
    end).

(** [xs.sort(key=lambda x: x['relevance_score'], reverse=True)], in place *)
Definition sort_by_relevance (xs : loc) : M unit :=
  bind (read_list xs) (fun items =>
  bind (map_M relevance_key items) (fun keyed =>
  fun h => (Ok tt, <[xs := OList (List.map snd (stable_sort_desc keyed))]> h))).

Definition score_articles_by_relevance (articles : loc) (original_query : string) : M loc :=
  let query_lower := lower original_query in
  let query_words : gset string := list_to_set (split query_lower) in
  let medical_terms := extract_medical_terms query_lower in
  bind (alloc (OList [])) (fun scored_articles =>
  bind (read_list articles) (fun items =>
  bind (for_each items (fun article =>
          bind (read_dict article) (fun d =>
          bind (lift (calculate_relevance_score d query_words medical_terms query_lower))
               (fun score =>
          bind (alloc (ODict d)) (fun article_copy =>
          bind (dict_setitem article_copy "relevance_score" (VFloat score)) (fun _ =>
          list_append scored_articles article_copy)))))) (fun _ =>
  bind (sort_by_relevance scored_articles) (fun _ =>
  ret scored_articles)))).

End Scorer.

(** ** retriever.py: the article fetcher *)

Module Fetcher.
Import PyStr Normalizer Py Scorer.

Section Fetch.

(** The upstream literature service.  [pubmed query max_results sort_by]
    is the list of article records that one call of
    [search_pubmed_articles] parses out of the service's answer (empty
    when a request fails). *)
Variable pubmed : string -> Z -> string -> list dict.

(** Each call builds new dicts and a new list. *)
Definition search_pubmed_articles (query : string) (max_results : Z) (sort_by : string) : M loc :=
  bind (map_M (fun d => alloc (ODict d)) (pubmed query max_results sort_by)) (fun items =>
  alloc (OList items)).

(** [a['pmid'] not in existing_pmids] *)
Definition pmid_is_new (existing_pmids : list value) (a : loc) : M bool :=
  bind (dict_getitem a "pmid") (fun p =>
  ret (negb (existsb (value_eqb p) existing_pmids))).

(** Step 1 of [get_pubmed_articles]: the two searches, merged into the
    list at [all_articles]. *)
Definition collect_articles (all_articles : loc) (cleaned_query : string) (initial_fetch : Z) : M unit :=
  (* primary search *)
  bind (search_pubmed_articles cleaned_query initial_fetch "relevance") (fun articles_primary =>
  bind (read_list articles_primary) (fun primary_items =>
  bind (match primary_items with
        | [] => ret tt
        | _ => list_extend all_articles primary_items
        end) (fun _ =>
  (* secondary search *)
  bind (read_list all_articles) (fun collected =>
  if (Z.of_nat (List.length collected) <? initial_fetch)%Z
  then
    bind (search_pubmed_articles cleaned_query
            (initial_fetch - Z.of_nat (List.length collected))%Z "pub_date") (fun articles_recent =>
    bind (read_list articles_recent) (fun recent_items =>
    match recent_items with
    | [] => ret tt
    | _ =>
        bind (map_M (fun a => dict_getitem a "pmid") collected) (fun existing_pmids =>
        bind (filter_M (pmid_is_new existing_pmids) recent_items) (fun new_articles =>
        list_extend all_articles new_articles))
    end))
  else ret tt)))).

(** The line that is printed for a selected article.  It reads
    [article['title'][:60]] and formats
    [article.get('relevance_score', 0)] with [.3f]. *)
Definition report_line (article : loc) : M unit :=
  bind (dict_getitem article "title") (fun title =>
  match title with
  | VStr _ =>
      bind (read_dict article) (fun d =>
      match d !! "relevance_score" with
      | None => ret tt
      | Some (VFloat _) => ret tt
      | Some (VStr _) => raise ValueError
      | Some VNone => raise TypeError
      end)
  | VNone => raise TypeError
  | VFloat _ => raise TypeError
  end).

Definition get_pubmed_articles (query : string) (max_results : Z) : M loc :=
  let cleaned_query := clean_medical_query query in
  let initial_fetch := Z.min (max_results * 3) 15 in
  bind (alloc (OList [])) (fun all_articles =>
  bind (collect_articles all_articles cleaned_query initial_fetch) (fun _ =>
  bind (read_list all_articles) (fun collected =>
  match collected with
  | [] => alloc (OList [])
  | _ =>
      (* re-rank, then keep the top matches *)
      bind (score_articles_by_relevance all_articles query) (fun scored_articles =>
      bind (read_list scored_articles) (fun scored_items =>
      bind (alloc (OList (py_slice_to scored_items max_results))) (fun top_articles =>
      (* the report on the selected articles *)
      bind (read_list top_articles) (fun top_items =>
      bind (for_each top_items report_line) (fun _ =>
      ret top_articles)))))
  end))).

End Fetch.

End Fetcher.

(** ** retriever.py: the HTTP client with retry *)

Module HttpClient.

Section Client.

(** Decoded JSON documents. *)
Variable J : Type.

(** What [response.json()] does. *)
Inductive json_outcome :=
| Decoded (j : J)
| JSONDecodeError (msg : string)            (* json.JSONDecodeError *)
| RequestsJSONDecodeError (msg : string).   (* also a RequestException *)

(** A response as the function reads it: the status code, the text of
    the [HTTPError] that [raise_for_status] raises for a 4xx or 5xx
    status, and the outcome of decoding the body. *)
Record response := {
  status_code : Z;
  error_text : string;
  json_body : json_outcome
}.

(** What one [requests.get] does: it returns a response or raises a
    [RequestException] (time-out, refused connection, ...). *)
Inductive get_outcome :=
| Responded (r : response)
| GetRaised (msg : string).

(** The observable actions of the client. *)
Inductive event :=
| Slept (seconds : Z)
| Requested.

Inductive returned :=
| Json (j : J)
| Resp (r : response).

(** How one turn of the loop ends: [continue], or [return x] where
    [None] is Python's [None]. *)
Inductive turn :=
| Continue
| Return (x : option returned).

(** [response.raise_for_status()] *)
Definition raise_for_status (r : response) : option string :=
  if ((400 <=? status_code r) && (status_code r <? 600))%Z
  then Some (error_text r) else None.

(** The handler [except requests.RequestException as e] *)
Definition on_request_exception (msg : string) (attempt max_retries : Z) : turn :=
  if PyStr.contains "429" msg
  then (if (attempt <? max_retries - 1)%Z then Continue else Return None)
  else Return None.

(** The body of the [try], after the wait. *)
Definition try_request (outcome : get_outcome) (attempt max_retries : Z) (return_json : bool) : turn :=
  match outcome with
  | GetRaised msg => on_request_exception msg attempt max_retries
  | Responded r =>
      if (status_code r =? 429)%Z
      then (if (attempt <? max_retries - 1)%Z then Continue else Return None)
      else
        match raise_for_status r with
        | Some msg => on_request_exception msg attempt max_retries
        | None =>
            if return_json
            then match json_body r with
                 | Decoded j => Return (Some (Json j))
                 | RequestsJSONDecodeError msg => on_request_exception msg attempt max_retries
                 | JSONDecodeError _ => Return None
                 end
            else Return (Some (Resp r))
        end
  end.

(** [for attempt in range(max_retries)], over the attempts still to run.
    [server n] is the outcome of the [n]-th call of [requests.get]; the
    loop makes one call per turn. *)
Fixpoint retry_loop (server : nat -> get_outcome) (attempts : list Z)
    (max_retries : Z) (return_json : bool) : option returned * list event :=
  match attempts with
  | [] => (None, [])
  | attempt :: rest =>
      let wait := if (0 <? attempt)%Z then [Slept (2 ^ attempt)%Z] else [] in
      match try_request (server (Z.to_nat attempt)) attempt max_retries return_json with
      | Continue =>
          let '(x, events) := retry_loop server rest max_retries return_json in
          (x, (wait ++ Requested :: events)%list)
      | Return x => (x, (wait ++ [Requested])%list)
      end
  end.

(** [range(n)] *)
Definition range (n : Z) : list Z := List.map Z.of_nat (seq 0 (Z.to_nat n)).

Definition make_request_with_retry (server : nat -> get_outcome)
    (max_retries : Z) (return_json : bool) : option returned * list event :=
  retry_loop server (range max_retries) max_retries return_json.

End Client.

Arguments Decoded {J} j.
Arguments JSONDecodeError {J} msg.
Arguments RequestsJSONDecodeError {J} msg.
Arguments Responded {J} r.
Arguments GetRaised {J} msg.
Arguments Json {J} j.
Arguments Resp {J} r.
Arguments Continue {J}.
Arguments Return {J} x.
Arguments status_code {J} r.
Arguments error_text {J} r.
Arguments json_body {J} r.
Arguments make_request_with_retry {J} server max_retries return_json.
Arguments retry_loop {J} server attempts max_retries return_json.
Arguments try_request {J} outcome attempt max_retries return_json.

(** The outcomes that the loop takes for rate limiting: status 429, or
    a [RequestException] whose text contains "429". *)
Definition rate_limited {J} (o : get_outcome J) (return_json : bool) : bool :=
  match o with
  | GetRaised msg => PyStr.contains "429" msg
  | Responded r =>
      (status_code r =? 429)%Z
      || match raise_for_status J r with
         | Some msg => PyStr.contains "429" msg
         | None =>
             return_json
             && match json_body r with
                | RequestsJSONDecodeError msg => PyStr.contains "429" msg
                | _ => false
                end
         end
  end.

(** What the call returns after an attempt that is not rate limited. *)
Definition answer {J} (o : get_outcome J) (return_json : bool) : option (returned J) :=
  match o with
  | GetRaised _ => None
  | Responded r =>
      match raise_for_status J r with
      | Some _ => None
      | None =>
          if return_json
          then match json_body r with
               | Decoded j => Some (Json j)
               | _ => None
               end
          else Some (Resp r)
      end
  end.

Definition count_requests (events : list event) : nat :=
  List.length (List.filter (fun e => match e with Requested => true | _ => false end) events).

(** The failures that the specification names: HTTP 429 or a network
    error raised by the request. *)
Definition failed {J} (o : get_outcome J) : bool :=
  match o with
  | GetRaised _ => true
  | Responded r => (status_code r =? 429)%Z
  end.

(** The retry policy in the words of the specification: while the calls
    fail, 3 attempts are made, with waits of 2^attempt seconds before
    the second and the third. *)
Definition retry_policy_as_specified {J} (server : nat -> get_outcome J) (return_json : bool) : Prop :=
  (forall n, failed (server n) = true) ->
  make_request_with_retry server 3 return_json
  = (None, [Requested; Slept 2; Requested; Slept 4; Requested]).

(** A service that is out of reach, and one that always answers 429. *)
Definition unreachable_server : nat -> get_outcome string :=
  fun _ => GetRaised "HTTPSConnectionPool(host='eutils.ncbi.nlm.nih.gov', port=443): Read timed out.".

Definition throttling_server : nat -> get_outcome string :=
  fun _ => Responded {| status_code := 429;
                        error_text := "429 Client Error: Too Many Requests";
                        json_body := Decoded "" |}.

End HttpClient.

(** ** embedder.py: semantic search *)

Module Embedder.
Import Py.

(** Binary floating-point values, as [SpecFloat] has them.  A format is
    given by its precision and its exponent bound. *)
Definition float := spec_float.

Record format := { prec : Z; emax : Z }.

(** [numpy.float32] *)
Definition binary32 : format := {| prec := 24; emax := 128 |}.

(** [numpy.float64] and Python's [float] *)
Definition binary64 : format := {| prec := 53; emax := 1024 |}.

(** The conversion of an operand into the format of an operation. *)
Definition cast (f : format) (x : float) : float :=
  match x with
  | S754_finite s m e => binary_round (prec f) (emax f) s m e
  | _ => x
  end.

Definition fl_zero : float := S754_zero false.

Definition fl_one (f : format) : float := cast f (S754_finite false 1 0).

(** The largest finite [float32], which the neighbour search reports as
    the distance of a missing neighbour. *)
Definition f32_max : float := S754_finite false 16777215 104.

(** The distances of a search: finite [float32] values that are not
    negative. *)
Definition is_distance (d : float) : bool :=
  match d with
  | S754_zero _ => true
  | S754_finite false m e => bounded (prec binary32) (emax binary32) m e
  | _ => false
  end.

(** The transform in exact arithmetic. *)
Definition similarity_exact (d : Q) : Q := (1 / (1 + d))%Q.

Record similarity_result := {
  rank : Z;
  similarity_score : float;
  text : string;
  metadata : dict
}.

(** The index as the function uses it: [index_search query k] stands for
    [index.search(encode([query]), k)] and gives the rows [distances[0]]
    and [indices[0]]. *)
Record faiss_index := {
  index_search : string -> Z -> list float * list Z
}.

Section Search.

(** The format in which [1 / (1 + distance)] is evaluated.  [distance]
    is a [numpy.float32] and [1] a Python integer: NumPy 2 computes in
    [float32], earlier versions promote the operation to [float64]. *)
Variable arith : format.

(** [float(1 / (1 + distance))] *)
Definition similarity (distance : float) : float :=
  SFdiv (prec arith) (emax arith) (fl_one arith)
    (SFadd (prec arith) (emax arith) (fl_one arith) (cast arith distance)).

(** The loop over [enumerate(zip(distances[0], indices[0]))]; [i] is the
    enumeration counter. *)
Fixpoint collect_results (i : Z) (neighbours : list (float * Z))
    (metadatas : list dict) (texts : list string) : result (list similarity_result) :=
  match neighbours with
  | [] => Ok []
  | (distance, idx) :: rest =>
      if (idx <? Z.of_nat (List.length metadatas))%Z
      then
        rbind (py_index texts idx) (fun t =>
        rbind (py_index metadatas idx) (fun m =>
        rbind (collect_results (i + 1) rest metadatas texts) (fun results =>
        Ok ({| rank := i + 1;
               similarity_score := similarity distance;
               text := t;
               metadata := m |} :: results))))
      else collect_results (i + 1) rest metadatas texts
  end.

Definition search_similar_documents (index : option faiss_index)
    (metadatas : list dict) (texts : list string) (query : string) (k : Z)
    : list similarity_result :=
  match index, metadatas with
  | None, _ => []
  | _, [] => []
  | Some ix, _ =>
      let '(distances, indices) := index_search ix query k in
      match collect_results 0 (combine distances indices) metadatas texts with
      | Ok results => results
      | Raise _ => []      (* except Exception: return [] *)
      end
  end.

End Search.

(** 2^-60, a [float32] distance below the resolution of either format
    at 1. *)
Definition tiny_distance : float := S754_finite false 8388608 (-83).

(** An index over a single document, asked for 3 neighbours: the search
    reports the document and fills the two missing neighbours with the
    index -1 and the largest distance. *)
Definition one_document_index : faiss_index :=
  {| index_search := fun _ _ => ([fl_zero; f32_max; f32_max], [0; -1; -1]%Z) |}.

End Embedder.

(** ** Binary floating point: values and rounding to nearest *)

Module Rounding.

(** Powers of two with integer exponents. *)
Definition pow2 (e : Z) : Q := Qpower 2 e.

(** Round to the nearest integer, ties to even. *)
Definition rne (q : Q) : Z :=
  let f := Qfloor q in
  match Qcompare (q - inject_Z f) (1 # 2) with
  | Lt => f
  | Gt => (f + 1)%Z
  | Eq => if Z.even f then f else (f + 1)%Z
  end.

(** Locations: where a fraction of [0,1) lies relative to one half. *)
Definition inbetween (l : location) (d : Q) : Prop :=
  match l with
  | loc_Exact => (d == 0)%Q
  | loc_Inexact Lt => (0 < d)%Q /\ (d < 1 # 2)%Q
  | loc_Inexact Eq => (d == 1 # 2)%Q
  | loc_Inexact Gt => (1 # 2 < d)%Q /\ (d < 1)%Q
  end.

(** The record [mrs] at exponent [e] stands for the value [x]. *)
Definition stands_for (mrs : shr_record) (e : Z) (x : Q) : Prop :=
  exists d, inbetween (loc_of_shr_record mrs) d
            /\ (0 <= shr_m mrs)%Z
            /\ (x == (inject_Z (shr_m mrs) + d) * pow2 e)%Q.

(** The binade of a positive value. *)
Definition mag_ok (k : Z) (x : Q) : Prop := (pow2 (k - 1) <= x)%Q /\ (x < pow2 k)%Q.

(** The value of a finite float. *)
Definition F2Q (f : spec_float) : Q :=
  match f with
  | S754_finite false m e => (inject_Z (Zpos m) * pow2 e)%Q
  | S754_finite true m e => (- (inject_Z (Zpos m) * pow2 e))%Q
  | _ => 0%Q
  end.

(** The value of the largest distance. *)
Definition dmax : Q := F2Q Embedder.f32_max.

Section Format.

(** The precision and the exponent bound of the format. *)
Variables prec emax : Z.

Abbreviation fexp := (SpecFloat.fexp prec emax).
Abbreviation emin := (SpecFloat.emin prec emax).

(** The value that [x], of binade [k], rounds to. *)
Definition round_at (k : Z) (x : Q) : Q :=
  (inject_Z (rne (x / pow2 (fexp k))) * pow2 (fexp k))%Q.

(** [r] is the positive value [x] rounded to nearest, ties to even. *)
Definition rounds_to (x r : Q) : Prop :=
  exists k, mag_ok k x /\ (r == round_at k x)%Q.

(** The finite, non-negative floats of the format. *)
Definition in_format (f : spec_float) : Prop :=
  (exists s, f = S754_zero s)
  \/ exists m e, f = S754_finite false m e
                 /\ (Zpos m < 2 ^ prec)%Z /\ (emin <= e <= emax - prec)%Z.

(** Rounding of a value that may be zero. *)
Definition nearest (x r : Q) : Prop :=
  (x == 0 /\ r == 0)%Q \/ rounds_to x r.

End Format.

End Rounding.

(** ** Views of the store and well-formed articles, for the statements *)

Module Views.
Import PyStr Normalizer Py Scorer.

(** The items of the list at [l], and the dict at [l]. *)
Definition list_at (h : store) (l : loc) : list loc :=
  match h !! l with
  | Some (OList items) => items
  | _ => []
  end.

Definition dict_at (h : store) (l : loc) : dict :=
  match h !! l with
  | Some (ODict d) => d
  | _ => ∅
  end.

(** The article records that the list at [l] refers to. *)
Definition records_at (h : store) (l : loc) : list dict :=
  List.map (dict_at h) (list_at h l).

Definition is_dict (h : store) (l : loc) : bool :=
  match h !! l with
  | Some (ODict _) => true
  | _ => false
  end.

Definition is_list (h : store) (l : loc) : bool :=
  match h !! l with
  | Some (OList _) => true
  | _ => false
  end.

(** A field that is text or absent, as [get(key, '')] expects. *)
Definition text_or_absent (d : dict) (key : string) : bool :=
  match d !! key with
  | Some v => is_text v
  | None => true
  end.

(** The text [get(key, '')] yields. *)
Definition text_of (d : dict) (key : string) : string :=
  match d !! key with
  | Some (VStr s) => s
  | _ => ""
  end.

(** An article the scorer can read. *)
Definition scorable (d : dict) : bool :=
  text_or_absent d "title" && text_or_absent d "abstract".

(** An article with a title or an abstract that is not text: it is
    [None], or a float. *)
Definition ill_typed (d : dict) : Prop :=
  exists key v,
    (key = "title" \/ key = "abstract") /\ d !! key = Some v
    /\ (v = VNone \/ exists x, v = VFloat x).

(** An article as [parse_pubmed_xml] builds it: a text [pmid], and text
    for title and abstract. *)
Definition has_text_pmid (d : dict) : bool :=
  match d !! "pmid" with
  | Some (VStr _) => true
  | _ => false
  end.

Definition well_formed (d : dict) : bool := has_text_pmid d && scorable d.

(** An article the merge can read: [a['pmid']] is there, whatever it
    holds. *)
Definition has_pmid (d : dict) : bool :=
  match d !! "pmid" with
  | Some _ => true
  | None => false
  end.

(** An article the report can show: [article['title']] is text. *)
Definition has_title (d : dict) : bool :=
  match d !! "title" with
  | Some v => is_text v
  | None => false
  end.

(** An article that goes through the whole retrieval: a pmid for the
    merge, text or nothing for the scorer, a title for the report. *)
Definition retrievable (d : dict) : bool := has_pmid d && scorable d && has_title d.

Definition pmids (ds : list dict) : list (option value) :=
  List.map (fun d => d !! "pmid") ds.

(** The list at [articles] refers to article dicts the scorer can read. *)
Definition scorable_list (h : store) (articles : loc) : bool :=
  is_list h articles
  && forallb (is_dict h) (list_at h articles)
  && forallb scorable (records_at h articles).

(** The score the scorer gives a record for a query. *)
Definition score_for (original_query : string) (d : dict) : Q :=
  let query_lower := lower original_query in
  match calculate_relevance_score d (list_to_set (split query_lower))
          (extract_medical_terms query_lower) query_lower with
  | Ok score => score
  | Raise _ => 0%Q
  end.

(** The enriched record: the article with its score attached. *)
Definition with_score (original_query : string) (d : dict) : dict :=
  <["relevance_score" := VFloat (score_for original_query d)]> d.

Definition relevance_of (d : dict) : Q :=
  match d !! "relevance_score" with
  | Some (VFloat x) => x
  | _ => 0%Q
  end.

(** Words: non-empty strings without white space. *)
Fixpoint no_space (w : string) : bool :=
  match w with
  | EmptyString => true
  | String c w' => negb (is_space c) && no_space w'
  end.

Definition is_word (w : string) : bool := negb (is_empty w) && no_space w.

(** The order and the key test of the descending sort. *)
Definition key_ge {A} (x y : Q * A) : Prop := (fst y <= fst x)%Q.

Definition has_key {A} (k : Q) (x : Q * A) : bool := Qeq_bool (fst x) k.

(** A pair whose key is the relevance score of its record. *)
Definition keyed_by_relevance (p : Q * dict) : Prop := fst p = relevance_of (snd p).

(** The body of the loop of [score_articles_by_relevance]. *)
Definition score_one (original_query : string) (scored_articles article : loc) : M unit :=
  let query_lower := lower original_query in
  bind (read_dict article) (fun d =>
  bind (lift (calculate_relevance_score d (list_to_set (split query_lower))
                (extract_medical_terms query_lower) query_lower)) (fun score =>
  bind (alloc (ODict d)) (fun article_copy =>
  bind (dict_setitem article_copy "relevance_score" (VFloat score)) (fun _ =>
  list_append scored_articles article_copy)))).

(** The stopword rule in the words of the specification: the words are
    kept whenever removing the stopwords would leave 3 words or fewer. *)
Definition without_stopwords (words : list string) : list string :=
  List.filter (fun word => negb (mem word medical_stopwords)) words.

Definition stopword_rule_as_specified (words : list string) : list string :=
  if (List.length (without_stopwords words) <=? 3)%nat
  then words
  else without_stopwords words.

(** What the text of the abstract adds to a score through matches. *)
Definition abstract_match_points
    (title abstract : string) (query_words : gset string)
    (medical_terms : list string) (full_query : string) : Q :=
  ((if contains full_query title then 0
    else if contains full_query abstract then 5.0 else 0)
   + sum_Q (List.map (fun term =>
                        if contains term title then 0
                        else if contains term abstract then 1.5 else 0)
                     medical_terms)
   + 0.5 * word_matches query_words abstract)%Q.

(** The value [a['pmid']] of a record that has one. *)
Definition pmid_of (d : dict) : value :=
  match d !! "pmid" with
  | Some v => v
  | None => VStr ""
  end.

(** The records of the recency search whose pmid is not among those of
    the records collected before. *)
Definition new_records (collected recent : list dict) : list dict :=
  List.filter
    (fun d => negb (existsb (value_eqb (pmid_of d)) (List.map pmid_of collected)))
    recent.

(** The merge of the two searches: the recency records are considered
    only when the primary search fell short of [initial_fetch]. *)
Definition merged_records (primary recent : list dict) (initial_fetch : Z) : list dict :=
  if (Z.of_nat (List.length primary) <? initial_fetch)%Z
  then (primary ++ new_records primary recent)%list
  else primary.

(** No two records of the list have equal pmids, by Python's [==]. *)
Fixpoint distinct_pmids (ds : list dict) : bool :=
  match ds with
  | [] => true
  | d :: rest =>
      negb (existsb (fun d' => value_eqb (pmid_of d) (pmid_of d')) rest)
      && distinct_pmids rest
  end.

(** The records a retrieval selects: the merged records, each with its
    score, by decreasing score, cut to [max_results]. *)
Definition top_records (query : string) (merged : list dict) (max_results : Z) : list dict :=
  py_slice_to
    (List.map snd (stable_sort_desc
       (List.map (fun d => (score_for query d, with_score query d)) merged)))
    max_results.

(** A store with three articles and the list of a retrieval that
    returned the second of them twice. *)
Definition sample_insulin : dict :=
  {[ "title" := VStr "Insulin"; "abstract" := VStr "No abstract available";
     "url" := VStr "https://pubmed.ncbi.nlm.nih.gov/2"; "pmid" := VStr "2" ]}.

Definition sample_metformin : dict :=
  {[ "title" := VStr "Metformin in the elderly";
     "abstract" := VStr "Metformin side effects are mild.";
     "url" := VStr "https://pubmed.ncbi.nlm.nih.gov/1"; "pmid" := VStr "1" ]}.

Definition sample_renal : dict :=
  {[ "title" := VStr "Renal outcomes"; "abstract" := VStr "No abstract available";
     "url" := VStr "https://pubmed.ncbi.nlm.nih.gov/3"; "pmid" := VStr "3" ]}.

Definition sample_store : store :=
  {[ 1%positive := ODict sample_insulin;
     2%positive := ODict sample_metformin;
     3%positive := ODict sample_renal;
     4%positive := OList [1%positive; 3%positive; 2%positive; 3%positive] ]}.

(** Two answers of the literature service.  In the first the two
    searches share the article with pmid 2; in the second the recency
    search also lists the article with pmid 3 twice. *)
Definition sample_pubmed (query : string) (max_results : Z) (sort_by : string) : list dict :=
  if String.eqb sort_by "relevance"
  then [sample_metformin; sample_insulin]
  else [sample_insulin; sample_renal].

Definition repeating_pubmed (query : string) (max_results : Z) (sort_by : string) : list dict :=
  if String.eqb sort_by "relevance"
  then [sample_insulin]
  else [sample_insulin; sample_renal; sample_renal].

End Views.

(** ** The trace of a call of the HTTP client *)

Module HttpTrace.
Import HttpClient.

(** The actions of a call whose last request was attempt [k]: the first
    request at once, each later one after a wait of 2^attempt seconds. *)
Definition backoff_trace (k : nat) : list event :=
  Requested :: flat_map (fun i => [Slept (2 ^ Z.of_nat i); Requested]) (seq 1 k).

(** The seconds a trace spends waiting. *)
Definition slept (events : list event) : Z :=
  fold_right (fun e acc => match e with Slept s => (s + acc)%Z | Requested => acc end)
             0%Z events.

End HttpTrace.

(** ** retriever.py: the parser of the fetched XML *)

Module PubmedXml.
Import PyStr Py.

(** An element as [xml.etree.ElementTree] holds it: the tag, the
    attributes, the text before the first child, the children and the
    text after the end tag.  An absent text is Python's [None]. *)
#[warnings="-register-all"]
Inductive element :=
| Element (tag : string) (attrib : gmap string string) (text : option string)
          (children : list element) (tail : option string).

Definition elem_tag (e : element) : string :=
  match e with Element tag _ _ _ _ => tag end.

Definition elem_attrib (e : element) : gmap string string :=
  match e with Element _ attrib _ _ _ => attrib end.

Definition elem_text (e : element) : option string :=
  match e with Element _ _ text _ _ => text end.

Definition elem_children (e : element) : list element :=
  match e with Element _ _ _ children _ => children end.

Definition elem_tail (e : element) : option string :=
  match e with Element _ _ _ _ tail => tail end.

(** [elem.iter()]: the element and its descendants, in document order *)
Fixpoint iter (e : element) : list element :=
  match e with
  | Element _ _ _ children _ => e :: flat_map iter children
  end.

(** [elem.findall('.//' + tag)]: the descendants with the tag, in
    document order; the element itself is not among them. *)
Definition findall (e : element) (tag : string) : list element :=
  List.filter (fun d => String.eqb (elem_tag d) tag) (flat_map iter (elem_children e)).

(** [elem.find('.//' + tag)]: the first of them, or [None] *)
Definition find (e : element) (tag : string) : option element :=
  head (findall e tag).

(** A text that is neither [None] nor empty is yielded. *)
Definition yield_text (t : option string) : list string :=
  match t with
  | Some s => if is_empty s then [] else [s]
  | None => []
  end.

(** [elem.itertext()]: the text of the element, then for each child its
    inner text and its tail *)
Fixpoint itertext (e : element) : list string :=
  match e with
  | Element _ _ text children _ =>
      (yield_text text
       ++ flat_map (fun c => itertext c ++ yield_text (elem_tail c)) children)%list
  end.

(** What a parsed article holds under a key: text, or [None]. *)
Inductive field :=
| FNone
| FStr (s : string).

Abbreviation record := (gmap string field).

(** [x or ""] *)
Definition or_empty (t : option string) : string :=
  match t with Some s => s | None => "" end.

(** One turn of the loop over [abstract_elems]: what it appends to
    [abstract_parts]. *)
Definition abstract_part (abs_elem : element) : list string :=
  let label := default "" (elem_attrib abs_elem !! "Label") in
  let text := or_empty (elem_text abs_elem) in
  let text :=
    match elem_text abs_elem with
    | None => String.concat "" (itertext abs_elem)
    | Some _ => text
    end in
  if negb (is_empty label) && negb (is_empty text)
  then [(label ++ ": " ++ text)%string]
  else if negb (is_empty text) then [text]
  else [].

Definition no_title : string := "No title available".
Definition no_abstract_available : string := "No abstract available".

(** The ids argument as the parser uses it, through [len(article_ids)]
    and [article_ids[i]].  It is the idlist of the search answer: a
    list of strings, or a string, which is read as the list of its
    characters, or an object with [size] keys, whose subscript by an
    integer raises [KeyError]. *)
Inductive id_sequence :=
| IdList (ids : list string)
| IdDict (size : nat).

Definition ids_length (article_ids : id_sequence) : nat :=
  match article_ids with
  | IdList ids => List.length ids
  | IdDict size => size
  end.

(** The value of a pmid, or the exception of [article_ids[i]]. *)
Inductive pmid_outcome :=
| PmidRaised
| Pmid (pmid : option string).

(** The PMID of the i-th article: the text of its first [PMID] element,
    else the i-th id, else "Unknown". *)
Definition article_pmid (article_elem : element) (article_ids : id_sequence) (i : nat)
    : pmid_outcome :=
  match find article_elem "PMID" with
  | Some pmid_elem => Pmid (elem_text pmid_elem)
  | None =>
      if (i <? ids_length article_ids)%nat
      then match article_ids with
           | IdList ids => Pmid (Some (nth i ids ""))
           | IdDict _ => PmidRaised
           end
      else Pmid (Some "Unknown")
  end.

Definition article_title (article_elem : element) : string :=
  let title :=
    match find article_elem "ArticleTitle" with
    | Some title_elem => elem_text title_elem
    | None => Some no_title
    end in
  match title with
  | Some t => if is_empty t then no_title else strip t
  | None => no_title
  end.

Definition article_abstract (article_elem : element) : string :=
  let abstract_elems := findall article_elem "AbstractText" in
  let abstract_parts := flat_map abstract_part abstract_elems in
  let abstract :=
    match abstract_parts with
    | _ :: _ => join " " abstract_parts
    | [] =>
        match find article_elem "Abstract" with
        | Some abstract_elem => String.concat "" (itertext abstract_elem)
        | None => no_abstract_available
        end
    end in
  let abstract := strip abstract in
  if is_empty abstract then no_abstract_available else abstract.

(** [f"https://pubmed.ncbi.nlm.nih.gov/{pmid}"]; [None] is formatted as
    "None". *)
Definition article_url (pmid : option string) : string :=
  ("https://pubmed.ncbi.nlm.nih.gov/" ++ default "None" pmid)%string.

Definition article_record (article_elem : element) (pmid : option string) : record :=
  {[ "title" := FStr (article_title article_elem);
     "abstract" := FStr (article_abstract article_elem);
     "url" := FStr (article_url pmid);
     "pmid" := match pmid with Some p => FStr p | None => FNone end ]}.

(** The body of the loop over the [PubmedArticle] elements.  Its only
    step that can raise is [article_ids[i]]; the handler of the inner
    [try] then goes on to the next article, which is the outcome
    [None]. *)
Definition parse_article (article_ids : id_sequence) (i : nat) (article_elem : element)
    : option record :=
  match article_pmid article_elem article_ids i with
  | PmidRaised => None
  | Pmid pmid => Some (article_record article_elem pmid)
  end.

(** [xml] is what [ET.fromstring(xml_content)] gives: the root element,
    or [None] when it raises [ParseError]. *)
Definition parse_pubmed_xml (xml : option element) (article_ids : id_sequence)
    : list record :=
  match xml with
  | None => []
  | Some root => omap id (imap (parse_article article_ids) (findall root "PubmedArticle"))
  end.

(** A fetched document with two articles: the first with a PMID and a
    labelled abstract, the second with neither. *)
Definition leaf (tag text : string) : element :=
  Element tag ∅ (Some text) [] None.

Definition sample_article_1 : element :=
  Element "PubmedArticle" ∅ None
    [ Element "MedlineCitation" ∅ None
        [ leaf "PMID" "1";
          Element "Article" ∅ None
            [ leaf "ArticleTitle" "Metformin in the elderly";
              Element "Abstract" ∅ None
                [ Element "AbstractText" {[ "Label" := "RESULTS" ]}
                    (Some "Metformin side effects are mild.") [] None ]
                None ]
            None ]
        None ]
    None.

Definition sample_article_2 : element :=
  Element "PubmedArticle" ∅ None
    [ Element "MedlineCitation" ∅ None
        [ Element "Article" ∅ None [ leaf "ArticleTitle" " Insulin " ] None ]
        None ]
    None.

Definition sample_xml : element :=
  Element "PubmedArticleSet" ∅ None [sample_article_1; sample_article_2] None.

(** A parsed article as a dict of the scorer. *)
Definition as_value (f : field) : value :=
  match f with
  | FStr s => VStr s
  | FNone => VNone
  end.

Definition as_dict (r : record) : dict := as_value <$> r.

End PubmedXml.

(** ** embedder.py: building the index *)

Module Indexer.
Import PyStr Py Embedder.

(** A numpy array of shape (n, d): its rows. *)
Definition matrix := list (list float).

(** The arrays in memory.  [astype] makes a new array, and
    [faiss.normalize_L2] writes into the array it is given. *)
Abbreviation arrays := (gmap loc matrix).

(** [doc.get(key, default).strip()] *)
Definition get_stripped (doc : dict) (key default : string) : result string :=
  match doc !! key with
  | None => Ok (strip default)
  | Some (VStr s) => Ok (strip s)
  | Some VNone => Raise AttributeError
  | Some (VFloat _) => Raise AttributeError
  end.

(** [doc.get(key, '')] *)
Definition get_or_empty (doc : dict) (key : string) : value :=
  default (VStr "") (doc !! key).

(** The text of a document: title and abstract, or the title alone when
    there is no abstract. *)
Definition document_text (title abstract : string) : string :=
  if negb (is_empty abstract) && negb (String.eqb abstract "No abstract available")
  then (title ++ ". " ++ abstract)%string
  else title.

Definition document_metadata (doc : dict) (title : string) : dict :=
  {[ "title" := VStr title;
     "url" := get_or_empty doc "url";
     "pmid" := get_or_empty doc "pmid" ]}.

(** The loop over [docs], which fills [texts] and [metadatas]. *)
Fixpoint extract_texts (docs : list dict) : result (list string * list dict) :=
  match docs with
  | [] => Ok ([], [])
  | doc :: rest =>
      rbind (get_stripped doc "abstract" "") (fun abstract =>
      rbind (get_stripped doc "title" "No title") (fun title =>
      rbind (extract_texts rest) (fun '(texts, metadatas) =>
      Ok (document_text title abstract :: texts,
          document_metadata doc title :: metadatas))))
  end.

(** [faiss.IndexFlatL2]: the dimension and the vectors added so far. *)
Record flat_index := {
  dimension : nat;
  vectors : matrix
}.

(** [a.astype(np.float32)]: a new array with the converted values *)
Definition astype_float32 (a : loc) (h : arrays) : loc * arrays :=
  let copy := fresh (dom h) in
  (copy, <[copy := List.map (List.map (cast binary32)) (default [] (h !! a))]> h).

(** [index.add(a)] *)
Definition index_add (index : flat_index) (a : loc) (h : arrays) : flat_index :=
  {| dimension := dimension index;
     vectors := (vectors index ++ default [] (h !! a))%list |}.

Section Index.

(** [model.encode(texts)]: the embeddings, or an exception. *)
Variable encode : list string -> result matrix.

(** What [faiss.normalize_L2] puts in place of the rows it is given. *)
Variable normalized : matrix -> matrix.

(** The exact search of the index: the distances and positions of the
    [k] vectors nearest to the embedding of the query. *)
Variable search_L2 : matrix -> string -> Z -> list float * list Z.

(** [faiss.normalize_L2(a)], in place *)
Definition normalize_L2 (a : loc) (h : arrays) : arrays := alter normalized a h.

Definition create_faiss_index (docs : list dict)
    : result (option flat_index * list dict * list string) :=
  match docs with
  | [] => Ok (None, [], [])
  | _ =>
      rbind (extract_texts docs) (fun '(texts, metadatas) =>
      match texts with
      | [] => Ok (None, [], [])
      | _ =>
          (* try *)
          match encode texts with
          | Raise _ => Ok (None, [], [])          (* except Exception *)
          | Ok [] => Ok (None, [], [])
          | Ok ((first_row :: _) as rows) =>
              let embeddings : loc := 1%positive in
              let h : arrays := {[ embeddings := rows ]} in
              let index := {| dimension := List.length first_row; vectors := [] |} in
              (* faiss.normalize_L2(embeddings.astype(np.float32)) *)
              let '(converted, h) := astype_float32 embeddings h in
              let h := normalize_L2 converted h in
              (* index.add(embeddings.astype(np.float32)) *)
              let '(converted, h) := astype_float32 embeddings h in
              let index := index_add index converted h in
              Ok (Some index, metadatas, texts)
          end
      end)
  end.

(** The index as [search_similar_documents] uses it. *)
Definition as_faiss_index (index : flat_index) : faiss_index :=
  {| index_search := fun query k => search_L2 (vectors index) query k |}.

End Index.

End Indexer.

(** ** retriever.py: one search of the literature service *)

Module Entrez.
Import PyStr Py HttpClient PubmedXml.

(** A decoded JSON document.  An object is the list of its items in
    order; its keys are distinct. *)
#[warnings="-register-all"]
Inductive json :=
| JNull
| JBool (b : bool)
| JNumber (x : Q)
| JString (s : string)
| JArray (items : list json)
| JObject (items : list (string * json)).

(** The truth value of a document in a condition. *)
Definition truthy (x : json) : bool :=
  match x with
  | JNull => false
  | JBool b => b
  | JNumber x => negb (Qeq_bool x 0)
  | JString s => negb (is_empty s)
  | JArray items => match items with [] => false | _ => true end
  | JObject items => match items with [] => false | _ => true end
  end.

(** [key in x] for a string [key] *)
Definition contains_key (key : string) (x : json) : result bool :=
  match x with
  | JObject items => Ok (existsb (fun item => String.eqb (fst item) key) items)
  | JArray items =>
      Ok (existsb (fun item => match item with
                               | JString s => String.eqb s key
                               | _ => false
                               end) items)
  | JString s => Ok (contains key s)
  | _ => Raise TypeError
  end.

(** [x[key]] for a string [key] *)
Definition getitem (x : json) (key : string) : result json :=
  match x with
  | JObject items =>
      match List.find (fun item => String.eqb (fst item) key) items with
      | Some (_, v) => Ok v
      | None => Raise (KeyError key)
      end
  | _ => Raise TypeError
  end.

(** The items of an array when all of them are strings. *)
Fixpoint strings (items : list json) : option (list string) :=
  match items with
  | [] => Some []
  | JString s :: rest => option_map (cons s) (strings rest)
  | _ :: _ => None
  end.

(** The characters of a string, each as a string. *)
Fixpoint chars (s : string) : list string :=
  match s with
  | EmptyString => []
  | String c s' => String c "" :: chars s'
  end.

(** [",".join(article_ids)], and [article_ids] as the parser will use
    it. *)
Definition join_ids (article_ids : json) : result (string * id_sequence) :=
  match article_ids with
  | JArray items =>
      match strings items with
      | Some ids => Ok (join "," ids, IdList ids)
      | None => Raise TypeError
      end
  | JString s => Ok (join "," (chars s), IdList (chars s))
  | JObject items => Ok (join "," (List.map fst items), IdDict (List.length items))
  | _ => Raise TypeError
  end.

(** What one search does besides returning: the actions of its
    requests, and the pause of half a second before the fetch. *)
Inductive action :=
| Http (e : event)
| Paused.

Definition requests_made (actions : list action) : nat :=
  List.length (List.filter (fun a => match a with Http Requested => true | _ => false end)
                           actions).

(** From the answer of the id search to the ids to fetch: [None] when
    the function returns the empty list for want of ids. *)
Definition ids_to_fetch (search_data : json) : result (option (string * id_sequence)) :=
  if negb (truthy search_data) then Ok None
  else
    rbind (contains_key "esearchresult" search_data) (fun found =>
    if negb found then Ok None
    else
      rbind (getitem search_data "esearchresult") (fun esearchresult =>
      rbind (getitem esearchresult "idlist") (fun idlist =>
      if negb (truthy idlist) then Ok None
      else
        (* article_ids = search_data['esearchresult']['idlist'] *)
        rbind (join_ids idlist) (fun fetch => Ok (Some fetch))))).

Section Search.

(** The service.  [esearch query retmax sort n] is what the n-th
    [requests.get] of an id search gives, [efetch ids n] what the n-th
    [requests.get] of a fetch of the ids gives, and [response_xml r] is
    [ET.fromstring(r.text)], [None] when it raises [ParseError]. *)
Variable esearch : string -> Z -> string -> nat -> get_outcome json.
Variable efetch : string -> nat -> get_outcome json.
Variable response_xml : response json -> option element.

Definition search_pubmed_articles (query : string) (max_results : Z) (sort_by : string)
    : list record * list action :=
  let '(search_data, events) :=
    make_request_with_retry (esearch query max_results sort_by) 3 true in
  let searched := List.map Http events in
  match search_data with
  | Some (Json search_data) =>
      match ids_to_fetch search_data with
      | Ok (Some (ids, article_ids)) =>
          (* time.sleep(0.5) *)
          let '(fetch_response, events) := make_request_with_retry (efetch ids) 3 false in
          let actions := (searched ++ Paused :: List.map Http events)%list in
          match fetch_response with
          | Some (Resp r) =>
              (* [if not fetch_response]: a response is true when its
                 status is no error status *)
              match raise_for_status json r with
              | None => (parse_pubmed_xml (response_xml r) article_ids, actions)
              | Some _ => ([], actions)
              end
          | _ => ([], actions)
          end
      | Ok None => ([], searched)
      | Raise _ => ([], searched)        (* except Exception: return [] *)
      end
  | _ => ([], searched)                  (* if not search_data: return [] *)
  end.

(** The search as [get_pubmed_articles] sees it: the articles, as
    dicts. *)
Definition pubmed (query : string) (max_results : Z) (sort_by : string) : list dict :=
  List.map as_dict (fst (search_pubmed_articles query max_results sort_by)).

End Search.

(** The usual answer of the id search, and a service that answers
    every request at once. *)
Definition idlist_answer (ids : list string) : json :=
  JObject [ ("header", JObject [ ("type", JString "esearch") ]);
            ("esearchresult",
             JObject [ ("count", JString "2");
                       ("idlist", JArray (List.map JString ids)) ]) ].

Definition sample_response (body : json_outcome json) : response json :=
  {| status_code := 200; error_text := ""; json_body := body |}.

Definition sample_esearch (query : string) (max_results : Z) (sort_by : string) (n : nat)
    : get_outcome json :=
  Responded (sample_response (Decoded (idlist_answer ["1"; "22"]))).

Definition sample_efetch (ids : string) (n : nat) : get_outcome json :=
  Responded (sample_response (JSONDecodeError "Expecting value")).

End Entrez.

(** * Properties *)

Import PyStr Normalizer Py Scorer Fetcher HttpClient Embedder Rounding Views.

(** ** Words: [split] and [join] *)

Lemma string_app_cons c (a b : string) :
  (String c a ++ b)%string = String c (a ++ b)%string.
Proof. reflexivity. Qed.

Lemma string_app_nil_l (b : string) : ("" ++ b)%string = b.
Proof. reflexivity. Qed.

Lemma string_app_assoc (a b c : string) : ((a ++ b) ++ c = a ++ (b ++ c))%string.
Proof.
  induction a as [|x a IH]; [reflexivity|].
  now rewrite !string_app_cons, IH.
Qed.

Lemma string_app_empty_r (a : string) : (a ++ "")%string = a.
Proof.
  induction a as [|x a IH]; [reflexivity|].
  now rewrite string_app_cons, IH.
Qed.

Lemma is_empty_app_char cur c : is_empty (cur ++ String c "") = false.
Proof. destruct cur; reflexivity. Qed.

Lemma no_space_app_char cur c :
  no_space cur = true -> is_space c = false -> no_space (cur ++ String c "") = true.
Proof.
  induction cur as [|a cur IH]; intros Hc Hs.
  - rewrite string_app_nil_l. simpl. now rewrite Hs.
  - rewrite string_app_cons. simpl in *.
    apply andb_true_iff in Hc as [Ha Hc]. rewrite Ha. simpl. auto.
Qed.

Lemma split_from_words s : forall cur,
  no_space cur = true -> Forall (fun w => is_word w = true) (split_from cur s).
Proof.
  induction s as [|c s IH]; intros cur Hcur; simpl.
  - destruct (is_empty cur) eqn:E; constructor; auto.
    unfold is_word. now rewrite E, Hcur.
  - destruct (is_space c) eqn:Hc.
    + destruct (is_empty cur) eqn:E.
      * now apply IH.
      * constructor; [unfold is_word; now rewrite E, Hcur | now apply IH].
    + apply IH. now apply no_space_app_char.
Qed.

Lemma split_words s : Forall (fun w => is_word w = true) (split s).
Proof. now apply split_from_words. Qed.

Lemma split_from_word w : forall cur rest,
  no_space w = true ->
  split_from cur (w ++ rest) = split_from (cur ++ w) rest.
Proof.
  induction w as [|c w IH]; intros cur rest Hw.
  - now rewrite string_app_nil_l, string_app_empty_r.
  - simpl in Hw. apply andb_true_iff in Hw as [Hc Hw].
    apply negb_true_iff in Hc. rewrite string_app_cons. simpl. rewrite Hc.
    rewrite IH by assumption. now rewrite string_app_assoc.
Qed.

Lemma split_join words :
  Forall (fun w => is_word w = true) words -> split (join " " words) = words.
Proof.
  induction 1 as [|w ws Hw Hws IH]; [reflexivity|].
  unfold is_word in Hw. apply andb_true_iff in Hw as [Hne Hns].
  apply negb_true_iff in Hne.
  unfold split, join in *. destruct ws as [|w' ws].
  - simpl. rewrite <- (string_app_empty_r w) at 1.
    rewrite split_from_word by assumption. rewrite string_app_nil_l.
    simpl. now rewrite Hne.
  - change (String.concat " " (w :: w' :: ws))
      with (w ++ " " ++ String.concat " " (w' :: ws))%string.
    rewrite split_from_word by assumption. rewrite string_app_nil_l.
    rewrite string_app_cons, string_app_nil_l.
    cbn [split_from]. change (is_space " ") with true. cbv iota.
    rewrite Hne. now rewrite IH.
Qed.

(** ** The query normalizer *)

Lemma filter_all_true {A} (f : A -> bool) (xs : list A) :
  (forall x, f x = true) -> List.filter f xs = xs.
Proof.
  intros Hf. induction xs as [|x xs IH]; simpl; [reflexivity|].
  now rewrite Hf, IH.
Qed.

(** C3, as the code has it: whether stopwords are removed is decided by
    the number of words before the removal.  A word list of 3 words or
    fewer is kept whole; from a longer one every stopword is removed,
    however few words that leaves. *)
Theorem filter_stopwords_rule (query : string) :
  filter_stopwords (cleaned_words query) =
  if (List.length (cleaned_words query) <=? 3)%nat
  then cleaned_words query
  else without_stopwords (cleaned_words query).
Proof.
  unfold filter_stopwords, without_stopwords.
  destruct (List.length (cleaned_words query) <=? 3)%nat.
  - apply filter_all_true. intros x. apply orb_true_r.
  - apply filter_ext. intros x. apply orb_false_r.
Qed.

(** C3, as stated, fails: in "treatment of the disease" the removal of
    "of" and "the" leaves 2 words, yet the stopwords are removed. *)
Lemma stopword_rule_counterexample :
  cleaned_words "treatment of the disease" = ["treatment"; "of"; "the"; "disease"]
  /\ filter_stopwords (cleaned_words "treatment of the disease") = ["treatment"; "disease"]
  /\ stopword_rule_as_specified (cleaned_words "treatment of the disease")
     = ["treatment"; "of"; "the"; "disease"]
  /\ filter_stopwords (cleaned_words "treatment of the disease")
     <> stopword_rule_as_specified (cleaned_words "treatment of the disease")
  /\ clean_medical_query "treatment of the disease" = "treatment disease".
Proof. repeat split; try reflexivity. vm_compute. discriminate. Qed.




(** ** The lexical relevance scorer *)

Lemma get_lower_text (article : dict) (key : string) :
  text_or_absent article key = true ->
  get_lower article key = Ok (lower (text_of article key)).
Proof.
  unfold text_or_absent, get_lower, text_of.
  destruct (article !! key) as [[s| |x]|]; intros H; try reflexivity; discriminate.
Qed.

Lemma add_term_points title abstract score term :
  (add_term title abstract score term == score + term_points title abstract term)%Q.
Proof.
  unfold add_term, term_points.
  destruct (contains term title); [reflexivity|].
  destruct (contains term abstract); [reflexivity|]. lra.
Qed.

Lemma fold_add_term title abstract terms : forall score,
  (fold_left (add_term title abstract) terms score
   == score + sum_Q (List.map (term_points title abstract) terms))%Q.
Proof.
  induction terms as [|term terms IH]; intros score; simpl.
  - lra.
  - rewrite IH, add_term_points. lra.
Qed.

Lemma score_unfold title abstract qw mt fq :
  ((fold_left (add_term title abstract) mt
      (if contains fq title then 0.0 + 10.0
       else if contains fq abstract then 0.0 + 5.0 else 0.0)
    + inject_Z (Z.of_nat (size (qw ∩ (list_to_set (split title) : gset string)))) * 2.0
    + inject_Z (Z.of_nat (size (qw ∩ (list_to_set (split abstract) : gset string)))) * 0.5)
   == phrase_points title abstract fq
      + sum_Q (List.map (term_points title abstract) mt)
      + 2.0 * word_matches qw title
      + 0.5 * word_matches qw abstract)%Q.
Proof.
  rewrite fold_add_term. unfold phrase_points, word_matches.
  destruct (contains fq title); [lra|].
  destruct (contains fq abstract); lra.
Qed.

Lemma calculate_relevance_score_ok
    (article : dict) (query_words : gset string)
    (medical_terms : list string) (full_query : string) :
  scorable article = true ->
  exists score,
    calculate_relevance_score article query_words medical_terms full_query = Ok score
    /\ (score == reference_score (lower (text_of article "title"))
                                 (lower (text_of article "abstract"))
                                 query_words medical_terms full_query)%Q.
Proof.
  intros Hs. apply andb_true_iff in Hs as [Ht Ha].
  unfold calculate_relevance_score.
  rewrite (get_lower_text _ _ Ht), (get_lower_text _ _ Ha). simpl rbind.
  eexists. split; [reflexivity|].
  set (title := lower (text_of article "title")).
  set (abstract := lower (text_of article "abstract")).
  unfold reference_score. rewrite <- score_unfold.
  unfold completeness_points.
  destruct (is_empty abstract); simpl; [lra|].
  destruct (String.eqb abstract no_abstract); simpl; lra.
Qed.

(** C2: on an article whose title and abstract are text (or absent),
    the scorer returns the reference sum over the lowercased title and
    abstract. *)
Theorem calculate_relevance_score_reference
    (article : dict) (query_words : gset string)
    (medical_terms : list string) (full_query : string) :
  scorable article = true ->
  exists score,
    calculate_relevance_score article query_words medical_terms full_query = Ok score
    /\ (score == reference_score (lower (text_of article "title"))
                                 (lower (text_of article "abstract"))
                                 query_words medical_terms full_query)%Q.
Proof.
  intros Hs. apply andb_true_iff in Hs as [Ht Ha].
  pose proof (get_lower_text article "title" Ht) as Etitle.
  pose proof (get_lower_text article "abstract" Ha) as Eabstract.
  unfold calculate_relevance_score. rewrite Etitle, Eabstract. cbn [rbind].
  eexists. split; [reflexivity|].
  unfold reference_score. rewrite <- score_unfold.
  unfold completeness_points.
  destruct (is_empty (lower (text_of article "abstract"))); cbn [negb andb]; [lra|].
  destruct (String.eqb (lower (text_of article "abstract")) no_abstract);
    cbn [negb andb]; lra.
Qed.

Lemma calculate_relevance_score_reference_witness :
  exists score,
    calculate_relevance_score
      {[ "title" := VStr "Metformin in the elderly";
         "abstract" := VStr "Metformin side effects are mild." ]}
      (list_to_set (split "metformin side effects elderly"))
      (extract_medical_terms "metformin side effects elderly")
      "metformin side effects elderly" = Ok score
    /\ (score == reference_score
                   (lower (text_of {[ "title" := VStr "Metformin in the elderly";
                                      "abstract" := VStr "Metformin side effects are mild." ]} "title"))
                   (lower (text_of {[ "title" := VStr "Metformin in the elderly";
                                      "abstract" := VStr "Metformin side effects are mild." ]} "abstract"))
                   (list_to_set (split "metformin side effects elderly"))
                   (extract_medical_terms "metformin side effects elderly")
                   "metformin side effects elderly")%Q.
Proof.
  apply (calculate_relevance_score_reference
           {[ "title" := VStr "Metformin in the elderly";
              "abstract" := VStr "Metformin side effects are mild." ]}).
  vm_compute. reflexivity.
Defined.

(** The worked example: the score is 14.5. *)
Example calculate_relevance_score_example :
  calculate_relevance_score
    {[ "title" := VStr "Metformin in the elderly";
       "abstract" := VStr "Metformin side effects are mild." ]}
    (list_to_set (split "metformin side effects elderly"))
    (extract_medical_terms "metformin side effects elderly")
    "metformin side effects elderly" = Ok (1450000000 # 100000000)%Q.
Proof. vm_compute. reflexivity. Qed.

(** The part of a score that does not read the abstract. *)
Lemma reference_score_split title abstract qw mt fq :
  (reference_score title abstract qw mt fq
   == reference_score title "" qw mt fq
      + abstract_match_points title abstract qw mt fq
      - abstract_match_points title "" qw mt fq
      + completeness_points abstract)%Q.
Proof.
  unfold reference_score, abstract_match_points, phrase_points.
  assert (Hsum : forall a,
    (sum_Q (List.map (term_points title a) mt)
     == sum_Q (List.map (fun term => if contains term title then 3.0 else 0) mt)
        + sum_Q (List.map (fun term => if contains term title then 0
                                       else if contains term a then 1.5 else 0) mt))%Q).
  { intros a. induction mt as [|term mt IH]; simpl; [lra|].
    rewrite IH. unfold term_points.
    destruct (contains term title); [lra|].
    destruct (contains term a); lra. }
  rewrite (Hsum abstract), (Hsum "").
  change (completeness_points "") with 0%Q.
  destruct (contains fq title); [lra|].
  destruct (contains fq abstract), (contains fq ""); lra.
Qed.

Lemma scorable_insert_abstract (article : dict) (abstract : string) :
  text_or_absent article "title" = true ->
  scorable (<["abstract" := VStr abstract]> article) = true.
Proof.
  intros Ht. unfold scorable, text_or_absent in *.
  rewrite lookup_insert_eq, lookup_insert_ne by discriminate.
  now rewrite Ht.
Qed.

(** C9, as the code has it: of two articles that differ only in the
    abstract, the one with the empty or sentinel abstract gets no
    completeness bonus and the other gets 1.0; their scores differ by
    1.0 plus the difference of what the two abstract texts add through
    phrase, term and word matches, hence by exactly 1.0 when those
    match points are equal. *)
Theorem completeness_bonus_delta
    (article : dict) (real_abstract blank_abstract : string)
    (query_words : gset string) (medical_terms : list string) (full_query : string) :
  text_or_absent article "title" = true ->
  is_empty (lower real_abstract) = false ->
  String.eqb (lower real_abstract) no_abstract = false ->
  is_empty (lower blank_abstract) || String.eqb (lower blank_abstract) no_abstract = true ->
  let title := lower (text_of article "title") in
  let real_points :=
    abstract_match_points title (lower real_abstract) query_words medical_terms full_query in
  let blank_points :=
    abstract_match_points title (lower blank_abstract) query_words medical_terms full_query in
  exists score_real score_blank,
    calculate_relevance_score (<["abstract" := VStr real_abstract]> article)
      query_words medical_terms full_query = Ok score_real
    /\ calculate_relevance_score (<["abstract" := VStr blank_abstract]> article)
      query_words medical_terms full_query = Ok score_blank
    /\ completeness_points (lower real_abstract) = 1.0%Q
    /\ completeness_points (lower blank_abstract) = 0%Q
    /\ (score_real - score_blank == 1.0 + (real_points - blank_points))%Q
    /\ ((real_points == blank_points)%Q -> (score_real - score_blank == 1.0)%Q).
Proof.
  intros Ht Hne Hns Hblank title real_points blank_points.
  destruct (calculate_relevance_score_ok _ query_words medical_terms full_query
              (scorable_insert_abstract article real_abstract Ht)) as (s1 & E1 & H1).
  destruct (calculate_relevance_score_ok _ query_words medical_terms full_query
              (scorable_insert_abstract article blank_abstract Ht)) as (s0 & E0 & H0).
  exists s1, s0.
  assert (Ttl : forall a, text_of (<["abstract" := VStr a]> article) "title"
                          = text_of article "title").
  { intros a. unfold text_of. now rewrite lookup_insert_ne by discriminate. }
  assert (Abs : forall a, text_of (<["abstract" := VStr a]> article) "abstract" = a).
  { intros a. unfold text_of. now rewrite lookup_insert_eq. }
  rewrite Ttl, Abs in H1, H0. fold title in H1, H0.
  assert (C1 : completeness_points (lower real_abstract) = 1.0%Q).
  { unfold completeness_points. now rewrite Hne, Hns. }
  assert (C0 : completeness_points (lower blank_abstract) = 0%Q).
  { unfold completeness_points.
    destruct (is_empty (lower blank_abstract)); [reflexivity|].
    simpl in Hblank. now rewrite Hblank. }
  assert (D : (s1 - s0 == 1.0 + (real_points - blank_points))%Q).
  { rewrite H1, H0.
    rewrite (reference_score_split title (lower real_abstract)).
    rewrite (reference_score_split title (lower blank_abstract)).
    rewrite C1, C0. unfold real_points, blank_points. lra. }
  repeat split; try assumption.
  intros Heq. rewrite D, Heq. lra.
Qed.

Lemma completeness_bonus_delta_witness :
  exists score_real score_blank,
    calculate_relevance_score
      (<["abstract" := VStr "Results were mixed."]>
         {[ "title" := VStr "Insulin therapy"; "pmid" := VStr "7" ]})
      (list_to_set (split "metformin elderly")) ["metformin"; "elderly"]
      "metformin elderly" = Ok score_real
    /\ calculate_relevance_score
      (<["abstract" := VStr "No abstract available"]>
         {[ "title" := VStr "Insulin therapy"; "pmid" := VStr "7" ]})
      (list_to_set (split "metformin elderly")) ["metformin"; "elderly"]
      "metformin elderly" = Ok score_blank
    /\ (score_real - score_blank == 1.0)%Q.
Proof.
  destruct (completeness_bonus_delta
              {[ "title" := VStr "Insulin therapy"; "pmid" := VStr "7" ]}
              "Results were mixed." "No abstract available"
              (list_to_set (split "metformin elderly")) ["metformin"; "elderly"]
              "metformin elderly")
    as (s1 & s0 & E1 & E0 & _ & _ & _ & H); try reflexivity.
  exists s1, s0. split; [exact E1|]. split; [exact E0|].
  apply H. vm_compute. reflexivity.
Defined.

(** C9, as stated, fails: when the real abstract matches the query the
    two scores differ by more than the bonus (here 8.5 against 0.5). *)
Lemma completeness_bonus_delta_counterexample :
  exists score_real score_blank,
    calculate_relevance_score
      {[ "title" := VStr "Drug safety"; "abstract" := VStr "Metformin helps";
         "url" := VStr "https://pubmed.ncbi.nlm.nih.gov/7"; "pmid" := VStr "7" ]}
      (list_to_set (split "metformin")) (extract_medical_terms "metformin")
      "metformin" = Ok score_real
    /\ calculate_relevance_score
      {[ "title" := VStr "Drug safety"; "abstract" := VStr "No abstract available";
         "url" := VStr "https://pubmed.ncbi.nlm.nih.gov/7"; "pmid" := VStr "7" ]}
      (list_to_set (split "metformin")) (extract_medical_terms "metformin")
      "metformin" = Ok score_blank
    /\ (score_real == 8.5)%Q /\ (score_blank == 0.5)%Q
    /\ ~ (score_real - score_blank == 1.0)%Q.
Proof.
  eexists. eexists.
  split; [vm_compute; reflexivity|]. split; [vm_compute; reflexivity|].
  split; [reflexivity|]. split; [reflexivity|].
  intros H. vm_compute in H. discriminate.
Qed.

(** ** The stable descending sort *)

Section StableSort.
Context {A : Type}.

Lemma insert_desc_perm (x : Q * A) sorted :
  Permutation (insert_desc x sorted) (x :: sorted).
Proof.
  induction sorted as [|y rest IH]; simpl; [reflexivity|].
  destruct (Qle_bool (fst y) (fst x)); [reflexivity|].
  rewrite IH. apply perm_swap.
Qed.

Lemma stable_sort_desc_perm (xs : list (Q * A)) :
  Permutation (stable_sort_desc xs) xs.
Proof.
  induction xs as [|x xs IH]; simpl; [reflexivity|].
  rewrite insert_desc_perm. now constructor.
Qed.

Lemma insert_desc_sorted (x : Q * A) sorted :
  StronglySorted key_ge sorted -> StronglySorted key_ge (insert_desc x sorted).
Proof.
  induction 1 as [|y rest Hs IH Hy]; simpl.
  - repeat constructor.
  - destruct (Qle_bool (fst y) (fst x)) eqn:E.
    + apply Qle_bool_iff in E.
      constructor; [now constructor|].
      constructor; [exact E|].
      eapply Forall_impl; [exact Hy|]; simpl.
      intros z Hz. unfold key_ge in *. lra.
    + constructor; [exact IH|].
      assert (Hx : key_ge y x).
      { unfold key_ge. destruct (Qlt_le_dec (fst x) (fst y)) as [Hlt|Hle].
        - lra.
        - apply Qle_bool_iff in Hle. congruence. }
      eapply Permutation_Forall; [symmetry; apply insert_desc_perm|].
      now constructor.
Qed.

Lemma stable_sort_desc_sorted (xs : list (Q * A)) :
  StronglySorted key_ge (stable_sort_desc xs).
Proof.
  induction xs as [|x xs IH]; simpl; [constructor|].
  now apply insert_desc_sorted.
Qed.

Lemma insert_desc_filter (k : Q) (x : Q * A) sorted :
  List.filter (has_key k) (insert_desc x sorted) = List.filter (has_key k) (x :: sorted).
Proof.
  induction sorted as [|y rest IH]; [reflexivity|].
  cbn [insert_desc]. destruct (Qle_bool (fst y) (fst x)) eqn:E; [reflexivity|].
  cbn [List.filter] in *. rewrite IH.
  destruct (has_key k x) eqn:Hx, (has_key k y) eqn:Hy; try reflexivity.
  unfold has_key in *. apply Qeq_bool_iff in Hx, Hy.
  assert (Hle : (fst y <= fst x)%Q) by lra.
  apply Qle_bool_iff in Hle. congruence.
Qed.

Lemma stable_sort_desc_stable (k : Q) (xs : list (Q * A)) :
  List.filter (has_key k) (stable_sort_desc xs) = List.filter (has_key k) xs.
Proof.
  induction xs as [|x xs IH]; [reflexivity|].
  cbn [stable_sort_desc fold_right]. fold (stable_sort_desc xs).
  rewrite insert_desc_filter. cbn [List.filter]. now rewrite IH.
Qed.

Lemma has_key_refl (x : Q * A) : has_key (fst x) x = true.
Proof. unfold has_key. apply Qeq_bool_iff. reflexivity. Qed.

Lemma filter_head_in (k : Q) (x : Q * A) (xs l : list (Q * A)) :
  List.filter (has_key k) l = x :: xs -> In x l.
Proof.
  intros E. assert (H : In x (List.filter (has_key k) l)) by (rewrite E; now left).
  now apply List.filter_In in H.
Qed.

(** A sorted list is determined by its runs of equal keys: the result
    of a stable sort does not depend on the sorting algorithm. *)
Lemma sorted_stable_eq (l1 : list (Q * A)) : forall l2,
  StronglySorted key_ge l1 -> StronglySorted key_ge l2 ->
  (forall k, List.filter (has_key k) l1 = List.filter (has_key k) l2) ->
  l1 = l2.
Proof.
  induction l1 as [|x l1 IH]; intros [|y l2] H1 H2 Hf; try reflexivity.
  - specialize (Hf (fst y)). cbn [List.filter] in Hf.
    rewrite has_key_refl in Hf. discriminate.
  - specialize (Hf (fst x)). cbn [List.filter] in Hf.
    rewrite has_key_refl in Hf. discriminate.
  - apply StronglySorted_inv in H1 as [H1 Hx].
    apply StronglySorted_inv in H2 as [H2 Hy].
    rewrite List.Forall_forall in Hx, Hy.
    assert (Hxy : has_key (fst x) y = true).
    { destruct (has_key (fst x) y) eqn:E; [reflexivity|exfalso].
      assert (Hyx : has_key (fst y) x = false).
      { unfold has_key in *. destruct (Qeq_bool (fst x) (fst y)) eqn:E'; [|reflexivity].
        apply Qeq_bool_iff in E'. symmetry in E'. apply Qeq_bool_iff in E'. congruence. }
      pose proof (Hf (fst x)) as Fx. pose proof (Hf (fst y)) as Fy.
      cbn [List.filter] in Fx, Fy.
      rewrite has_key_refl, ?E in Fx. rewrite has_key_refl, ?Hyx in Fy.
      symmetry in Fx. apply filter_head_in in Fx. apply filter_head_in in Fy.
      specialize (Hx y Fy). specialize (Hy x Fx). unfold key_ge, has_key in *.
      assert (Heq : (fst y == fst x)%Q) by lra.
      apply Qeq_bool_iff in Heq. congruence. }
    assert (Exy : x = y).
    { specialize (Hf (fst x)). cbn [List.filter] in Hf.
      rewrite has_key_refl, Hxy in Hf. congruence. }
    subst y. f_equal. apply IH; [assumption..|].
    intros k. specialize (Hf k). cbn [List.filter] in Hf.
    destruct (has_key k x); congruence.
Qed.

Lemma stable_sort_desc_unique (xs l : list (Q * A)) :
  StronglySorted key_ge l ->
  (forall k, List.filter (has_key k) l = List.filter (has_key k) xs) ->
  l = stable_sort_desc xs.
Proof.
  intros Hs Hf. apply sorted_stable_eq; [exact Hs | apply stable_sort_desc_sorted |].
  intros k. now rewrite stable_sort_desc_stable.
Qed.

End StableSort.

Lemma insert_desc_map {A B} (f : A -> B) (x : Q * A) sorted :
  insert_desc (fst x, f (snd x)) (List.map (fun p => (fst p, f (snd p))) sorted)
  = List.map (fun p => (fst p, f (snd p))) (insert_desc x sorted).
Proof.
  induction sorted as [|y rest IH]; [reflexivity|].
  cbn [insert_desc List.map fst snd].
  destruct (Qle_bool (fst y) (fst x)); [reflexivity|].
  cbn [List.map]. now rewrite IH.
Qed.

Lemma stable_sort_desc_map {A B} (f : A -> B) (xs : list (Q * A)) :
  stable_sort_desc (List.map (fun p => (fst p, f (snd p))) xs)
  = List.map (fun p => (fst p, f (snd p))) (stable_sort_desc xs).
Proof.
  induction xs as [|x xs IH]; [reflexivity|].
  cbn [stable_sort_desc fold_right List.map].
  fold (stable_sort_desc xs).
  fold (stable_sort_desc (List.map (fun p => (fst p, f (snd p))) xs)).
  rewrite IH. apply insert_desc_map.
Qed.

(** ** Scoring on the store *)

Lemma fresh_lookup (h : store) : h !! fresh (dom h) = None.
Proof. apply not_elem_of_dom, is_fresh. Qed.

Lemma lookup_ne_fresh (h : store) (l : loc) (o : object) :
  h !! l = Some o -> l <> fresh (dom h).
Proof. intros H ->. rewrite fresh_lookup in H. discriminate. Qed.

Lemma score_for_ok q d :
  scorable d = true ->
  calculate_relevance_score d (list_to_set (split (lower q)))
    (extract_medical_terms (lower q)) (lower q) = Ok (score_for q d).
Proof.
  intros Hd.
  destruct (calculate_relevance_score_ok d (list_to_set (split (lower q)))
              (extract_medical_terms (lower q)) (lower q) Hd) as (s & E & _).
  unfold score_for. now rewrite E.
Qed.

Lemma score_one_spec q sa l d (h : store) acc :
  h !! sa = Some (OList acc) ->
  h !! l = Some (ODict d) ->
  scorable d = true ->
  score_one q sa l h
  = (Ok tt, <[sa := OList (acc ++ [fresh (dom h)])]>
              (<[fresh (dom h) := ODict (with_score q d)]> h)).
Proof.
  intros Hsa Hl Hd. unfold score_one, bind, read_dict. rewrite Hl.
  unfold lift. rewrite (score_for_ok q d Hd).
  unfold alloc, dict_setitem. rewrite lookup_insert_eq.
  unfold list_append, list_extend.
  rewrite insert_insert_eq.
  rewrite lookup_insert_ne by (symmetry; eapply lookup_ne_fresh; eauto).
  rewrite Hsa. reflexivity.
Qed.

Lemma scoring_loop q sa : forall items ds (h : store) acc,
  h !! sa = Some (OList acc) ->
  Forall2 (fun l d => h !! l = Some (ODict d)) items ds ->
  Forall (fun d => scorable d = true) ds ->
  exists copies h',
    for_each items (score_one q sa) h = (Ok tt, h')
    /\ h' !! sa = Some (OList (acc ++ copies))
    /\ (forall l, l ∈ dom h -> l <> sa -> h' !! l = h !! l)
    /\ Forall (fun c => c ∉ dom h) copies
    /\ NoDup copies
    /\ Forall2 (fun c d => h' !! c = Some (ODict (with_score q d))) copies ds.
Proof.
  induction items as [|l items IH]; intros ds h acc Hsa Hitems Hds.
  - apply Forall2_nil_inv_l in Hitems as ->.
    exists [], h. rewrite app_nil_r. repeat split; auto; constructor.
  - apply Forall2_cons_inv_l in Hitems as (d & ds' & Hl & Hrest & ->).
    apply Forall_cons in Hds as [Hd Hds].
    set (c := fresh (dom h)).
    set (h1 := <[sa := OList (acc ++ [c])]> (<[c := ODict (with_score q d)]> h)).
    assert (Hc : c ∉ dom h) by apply is_fresh.
    assert (Hsac : sa <> c) by (eapply lookup_ne_fresh; eauto).
    assert (Hkeep : forall x o, h !! x = Some o -> x <> sa -> h1 !! x = Some o).
    { intros x o Hx Hne. unfold h1.
      rewrite lookup_insert_ne by congruence.
      rewrite lookup_insert_ne; [exact Hx|].
      symmetry. eapply lookup_ne_fresh; eauto. }
    destruct (IH ds' h1 (acc ++ [c])%list) as (copies & h' & Erun & Hsa' & Hsame & Hfresh & Hnd & Hcopies).
    + unfold h1. now rewrite lookup_insert_eq.
    + eapply Forall2_impl; [exact Hrest|]. simpl. intros x dx Hx.
      apply Hkeep; [exact Hx|]. intros ->. congruence.
    + exact Hds.
    + assert (Hdom : forall x, x ∈ dom h -> x ∈ dom h1).
      { intros x Hx. unfold h1. rewrite !dom_insert. set_solver. }
      assert (Hc1 : c ∈ dom h1).
      { unfold h1. rewrite !dom_insert. set_solver. }
      exists (c :: copies), h'. split; [|split; [|split; [|split; [|split]]]].
      * cbn [for_each]. unfold bind at 1.
        rewrite (score_one_spec q sa l d h acc Hsa Hl Hd). exact Erun.
      * rewrite Hsa'. now rewrite <- app_assoc.
      * intros x Hx Hne. rewrite Hsame by auto.
        apply elem_of_dom in Hx as [o Ho].
        rewrite Ho. now apply Hkeep.
      * constructor; [exact Hc|].
        eapply Forall_impl; [exact Hfresh|]. simpl. intros x Hx Hin. auto.
      * constructor; [|exact Hnd].
        intros Hin. eapply Forall_forall in Hfresh; [|exact Hin]. auto.
      * constructor; [|exact Hcopies].
        rewrite Hsame by auto. unfold h1.
        rewrite lookup_insert_ne by congruence. now rewrite lookup_insert_eq.
Qed.

Lemma relevance_keys q (h : store) copies ds :
  Forall2 (fun c d => h !! c = Some (ODict (with_score q d))) copies ds ->
  map_M relevance_key copies h
  = (Ok (List.map (fun t : Q * (loc * dict) => (fst t, fst (snd t)))
           (zip_with (fun c d => (score_for q d, (c, d))) copies ds)), h).
Proof.
  induction 1 as [|c d copies ds Hc _ IH]; [reflexivity|].
  cbn [map_M zip_with List.map fst snd]. unfold bind at 1.
  unfold relevance_key at 1, bind at 1, dict_getitem. rewrite Hc.
  unfold with_score at 1. rewrite lookup_insert_eq.
  unfold ret at 1. unfold bind at 1. rewrite IH. reflexivity.
Qed.

Lemma scored_triples q copies ds :
  List.length copies = List.length ds ->
  List.map (fun t : Q * (loc * dict) => (fst t, with_score q (snd (snd t))))
    (zip_with (fun c d => (score_for q d, (c, d))) copies ds)
  = List.map (fun d => (score_for q d, with_score q d)) ds.
Proof.
  revert ds. induction copies as [|c copies IH]; intros [|d ds] Hlen;
    try discriminate; [reflexivity|].
  cbn [zip_with List.map fst snd]. rewrite IH; [reflexivity|].
  simpl in Hlen. lia.
Qed.

Lemma triples_locs q copies ds :
  List.length copies = List.length ds ->
  List.map (fun t : Q * (loc * dict) => fst (snd t))
    (zip_with (fun c d => (score_for q d, (c, d))) copies ds) = copies.
Proof.
  revert ds. induction copies as [|c copies IH]; intros [|d ds] Hlen;
    try discriminate; [reflexivity|].
  cbn [zip_with List.map fst snd]. rewrite IH; [reflexivity|].
  simpl in Hlen. lia.
Qed.

Lemma triples_at q (h : store) copies ds :
  Forall2 (fun c d => h !! c = Some (ODict (with_score q d))) copies ds ->
  Forall (fun t : Q * (loc * dict) => h !! fst (snd t) = Some (ODict (with_score q (snd (snd t)))))
    (zip_with (fun c d => (score_for q d, (c, d))) copies ds).
Proof. induction 1; cbn [zip_with]; constructor; auto. Qed.

(** The records behind the re-ordered list are the enriched records,
    sorted. *)
Lemma sorted_records q (h : store) copies ds :
  Forall2 (fun c d => h !! c = Some (ODict (with_score q d))) copies ds ->
  List.map (dict_at h)
    (List.map snd (stable_sort_desc
       (List.map (fun t : Q * (loc * dict) => (fst t, fst (snd t)))
          (zip_with (fun c d => (score_for q d, (c, d))) copies ds))))
  = List.map snd (stable_sort_desc
      (List.map (fun d => (score_for q d, with_score q d)) ds)).
Proof.
  intros H. pose proof (Forall2_length _ _ _ H) as Hlen.
  rewrite <- (scored_triples q copies ds Hlen).
  set (T := zip_with (fun c d => (score_for q d, (c, d))) copies ds).
  rewrite (stable_sort_desc_map (fun cd : loc * dict => fst cd) T).
  rewrite (stable_sort_desc_map (fun cd : loc * dict => with_score q (snd cd)) T).
  rewrite !List.map_map. cbn [snd].
  apply List.map_ext_in. intros t Ht.
  assert (Hin : In t T).
  { eapply Permutation_in; [apply stable_sort_desc_perm | exact Ht]. }
  pose proof (triples_at q h copies ds H) as HT.
  rewrite List.Forall_forall in HT. specialize (HT t Hin).
  unfold dict_at. now rewrite HT.
Qed.

Lemma score_articles_by_relevance_unfold articles q :
  score_articles_by_relevance articles q
  = bind (alloc (OList [])) (fun scored_articles =>
    bind (read_list articles) (fun items =>
    bind (for_each items (score_one q scored_articles)) (fun _ =>
    bind (sort_by_relevance scored_articles) (fun _ =>
    ret scored_articles)))).
Proof. reflexivity. Qed.

Lemma scorable_list_inv (h : store) articles :
  scorable_list h articles = true ->
  h !! articles = Some (OList (list_at h articles))
  /\ Forall2 (fun l d => h !! l = Some (ODict d)) (list_at h articles) (records_at h articles)
  /\ Forall (fun d => scorable d = true) (records_at h articles).
Proof.
  unfold scorable_list. intros H.
  apply andb_true_iff in H as [H Hs]. apply andb_true_iff in H as [Hl Hd].
  split; [|split].
  - unfold is_list, list_at in *. destruct (h !! articles) as [[?|?]|]; congruence.
  - unfold records_at. rewrite forallb_forall in Hd.
    induction (list_at h articles) as [|l ls IH]; cbn [List.map]; constructor.
    + specialize (Hd l (or_introl eq_refl)). unfold is_dict, dict_at in *.
      destruct (h !! l) as [[?|?]|]; congruence.
    + apply IH. intros x Hx. apply Hd. now right.
  - rewrite forallb_forall in Hs. apply List.Forall_forall. exact Hs.
Qed.

Lemma records_insert_other (h : store) (l : loc) (o : object) (f : dict -> dict) locs ds :
  Forall (fun c => c <> l) locs ->
  Forall2 (fun c d => h !! c = Some (ODict (f d))) locs ds ->
  Forall2 (fun c d => <[l := o]> h !! c = Some (ODict (f d))) locs ds.
Proof.
  intros Hne H. induction H as [|c d cs ds' Hc Hrest IH]; constructor.
  - apply Forall_cons in Hne as [Hne _].
    rewrite lookup_insert_ne by congruence. exact Hc.
  - apply IH. now apply Forall_cons in Hne as [_ ?].
Qed.

Lemma records_are_dicts (h : store) (f : dict -> dict) locs ds :
  Forall2 (fun c d => h !! c = Some (ODict (f d))) locs ds ->
  Forall (fun c => is_dict h c = true) locs.
Proof.
  induction 1 as [|c d cs ds' Hc _ IH]; constructor; [|exact IH].
  unfold is_dict. now rewrite Hc.
Qed.

(** What a call of [score_articles_by_relevance] does to the store. *)
Lemma score_articles_by_relevance_spec (h : store) articles q :
  scorable_list h articles = true ->
  exists out h',
    score_articles_by_relevance articles q h = (Ok out, h')
    /\ (out ∉ dom h)
    /\ (forall l, l ∈ dom h -> h' !! l = h !! l)
    /\ h' !! out = Some (OList (list_at h' out))
    /\ Forall (fun c => (c ∉ dom h) /\ c <> out /\ is_dict h' c = true) (list_at h' out)
    /\ NoDup (list_at h' out)
    /\ records_at h' out
       = List.map snd (stable_sort_desc
           (List.map (fun d => (score_for q d, with_score q d)) (records_at h articles))).
Proof.
  intros Hwf. destruct (scorable_list_inv h articles Hwf) as (Hart & Hitems & Hds).
  set (items := list_at h articles) in *. set (ds := records_at h articles) in *.
  set (sa := fresh (dom h)).
  set (h0 := <[sa := OList []]> h).
  assert (Hsa : sa ∉ dom h) by apply is_fresh.
  assert (Hkeep0 : forall x o, h !! x = Some o -> h0 !! x = Some o).
  { intros x o Hx. unfold h0. rewrite lookup_insert_ne; [exact Hx|].
    symmetry. eapply lookup_ne_fresh; eauto. }
  destruct (scoring_loop q sa items ds h0 []) as (copies & h1 & Eloop & Hsa1 & Hsame & Hfresh & Hnd & Hcopies).
  { unfold h0. now rewrite lookup_insert_eq. }
  { eapply Forall2_impl; [exact Hitems|]. simpl. intros; now apply Hkeep0. }
  { exact Hds. }
  simpl in Hsa1.
  set (T := zip_with (fun c d => (score_for q d, (c, d))) copies ds).
  set (outs := List.map snd (stable_sort_desc (List.map (fun t : Q * (loc * dict) => (fst t, fst (snd t))) T))).
  set (h2 := <[sa := OList outs]> h1).
  assert (Hsa0 : sa ∈ dom h0).
  { unfold h0. apply elem_of_dom. rewrite lookup_insert_eq. eauto. }
  assert (Hcopies_ne : Forall (fun c => c <> sa) copies).
  { eapply Forall_impl; [exact Hfresh|]. simpl. intros c Hc ->. auto. }
  assert (Hcopies2 : Forall2 (fun c d => h2 !! c = Some (ODict (with_score q d))) copies ds).
  { unfold h2. now apply (records_insert_other h1 sa _ (with_score q)). }
  assert (Hperm : Permutation outs copies).
  { unfold outs.
    rewrite (stable_sort_desc_perm (List.map (fun t : Q * (loc * dict) => (fst t, fst (snd t))) T)).
    rewrite List.map_map. cbn [snd]. unfold T.
    rewrite triples_locs; [reflexivity|]. eapply Forall2_length; eauto. }
  exists sa, h2. split; [|split; [|split; [|split; [|split; [|split]]]]].
  - rewrite score_articles_by_relevance_unfold.
    unfold bind at 1. unfold alloc. fold sa. fold h0.
    unfold bind at 1. unfold read_list at 1. rewrite (Hkeep0 _ _ Hart).
    unfold bind at 1. fold items. rewrite Eloop.
    unfold bind at 1. unfold sort_by_relevance, bind at 1.
    unfold read_list. rewrite Hsa1.
    unfold bind at 1. rewrite (relevance_keys q h1 copies ds Hcopies).
    reflexivity.
  - exact Hsa.
  - intros l Hl. assert (l <> sa) by (intros ->; auto).
    unfold h2. rewrite lookup_insert_ne by congruence.
    rewrite Hsame.
    + unfold h0. now rewrite lookup_insert_ne by congruence.
    + unfold h0. apply elem_of_dom. rewrite lookup_insert_ne by congruence.
      now apply elem_of_dom.
    + assumption.
  - unfold list_at, h2. now rewrite lookup_insert_eq.
  - assert (Hout : list_at h2 sa = outs).
    { unfold list_at, h2. now rewrite lookup_insert_eq. }
    rewrite Hout. eapply Permutation_Forall; [symmetry; exact Hperm|].
    apply List.Forall_forall. intros c Hc.
    rewrite List.Forall_forall in Hfresh, Hcopies_ne.
    split; [|split; [now apply Hcopies_ne|]].
    + intros Hin. apply (Hfresh c Hc). unfold h0. apply elem_of_dom.
      rewrite lookup_insert_ne by (intros <-; auto). now apply elem_of_dom.
    + pose proof (records_are_dicts h2 _ _ _ Hcopies2) as Hd.
      rewrite List.Forall_forall in Hd. now apply Hd.
  - assert (Hout : list_at h2 sa = outs).
    { unfold list_at, h2. now rewrite lookup_insert_eq. }
    rewrite Hout, Hperm. exact Hnd.
  - unfold records_at.
    assert (Hout : list_at h2 sa = outs).
    { unfold list_at, h2. now rewrite lookup_insert_eq. }
    rewrite Hout. unfold outs, T.
    apply (sorted_records q h2 copies ds Hcopies2).
Qed.

Lemma relevance_of_with_score q d : relevance_of (with_score q d) = score_for q d.
Proof. unfold relevance_of, with_score. now rewrite lookup_insert_eq. Qed.


Lemma scored_keyed q ds :
  Forall keyed_by_relevance (List.map (fun d => (score_for q d, with_score q d)) ds).
Proof.
  induction ds; cbn [List.map]; constructor; auto.
  unfold keyed_by_relevance. cbn [fst snd]. now rewrite relevance_of_with_score.
Qed.

Lemma sorted_by_relevance (ps : list (Q * dict)) :
  Forall keyed_by_relevance ps ->
  StronglySorted key_ge ps ->
  StronglySorted (fun a b => (relevance_of b <= relevance_of a)%Q) (List.map snd ps).
Proof.
  intros Hk Hs. induction Hs as [|p ps Hs IH Hp]; cbn [List.map]; [constructor|].
  apply Forall_cons in Hk as [Hkp Hk].
  constructor; [now apply IH|].
  apply List.Forall_forall. intros r Hr.
  apply List.in_map_iff in Hr as (p' & <- & Hin).
  rewrite List.Forall_forall in Hp, Hk.
  specialize (Hp p' Hin). specialize (Hk p' Hin).
  unfold key_ge, keyed_by_relevance in *. now rewrite <- Hkp, <- Hk.
Qed.

Lemma filter_by_relevance (s : Q) (ps : list (Q * dict)) :
  Forall keyed_by_relevance ps ->
  List.filter (fun a => Qeq_bool (relevance_of a) s) (List.map snd ps)
  = List.map snd (List.filter (has_key s) ps).
Proof.
  induction 1 as [|p ps Hp _ IH]; [reflexivity|].
  cbn [List.map List.filter]. unfold has_key at 1.
  unfold keyed_by_relevance in Hp. rewrite <- Hp.
  destruct (Qeq_bool (fst p) s); cbn [List.map]; now rewrite IH.
Qed.

Lemma map_snd_scored q ds :
  List.map snd (List.map (fun d => (score_for q d, with_score q d)) ds)
  = List.map (with_score q) ds.
Proof. rewrite List.map_map. reflexivity. Qed.

(** C7: the returned list holds the enriched records by decreasing
    relevance score, and records of equal score stand in the order of
    the input list. *)
Theorem score_articles_by_relevance_sorted (h : store) (articles : loc) (query : string) :
  scorable_list h articles = true ->
  exists out h',
    score_articles_by_relevance articles query h = (Ok out, h')
    /\ Permutation (records_at h' out)
                   (List.map (with_score query) (records_at h articles))
    /\ StronglySorted (fun a b => (relevance_of b <= relevance_of a)%Q)
                      (records_at h' out)
    /\ (forall s : Q,
          List.filter (fun a => Qeq_bool (relevance_of a) s) (records_at h' out)
          = List.filter (fun a => Qeq_bool (relevance_of a) s)
              (List.map (with_score query) (records_at h articles))).
Proof.
  intros Hwf.
  destruct (score_articles_by_relevance_spec h articles query Hwf)
    as (out & h' & Erun & _ & _ & _ & _ & _ & Hrec).
  exists out, h'. split; [exact Erun|]. rewrite Hrec.
  set (ps := List.map (fun d => (score_for query d, with_score query d))
               (records_at h articles)).
  assert (Hk : Forall keyed_by_relevance ps) by apply scored_keyed.
  assert (Hk' : Forall keyed_by_relevance (stable_sort_desc ps)).
  { eapply Permutation_Forall; [symmetry; apply stable_sort_desc_perm | exact Hk]. }
  split; [|split].
  - rewrite (stable_sort_desc_perm ps). unfold ps. now rewrite map_snd_scored.
  - apply sorted_by_relevance; [exact Hk' | apply stable_sort_desc_sorted].
  - intros s. rewrite (filter_by_relevance s _ Hk').
    rewrite stable_sort_desc_stable.
    rewrite <- (filter_by_relevance s _ Hk). unfold ps. now rewrite map_snd_scored.
Qed.

Lemma score_articles_by_relevance_sorted_witness :
  exists out h',
    score_articles_by_relevance 4%positive "metformin side effects elderly" sample_store
    = (Ok out, h')
    /\ Permutation (records_at h' out)
                   (List.map (with_score "metformin side effects elderly")
                      (records_at sample_store 4%positive))
    /\ StronglySorted (fun a b => (relevance_of b <= relevance_of a)%Q)
                      (records_at h' out)
    /\ (forall s : Q,
          List.filter (fun a => Qeq_bool (relevance_of a) s) (records_at h' out)
          = List.filter (fun a => Qeq_bool (relevance_of a) s)
              (List.map (with_score "metformin side effects elderly")
                 (records_at sample_store 4%positive))).
Proof.
  apply (score_articles_by_relevance_sorted sample_store 4%positive
           "metformin side effects elderly").
  vm_compute. reflexivity.
Defined.

(** On the sample the best match comes first and the three records of
    equal score follow in their input order. *)
Example score_articles_by_relevance_sample :
  let '(_, h') :=
    score_articles_by_relevance 4%positive "metformin side effects elderly" sample_store in
  List.map (fun d => d !! "pmid") (records_at h' 5%positive)
  = [Some (VStr "1"); Some (VStr "2"); Some (VStr "3"); Some (VStr "3")].
Proof. vm_compute. reflexivity. Qed.

Lemma with_score_other q d key :
  key <> "relevance_score" -> with_score q d !! key = d !! key.
Proof. intros H. unfold with_score. now rewrite lookup_insert_ne by congruence. Qed.

(** C10: a call changes nothing that was in the store: the input list
    and every input article read as before.  The returned list and its
    records are new objects, and each record is an input article with
    the [relevance_score] entry set and every other entry as it was. *)
Theorem score_articles_by_relevance_frame (h : store) (articles : loc) (query : string) :
  scorable_list h articles = true ->
  exists out h',
    score_articles_by_relevance articles query h = (Ok out, h')
    /\ (forall l, l ∈ dom h -> h' !! l = h !! l)
    /\ list_at h' articles = list_at h articles
    /\ records_at h' articles = records_at h articles
    /\ (out ∉ dom h)
    /\ Forall (fun c => c ∉ dom h) (list_at h' out)
    /\ NoDup (list_at h' out)
    /\ Permutation (records_at h' out)
                   (List.map (with_score query) (records_at h articles))
    /\ Forall (fun r => exists d,
                  In d (records_at h articles)
                  /\ r = <["relevance_score" := VFloat (score_for query d)]> d
                  /\ (forall key, key <> "relevance_score" -> r !! key = d !! key))
              (records_at h' out).
Proof.
  intros Hwf.
  destruct (score_articles_by_relevance_spec h articles query Hwf)
    as (out & h' & Erun & Hout & Hsame & _ & Hfresh & Hnd & Hrec).
  destruct (scorable_list_inv h articles Hwf) as (Hart & Hitems & _).
  assert (Hperm : Permutation (records_at h' out)
                    (List.map (with_score query) (records_at h articles))).
  { rewrite Hrec, stable_sort_desc_perm. now rewrite map_snd_scored. }
  assert (Hlist : list_at h' articles = list_at h articles).
  { unfold list_at at 1. rewrite Hsame by (apply elem_of_dom; eauto). now rewrite Hart. }
  exists out, h'. repeat split; try assumption.
  - unfold records_at. rewrite Hlist.
    apply List.map_ext_in. intros l Hl. unfold dict_at.
    rewrite Hsame; [reflexivity|].
    apply list_elem_of_In in Hl.
    destruct (proj1 (list_elem_of_lookup _ _) Hl) as [i Hi].
    destruct (Forall2_lookup_l _ _ _ _ _ Hitems Hi) as (d & _ & Hd).
    apply elem_of_dom. eauto.
  - eapply Forall_impl; [exact Hfresh|]. simpl. tauto.
  - eapply Permutation_Forall; [symmetry; exact Hperm|].
    apply List.Forall_forall. intros r Hr.
    apply List.in_map_iff in Hr as (d & <- & Hd).
    exists d. split; [exact Hd|]. split; [reflexivity|].
    intros key Hkey. now apply with_score_other.
Qed.

Lemma score_articles_by_relevance_frame_witness :
  exists out h',
    score_articles_by_relevance 4%positive "metformin side effects elderly" sample_store
    = (Ok out, h')
    /\ (forall l, l ∈ dom sample_store -> h' !! l = sample_store !! l)
    /\ list_at h' 4%positive = list_at sample_store 4%positive
    /\ records_at h' 4%positive = records_at sample_store 4%positive
    /\ (out ∉ dom sample_store)
    /\ Forall (fun c => c ∉ dom sample_store) (list_at h' out)
    /\ NoDup (list_at h' out)
    /\ Permutation (records_at h' out)
                   (List.map (with_score "metformin side effects elderly")
                      (records_at sample_store 4%positive))
    /\ Forall (fun r => exists d,
                  In d (records_at sample_store 4%positive)
                  /\ r = <["relevance_score" :=
                             VFloat (score_for "metformin side effects elderly" d)]> d
                  /\ (forall key, key <> "relevance_score" -> r !! key = d !! key))
              (records_at h' out).
Proof.
  apply (score_articles_by_relevance_frame sample_store 4%positive
           "metformin side effects elderly").
  vm_compute. reflexivity.
Defined.

(** ** Scoring a list with an ill-typed article *)

Lemma sublist_List_filter {A} (f : A -> bool) (xs : list A) :
  List.filter f xs `sublist_of` xs.
Proof.
  induction xs as [|x xs IH]; cbn [List.filter]; [constructor|].
  destruct (f x); now constructor.
Qed.

Lemma Forall_sublist_of {A} (P : A -> Prop) (l1 l2 : list A) :
  l1 `sublist_of` l2 -> Forall P l2 -> Forall P l1.
Proof.
  intros Hsub H. apply List.Forall_forall. intros y Hy.
  rewrite List.Forall_forall in H. apply H.
  apply list_elem_of_In. eapply elem_of_sublist; [|exact Hsub]. now apply list_elem_of_In.
Qed.

Lemma forallb_false_Exists {A} (f : A -> bool) (xs : list A) :
  forallb f xs = false -> Exists (fun x => f x = false) xs.
Proof.
  induction xs as [|x xs IH]; [discriminate|]. cbn [forallb]. intros E.
  apply andb_false_iff in E as [E|E]; [now left|right; auto].
Qed.

(** A field is ill-typed when it is there and is not text: it is
    [None] or a float. *)
Lemma text_or_absent_false (d : dict) (key : string) :
  text_or_absent d key = false
  <-> exists v, d !! key = Some v /\ (v = VNone \/ exists x, v = VFloat x).
Proof.
  unfold text_or_absent. destruct (d !! key) as [[s| |x]|]; cbn [is_text]; split.
  - discriminate.
  - intros (v & [= <-] & [E|[x E]]); discriminate.
  - intros _. exists VNone. auto.
  - reflexivity.
  - intros _. exists (VFloat x). eauto.
  - reflexivity.
  - discriminate.
  - intros (v & E & _). discriminate.
Qed.

Lemma unscorable_cases (d : dict) : scorable d = false <-> ill_typed d.
Proof.
  unfold scorable, ill_typed. rewrite andb_false_iff, !text_or_absent_false. split.
  - intros [(v & E & Hv)|(v & E & Hv)]; [exists "title", v|exists "abstract", v]; auto.
  - intros (key & v & [->| ->] & E & Hv); [left|right]; eauto.
Qed.

Lemma calculate_relevance_score_unscorable article qw mt fq :
  scorable article = false <->
  calculate_relevance_score article qw mt fq = Raise AttributeError.
Proof.
  unfold calculate_relevance_score, get_lower, scorable, text_or_absent.
  destruct (article !! "title") as [[t| |x]|]; cbn [rbind andb is_text];
    destruct (article !! "abstract") as [[a| |y]|]; cbn [rbind andb is_text];
    split; intros H; try reflexivity; discriminate.
Qed.

Lemma scorable_with_score q d : scorable (with_score q d) = scorable d.
Proof.
  unfold scorable, text_or_absent, with_score.
  now rewrite !lookup_insert_ne by discriminate.
Qed.

Lemma score_one_unscorable q sa l d (h : store) :
  h !! l = Some (ODict d) -> scorable d = false ->
  score_one q sa l h = (Raise AttributeError, h).
Proof.
  intros Hl Hd. unfold score_one, bind, read_dict, lift. rewrite Hl.
  apply (calculate_relevance_score_unscorable d (list_to_set (split (lower q)))
           (extract_medical_terms (lower q)) (lower q)) in Hd.
  now rewrite Hd.
Qed.

Lemma scoring_loop_fails q sa : forall items ds (h : store) acc,
  h !! sa = Some (OList acc) ->
  Forall2 (fun l d => h !! l = Some (ODict d)) items ds ->
  Exists (fun d => scorable d = false) ds ->
  exists h',
    for_each items (score_one q sa) h = (Raise AttributeError, h')
    /\ (forall l, l ∈ dom h -> l <> sa -> h' !! l = h !! l).
Proof.
  induction items as [|l items IH]; intros ds h acc Hsa Hitems Hex.
  - apply Forall2_nil_inv_l in Hitems as ->. now apply Exists_nil in Hex.
  - apply Forall2_cons_inv_l in Hitems as (d & ds' & Hl & Hrest & ->).
    destruct (scorable d) eqn:Hd.
    + apply Exists_cons in Hex as [Hex|Hex]; [congruence|].
      set (c := fresh (dom h)).
      set (h1 := <[sa := OList (acc ++ [c])]> (<[c := ODict (with_score q d)]> h)).
      assert (Hkeep : forall x o, h !! x = Some o -> x <> sa -> h1 !! x = Some o).
      { intros x o Hx Hne. unfold h1.
        rewrite lookup_insert_ne by congruence.
        rewrite lookup_insert_ne; [exact Hx|].
        symmetry. eapply lookup_ne_fresh; eauto. }
      destruct (IH ds' h1 (acc ++ [c])%list) as (h' & Erun & Hsame).
      * unfold h1. now rewrite lookup_insert_eq.
      * eapply Forall2_impl; [exact Hrest|]. simpl. intros x dx Hx.
        apply Hkeep; [exact Hx|]. intros ->. congruence.
      * exact Hex.
      * exists h'. split.
        -- cbn [for_each]. unfold bind at 1.
           rewrite (score_one_spec q sa l d h acc Hsa Hl Hd). exact Erun.
        -- intros x Hx Hne.
           assert (Hx1 : x ∈ dom h1).
           { unfold h1. rewrite !dom_insert. set_solver. }
           rewrite (Hsame x Hx1 Hne).
           apply elem_of_dom in Hx as [o Ho]. rewrite Ho. now apply Hkeep.
    + exists h. split; [|auto].
      cbn [for_each]. unfold bind at 1.
      now rewrite (score_one_unscorable q sa l d h Hl Hd).
Qed.

(** The call raises out of its loop, before it sorts; what it has
    built by then is not reachable from the objects of the caller. *)
Lemma score_articles_by_relevance_raises (h : store) (articles : loc) (query : string) :
  is_list h articles = true ->
  forallb (is_dict h) (list_at h articles) = true ->
  forallb scorable (records_at h articles) = false ->
  exists h',
    score_articles_by_relevance articles query h = (Raise AttributeError, h')
    /\ (forall l, l ∈ dom h -> h' !! l = h !! l).
Proof.
  intros Hlist Hdicts Hbad.
  assert (Hat : h !! articles = Some (OList (list_at h articles))).
  { unfold is_list in Hlist. unfold list_at.
    destruct (h !! articles) as [[d|items]|]; try discriminate. reflexivity. }
  assert (Hitems : Forall2 (fun l d => h !! l = Some (ODict d))
                     (list_at h articles) (records_at h articles)).
  { unfold records_at. apply Forall2_fmap_r, Forall_Forall2_diag.
    apply List.Forall_forall. intros l Hin.
    rewrite forallb_forall in Hdicts. specialize (Hdicts l Hin).
    unfold compose, is_dict, dict_at in *.
    destruct (h !! l) as [[?|?]|]; congruence. }
  assert (Hex : Exists (fun d => scorable d = false) (records_at h articles)).
  { now apply forallb_false_Exists. }
  set (sa := fresh (dom h)). set (h0 := <[sa := OList []]> h).
  assert (Hsa : sa ∉ dom h) by apply is_fresh.
  assert (Hkeep : forall x o, h !! x = Some o -> h0 !! x = Some o).
  { intros x o Hx. unfold h0. rewrite lookup_insert_ne; [exact Hx|].
    symmetry. eapply lookup_ne_fresh; eauto. }
  destruct (scoring_loop_fails query sa (list_at h articles) (records_at h articles) h0 [])
    as (h' & Erun & Hsame).
  - unfold h0. now rewrite lookup_insert_eq.
  - eapply Forall2_impl; [exact Hitems|]. simpl. intros x d Hx. now apply Hkeep.
  - exact Hex.
  - exists h'. split.
    + rewrite score_articles_by_relevance_unfold.
      unfold bind at 1. unfold alloc. fold sa. fold h0.
      unfold bind at 1. unfold read_list. rewrite (Hkeep _ _ Hat).
      unfold bind at 1. now rewrite Erun.
    + intros l Hl.
      assert (Hne : l <> sa) by (intros ->; contradiction).
      rewrite Hsame; [|unfold h0; rewrite dom_insert; set_solver|exact Hne].
      unfold h0. now rewrite lookup_insert_ne by congruence.
Qed.

(** ** The article fetcher *)

Section FetcherProofs.
Variable pubmed : string -> Z -> string -> list dict.

Lemma alloc_dicts ds : forall (h : store),
  exists items h',
    map_M (fun d => alloc (ODict d)) ds h = (Ok items, h')
    /\ Forall2 (fun c d => h' !! c = Some (ODict d)) items ds
    /\ (forall x o, h !! x = Some o -> h' !! x = Some o).
Proof.
  induction ds as [|d ds IH]; intros h.
  - exists [], h. split; [reflexivity|]. split; [constructor|auto].
  - set (c := fresh (dom h)). set (h1 := <[c := ODict d]> h).
    destruct (IH h1) as (items & h' & E & Hitems & Hkeep).
    exists (c :: items), h'. split; [|split].
    + cbn [map_M]. unfold bind at 1, alloc at 1. fold c. fold h1.
      unfold bind at 1. rewrite E. reflexivity.
    + constructor; [|exact Hitems].
      apply Hkeep. unfold h1. now rewrite lookup_insert_eq.
    + intros x o Hx. apply Hkeep. unfold h1.
      rewrite lookup_insert_ne; [exact Hx|].
      symmetry. eapply lookup_ne_fresh; eauto.
Qed.

Lemma search_pubmed_articles_spec query n sort_by (h : store) :
  exists l items h',
    search_pubmed_articles pubmed query n sort_by h = (Ok l, h')
    /\ h' !! l = Some (OList items)
    /\ h !! l = None
    /\ Forall2 (fun c d => h' !! c = Some (ODict d)) items (pubmed query n sort_by)
    /\ (forall x o, h !! x = Some o -> h' !! x = Some o).
Proof.
  destruct (alloc_dicts (pubmed query n sort_by) h) as (items & h1 & E & Hitems & Hkeep).
  set (l := fresh (dom h1)).
  assert (Hl : h1 !! l = None) by apply fresh_lookup.
  exists l, items, (<[l := OList items]> h1). split; [|split; [|split; [|split]]].
  - unfold search_pubmed_articles, bind. rewrite E. reflexivity.
  - now rewrite lookup_insert_eq.
  - destruct (h !! l) as [o|] eqn:Ho; [|reflexivity].
    apply Hkeep in Ho. congruence.
  - eapply Forall2_impl; [exact Hitems|]. simpl. intros c d Hc.
    rewrite lookup_insert_ne; [exact Hc|]. intros <-. congruence.
  - intros x o Hx. apply Hkeep in Hx.
    rewrite lookup_insert_ne; [exact Hx|]. intros <-. congruence.
Qed.

Lemma pmid_of_has d : has_pmid d = true -> d !! "pmid" = Some (pmid_of d).
Proof.
  unfold has_pmid, pmid_of. destruct (d !! "pmid"); [reflexivity|discriminate].
Qed.

Lemma read_pmids (h : store) items ds :
  Forall2 (fun c d => h !! c = Some (ODict d)) items ds ->
  Forall (fun d => has_pmid d = true) ds ->
  map_M (fun a => dict_getitem a "pmid") items h = (Ok (List.map pmid_of ds), h).
Proof.
  induction 1 as [|c d items ds Hc _ IH]; intros Hp; [reflexivity|].
  apply Forall_cons in Hp as [Hd Hp].
  cbn [map_M List.map]. unfold bind at 1, dict_getitem at 1.
  rewrite Hc, (pmid_of_has d Hd). unfold bind at 1. rewrite (IH Hp). reflexivity.
Qed.

Lemma filter_new (h : store) existing items ds :
  Forall2 (fun c d => h !! c = Some (ODict d)) items ds ->
  Forall (fun d => has_pmid d = true) ds ->
  exists new_items,
    filter_M (pmid_is_new existing) items h = (Ok new_items, h)
    /\ Forall2 (fun c d => h !! c = Some (ODict d)) new_items
         (List.filter (fun d => negb (existsb (value_eqb (pmid_of d)) existing)) ds).
Proof.
  induction 1 as [|c d items ds Hc _ IH]; intros Hp.
  - exists []. split; [reflexivity|constructor].
  - apply Forall_cons in Hp as [Hd Hp].
    destruct (IH Hp) as (new_items & E & Hnew).
    exists (if negb (existsb (value_eqb (pmid_of d)) existing)
            then c :: new_items else new_items).
    split.
    + cbn [filter_M]. unfold bind at 1, pmid_is_new at 1, bind at 1, dict_getitem.
      rewrite Hc, (pmid_of_has d Hd). unfold ret at 1.
      unfold bind at 1. rewrite E. reflexivity.
    + cbn [List.filter].
      destruct (negb (existsb (value_eqb (pmid_of d)) existing)); [constructor|]; auto.
Qed.

Lemma dicts_not_list (h : store) (l : loc) xs items ds :
  h !! l = Some (OList xs) ->
  Forall2 (fun c d => h !! c = Some (ODict d)) items ds ->
  Forall (fun c => c <> l) items.
Proof.
  intros Hl H. induction H as [|c d items ds Hc _ IH]; constructor; [|exact IH].
  intros ->. congruence.
Qed.

Lemma records_kept (h h' : store) items (ds : list dict) :
  (forall x o, h !! x = Some o -> h' !! x = Some o) ->
  Forall2 (fun c d => h !! c = Some (ODict d)) items ds ->
  Forall2 (fun c d => h' !! c = Some (ODict d)) items ds.
Proof. intros Hkeep H. eapply Forall2_impl; [exact H|]. simpl. auto. Qed.

Lemma collect_articles_spec (h : store) (all : loc) (cq : string) (n : Z) :
  h !! all = Some (OList []) ->
  Forall (fun d => has_pmid d = true) (pubmed cq n "relevance") ->
  Forall (fun d => has_pmid d = true)
    (pubmed cq (n - Z.of_nat (List.length (pubmed cq n "relevance"))) "pub_date") ->
  exists items h',
    collect_articles pubmed all cq n h = (Ok tt, h')
    /\ h' !! all = Some (OList items)
    /\ Forall2 (fun c d => h' !! c = Some (ODict d)) items
         (merged_records (pubmed cq n "relevance")
            (pubmed cq (n - Z.of_nat (List.length (pubmed cq n "relevance"))) "pub_date") n)
    /\ (forall x o, h !! x = Some o -> x <> all -> h' !! x = Some o).
Proof.
  set (primary := pubmed cq n "relevance").
  set (recent := pubmed cq (n - Z.of_nat (List.length primary)) "pub_date").
  intros Hall Hprimary Hrecent.
  destruct (search_pubmed_articles_spec cq n "relevance" h)
    as (l1 & items1 & h1 & E1 & Hl1 & _ & Hitems1 & Hkeep1).
  fold primary in Hitems1.
  pose proof (Hkeep1 _ _ Hall) as Hall1.
  pose proof (dicts_not_list h1 all [] items1 primary Hall1 Hitems1) as Hne1.
  set (h2 := <[all := OList items1]> h1).
  assert (Hall2 : h2 !! all = Some (OList items1)).
  { unfold h2. now rewrite lookup_insert_eq. }
  assert (Hkeep2 : forall x o, h !! x = Some o -> x <> all -> h2 !! x = Some o).
  { intros x o Hx Hne. unfold h2. rewrite lookup_insert_ne by congruence. auto. }
  assert (Hitems2 : Forall2 (fun c d => h2 !! c = Some (ODict d)) items1 primary).
  { unfold h2. now apply (records_insert_other h1 all _ (fun d => d)). }
  assert (Hextend : (match items1 with
                     | [] => ret tt
                     | _ => list_extend all items1
                     end) h1 = (Ok tt, h2)).
  { destruct items1 as [|c items1].
    - unfold ret, h2. now rewrite insert_id.
    - unfold list_extend. rewrite Hall1. reflexivity. }
  pose proof (Forall2_length _ _ _ Hitems1) as Hlen.
  unfold collect_articles.
  unfold bind at 1. rewrite E1.
  unfold bind at 1, read_list at 1. rewrite Hl1.
  unfold bind at 1. rewrite Hextend.
  unfold bind at 1, read_list at 1. rewrite Hall2.
  rewrite Hlen. unfold merged_records. fold primary.
  destruct (Z.of_nat (List.length primary) <? n)%Z.
  - rewrite <- Hlen.
    destruct (search_pubmed_articles_spec cq (n - Z.of_nat (List.length items1)) "pub_date" h2)
      as (l2 & items2 & h3 & E2 & Hl2 & _ & Hitems3 & Hkeep3).
    rewrite Hlen in Hitems3, E2 |- *. fold recent in Hitems3.
    pose proof (Hkeep3 _ _ Hall2) as Hall3.
    pose proof (records_kept h2 h3 _ _ Hkeep3 Hitems2) as Hprim3.
    unfold bind at 1. rewrite E2.
    unfold bind at 1, read_list at 1. rewrite Hl2.
    destruct items2 as [|c2 items2].
    + apply Forall2_nil_inv_l in Hitems3. rewrite Hitems3.
      exists items1, h3. split; [reflexivity|]. split; [exact Hall3|].
      split; [|now auto].
      unfold new_records. cbn [List.filter]. now rewrite app_nil_r.
    + destruct (filter_new h3 (List.map pmid_of primary) _ _ Hitems3 Hrecent)
        as (new_items & Efilter & Hnew).
      fold (new_records primary recent) in Hnew.
      exists (items1 ++ new_items)%list, (<[all := OList (items1 ++ new_items)]> h3).
      split; [|split; [|split]].
      * unfold bind at 1. rewrite (read_pmids h3 items1 primary Hprim3 Hprimary).
        unfold bind at 1. rewrite Efilter.
        unfold list_extend. rewrite Hall3. reflexivity.
      * now rewrite lookup_insert_eq.
      * apply (records_insert_other h3 all _ (fun d => d)).
        -- apply Forall_app. split; eapply dicts_not_list; eauto.
        -- now apply Forall2_app.
      * intros x o Hx Hne. rewrite lookup_insert_ne by congruence. auto.
  - exists items1, h2. split; [reflexivity|]. split; [exact Hall2|].
    split; [exact Hitems2 | exact Hkeep2].
Qed.

(** Python's [==] on the values of a record is symmetric. *)
Lemma Qeq_bool_sym (a b : Q) : Qeq_bool a b = Qeq_bool b a.
Proof.
  destruct (Qeq_bool a b) eqn:E1, (Qeq_bool b a) eqn:E2; try reflexivity.
  - apply Qeq_bool_iff in E1. symmetry in E1. apply Qeq_bool_iff in E1. congruence.
  - apply Qeq_bool_iff in E2. symmetry in E2. apply Qeq_bool_iff in E2. congruence.
Qed.

Lemma value_eqb_sym (v w : value) : value_eqb v w = value_eqb w v.
Proof.
  destruct v, w; cbn [value_eqb]; try reflexivity;
    [apply String.eqb_sym | apply Qeq_bool_sym].
Qed.

Lemma pmid_of_with_score q d : pmid_of (with_score q d) = pmid_of d.
Proof. unfold pmid_of, with_score. now rewrite lookup_insert_ne by discriminate. Qed.

(** A recency record whose pmid was collected before is not new. *)
Lemma new_records_fresh collected recent d c :
  In d (new_records collected recent) -> In c collected ->
  value_eqb (pmid_of d) (pmid_of c) = false.
Proof.
  intros Hd Hc. unfold new_records in Hd. apply List.filter_In in Hd as [_ Hnew].
  apply negb_true_iff in Hnew.
  destruct (value_eqb (pmid_of d) (pmid_of c)) eqn:E; [|reflexivity].
  assert (H : existsb (value_eqb (pmid_of d)) (List.map pmid_of collected) = true);
    [|congruence].
  apply List.existsb_exists. exists (pmid_of c). split; [now apply List.in_map|exact E].
Qed.

Lemma distinct_pmids_app l1 l2 :
  distinct_pmids l1 = true -> distinct_pmids l2 = true ->
  (forall d c, In d l1 -> In c l2 -> value_eqb (pmid_of d) (pmid_of c) = false) ->
  distinct_pmids (l1 ++ l2) = true.
Proof.
  induction l1 as [|d l1 IH]; intros H1 H2 Hx; [exact H2|].
  cbn [app distinct_pmids] in *. apply andb_true_iff in H1 as [Hd H1].
  apply andb_true_iff. split.
  - apply negb_true_iff. apply negb_true_iff in Hd.
    rewrite List.existsb_app, Hd. cbn [orb].
    destruct (existsb (fun d' => value_eqb (pmid_of d) (pmid_of d')) l2) eqn:E;
      [|reflexivity].
    apply List.existsb_exists in E as (c & Hc & Ec).
    rewrite (Hx d c (or_introl eq_refl) Hc) in Ec. discriminate.
  - apply IH; auto. intros d' c Hd' Hc. apply Hx; [now right|exact Hc].
Qed.

Lemma distinct_pmids_sublist l1 l2 :
  l1 `sublist_of` l2 -> distinct_pmids l2 = true -> distinct_pmids l1 = true.
Proof.
  induction 1 as [|x l1 l2 H IH|x l1 l2 H IH]; [reflexivity| |];
    cbn [distinct_pmids]; intros Hd; apply andb_true_iff in Hd as [Hx Hd]; [|auto].
  apply andb_true_iff. split; [|auto].
  apply negb_true_iff. apply negb_true_iff in Hx.
  destruct (existsb (fun d' => value_eqb (pmid_of x) (pmid_of d')) l1) eqn:E;
    [|reflexivity].
  apply List.existsb_exists in E as (c & Hc & Ec).
  assert (E2 : existsb (fun d' => value_eqb (pmid_of x) (pmid_of d')) l2 = true);
    [|congruence].
  apply List.existsb_exists. exists c. split; [|exact Ec].
  apply list_elem_of_In. eapply elem_of_sublist; [|exact H]. now apply list_elem_of_In.
Qed.

Lemma existsb_Permutation {A} (f : A -> bool) (l l' : list A) :
  Permutation l l' -> existsb f l = existsb f l'.
Proof.
  induction 1 as [|x l l' _ IH|x y l|l l' l'' _ IH1 _ IH2]; cbn [existsb].
  - reflexivity.
  - now rewrite IH.
  - destruct (f x), (f y); reflexivity.
  - congruence.
Qed.

Lemma distinct_pmids_Permutation l l' :
  Permutation l l' -> distinct_pmids l = distinct_pmids l'.
Proof.
  induction 1 as [|x l l' H IH|x y l|l l' l'' _ IH1 _ IH2]; cbn [distinct_pmids existsb].
  - reflexivity.
  - now rewrite IH, (existsb_Permutation _ _ _ H).
  - rewrite (value_eqb_sym (pmid_of y) (pmid_of x)).
    destruct (value_eqb (pmid_of x) (pmid_of y));
      destruct (existsb (fun d' => value_eqb (pmid_of x) (pmid_of d')) l);
      destruct (existsb (fun d' => value_eqb (pmid_of y) (pmid_of d')) l);
      destruct (distinct_pmids l); reflexivity.
  - congruence.
Qed.

Lemma distinct_pmids_map (f : dict -> dict) l :
  (forall d, pmid_of (f d) = pmid_of d) ->
  distinct_pmids (List.map f l) = distinct_pmids l.
Proof.
  intros Hf. induction l as [|d l IH]; [reflexivity|].
  cbn [List.map distinct_pmids]. rewrite IH, Hf. f_equal. f_equal.
  clear IH. induction l as [|d' l IH]; [reflexivity|].
  cbn [List.map existsb]. now rewrite IH, Hf.
Qed.

Lemma merged_records_distinct primary recent n :
  distinct_pmids primary = true -> distinct_pmids recent = true ->
  distinct_pmids (merged_records primary recent n) = true.
Proof.
  intros Hp Hr. unfold merged_records.
  destruct (Z.of_nat (List.length primary) <? n)%Z; [|exact Hp].
  apply distinct_pmids_app; [exact Hp| |].
  - eapply distinct_pmids_sublist; [|exact Hr]. apply sublist_List_filter.
  - intros d c Hd Hc. rewrite value_eqb_sym.
    now apply (new_records_fresh primary recent).
Qed.

Lemma merged_records_Forall (P : dict -> Prop) primary recent n :
  Forall P primary -> Forall P recent -> Forall P (merged_records primary recent n).
Proof.
  intros Hp Hr. unfold merged_records.
  destruct (Z.of_nat (List.length primary) <? n)%Z; [|exact Hp].
  apply Forall_app. split; [exact Hp|].
  eapply Forall_sublist_of; [apply sublist_List_filter|exact Hr].
Qed.

Lemma records_at_of (h : store) (l : loc) items (ds : list dict) :
  h !! l = Some (OList items) ->
  Forall2 (fun c d => h !! c = Some (ODict d)) items ds ->
  list_at h l = items /\ records_at h l = ds
  /\ forallb (is_dict h) items = true.
Proof.
  intros Hl H. unfold records_at, list_at. rewrite Hl.
  split; [reflexivity|]. clear Hl.
  induction H as [|c d items' ds' Hc _ IH]; [now split|].
  destruct IH as [IH1 IH2]. cbn [List.map forallb]. split.
  - rewrite IH1. unfold dict_at. now rewrite Hc.
  - rewrite IH2. unfold is_dict. now rewrite Hc.
Qed.

Lemma records_at_kept (h h' : store) (l : loc) items (ds : list dict) :
  (forall x o, h !! x = Some o -> h' !! x = Some o) ->
  h !! l = Some (OList items) ->
  Forall2 (fun c d => h !! c = Some (ODict d)) items ds ->
  records_at h' l = ds.
Proof.
  intros Hkeep Hl Hitems.
  destruct (records_at_of h' l items ds) as (_ & H & _); [now apply Hkeep| |exact H].
  now apply (records_kept h h').
Qed.

Lemma py_slice_to_map {A B} (f : A -> B) (xs : list A) (n : Z) :
  List.map f (py_slice_to xs n) = py_slice_to (List.map f xs) n.
Proof.
  unfold py_slice_to. rewrite List.length_map.
  destruct (n <? 0)%Z; now rewrite List.firstn_map.
Qed.

Lemma py_slice_to_sublist {A} (xs : list A) (n : Z) : py_slice_to xs n `sublist_of` xs.
Proof. unfold py_slice_to. destruct (n <? 0)%Z; apply sublist_take. Qed.

Lemma top_records_nil q n : top_records q [] n = [].
Proof.
  unfold top_records. cbn [List.map stable_sort_desc fold_right].
  unfold py_slice_to. destruct (n <? 0)%Z; apply List.firstn_nil.
Qed.

Lemma top_records_In q merged n r :
  In r (top_records q merged n) -> exists d, In d merged /\ r = with_score q d.
Proof.
  unfold top_records. intros Hr.
  assert (Hin : In r (List.map snd (stable_sort_desc
                   (List.map (fun d => (score_for q d, with_score q d)) merged)))).
  { apply list_elem_of_In. eapply elem_of_sublist; [|apply py_slice_to_sublist].
    apply list_elem_of_In. exact Hr. }
  apply List.in_map_iff in Hin as (p & <- & Hp).
  eapply Permutation_in in Hp; [|apply stable_sort_desc_perm].
  apply List.in_map_iff in Hp as (d & <- & Hd). eauto.
Qed.

Lemma top_records_distinct q merged n :
  distinct_pmids merged = true -> distinct_pmids (top_records q merged n) = true.
Proof.
  intros H. unfold top_records.
  eapply distinct_pmids_sublist; [apply py_slice_to_sublist|].
  rewrite (distinct_pmids_Permutation _ (List.map (with_score q) merged)).
  - rewrite distinct_pmids_map; [exact H|apply pmid_of_with_score].
  - rewrite stable_sort_desc_perm. now rewrite map_snd_scored.
Qed.

(** The report on a selected record that the scorer has scored: it
    needs the title. *)
Lemma report_line_scored (h : store) (c : loc) (d : dict) :
  h !! c = Some (ODict d) ->
  scorable d = true ->
  (exists x, d !! "relevance_score" = Some (VFloat x)) ->
  report_line c h = (if has_title d then Ok tt else Raise (KeyError "title"), h).
Proof.
  intros Hc Hs [x Hx]. unfold report_line, bind, dict_getitem. rewrite Hc.
  unfold has_title. apply andb_true_iff in Hs as [Ht _]. unfold text_or_absent in Ht.
  destruct (d !! "title") as [[t| |y]|]; try discriminate; [|reflexivity].
  cbn [is_text]. unfold read_dict. rewrite Hc, Hx. reflexivity.
Qed.

Lemma report_lines (h : store) items ds :
  Forall2 (fun c d => h !! c = Some (ODict d)) items ds ->
  Forall (fun d => scorable d = true
                   /\ exists x, d !! "relevance_score" = Some (VFloat x)) ds ->
  for_each items report_line h
  = (if forallb has_title ds then Ok tt else Raise (KeyError "title"), h).
Proof.
  induction 1 as [|c d items ds Hc _ IH]; intros Hds; [reflexivity|].
  apply Forall_cons in Hds as [[Hs Hx] Hds].
  cbn [for_each forallb]. unfold bind at 1. rewrite (report_line_scored h c d Hc Hs Hx).
  destruct (has_title d); cbn [andb]; [now apply IH|reflexivity].
Qed.

(** A call of [get_pubmed_articles] on articles that carry a pmid.  The
    list of the merged articles is the first object it makes.  It
    returns the selected records when the scorer can read every merged
    article and every selected one has a title; it raises
    [AttributeError] out of the scorer, or [KeyError] out of the report,
    otherwise.  The objects of the caller are left as they were. *)
Lemma get_pubmed_articles_run (h : store) (query : string) (max_results : Z) :
  let cleaned_query := clean_medical_query query in
  let initial_fetch := Z.min (max_results * 3) 15 in
  let primary := pubmed cleaned_query initial_fetch "relevance" in
  let recent :=
    pubmed cleaned_query (initial_fetch - Z.of_nat (List.length primary)) "pub_date" in
  let merged := merged_records primary recent initial_fetch in
  Forall (fun d => has_pmid d = true) primary ->
  Forall (fun d => has_pmid d = true) recent ->
  exists r h',
    get_pubmed_articles pubmed query max_results h = (r, h')
    /\ (forall x o, h !! x = Some o -> h' !! x = Some o)
    /\ records_at h' (fresh (dom h)) = merged
    /\ match r with
       | Ok out =>
           h !! out = None
           /\ h' !! out = Some (OList (list_at h' out))
           /\ records_at h' out = top_records query merged max_results
           /\ forallb scorable merged = true
           /\ forallb has_title (top_records query merged max_results) = true
       | Raise e =>
           (e = AttributeError /\ forallb scorable merged = false)
           \/ (e = KeyError "title"
               /\ forallb scorable merged = true
               /\ forallb has_title (top_records query merged max_results) = false)
       end.
Proof.
  intros cleaned_query initial_fetch primary recent merged Hp Hr.
  set (all := fresh (dom h)). set (h0 := <[all := OList []]> h).
  assert (Hall0 : h !! all = None) by apply fresh_lookup.
  assert (Hkeep0 : forall x o, h !! x = Some o -> h0 !! x = Some o /\ x <> all).
  { intros x o Hx. assert (x <> all) by (intros ->; congruence).
    split; [|assumption]. unfold h0. now rewrite lookup_insert_ne by congruence. }
  destruct (collect_articles_spec h0 all cleaned_query initial_fetch)
    as (items & h1 & Ecollect & Hall1 & Hitems & Hkeep1).
  { unfold h0. now rewrite lookup_insert_eq. }
  { exact Hp. }
  { exact Hr. }
  fold primary in Hitems. fold recent in Hitems. fold merged in Hitems.
  destruct (records_at_of h1 all items merged Hall1 Hitems) as (Hlist1 & Hrec1 & Hdicts1).
  assert (Hkeep01 : forall x o, h !! x = Some o -> h1 !! x = Some o).
  { intros x o Hx. destruct (Hkeep0 x o Hx) as [Hx0 Hne]. now apply Hkeep1. }
  unfold get_pubmed_articles. fold cleaned_query. fold initial_fetch.
  unfold bind at 1, alloc at 1. fold all. fold h0.
  unfold bind at 1. rewrite Ecollect.
  unfold bind at 1, read_list at 1. rewrite Hall1.
  destruct items as [|c items].
  - (* no article was found *)
    apply Forall2_nil_inv_l in Hitems.
    set (out := fresh (dom h1)).
    assert (Hout : h1 !! out = None) by apply fresh_lookup.
    assert (Hkeep : forall x o, h1 !! x = Some o -> <[out := OList []]> h1 !! x = Some o).
    { intros x o Hx. rewrite lookup_insert_ne; [exact Hx|]. intros <-. congruence. }
    exists (Ok out), (<[out := OList []]> h1).
    split; [reflexivity|]. split; [now auto|]. split.
    + rewrite Hitems. apply (records_at_kept h1 _ all [] []); [exact Hkeep|exact Hall1|constructor].
    + rewrite Hitems, top_records_nil.
      split; [|split; [|split; [|split; reflexivity]]].
      * destruct (h !! out) as [o|] eqn:E; [|reflexivity].
        apply Hkeep01 in E. congruence.
      * unfold list_at. now rewrite !lookup_insert_eq.
      * unfold records_at, list_at. now rewrite lookup_insert_eq.
  - destruct (forallb scorable merged) eqn:Hsc.
    + (* every merged article is scored *)
      assert (Hwf : scorable_list h1 all = true).
      { unfold scorable_list. rewrite Hlist1, Hdicts1, Hrec1.
        unfold is_list. rewrite Hall1. exact Hsc. }
      destruct (score_articles_by_relevance_spec h1 all query Hwf)
        as (out2 & h2 & Erun & _ & Hframe2 & Hout2 & Hfresh & _ & Hrec2).
      rewrite Hrec1 in Hrec2.
      set (tops := py_slice_to (list_at h2 out2) max_results).
      set (out3 := fresh (dom h2)). set (h3 := <[out3 := OList tops]> h2).
      assert (Hkeep2 : forall x o, h1 !! x = Some o -> h2 !! x = Some o).
      { intros x o Hx. rewrite Hframe2; [exact Hx|]. apply elem_of_dom. eauto. }
      assert (Hkeep3 : forall x o, h2 !! x = Some o -> h3 !! x = Some o).
      { intros x o Hx. unfold h3. rewrite lookup_insert_ne; [exact Hx|].
        symmetry. eapply lookup_ne_fresh; eauto. }
      assert (Htops : Forall2 (fun c d => h3 !! c = Some (ODict d)) tops
                        (top_records query merged max_results)).
      { unfold top_records. rewrite <- Hrec2. unfold records_at.
        rewrite <- py_slice_to_map. fold tops.
        apply Forall2_fmap_r, Forall_Forall2_diag. apply List.Forall_forall. intros x Hx.
        assert (Hin : In x (list_at h2 out2)).
        { apply list_elem_of_In. eapply elem_of_sublist; [|apply py_slice_to_sublist].
          apply list_elem_of_In. exact Hx. }
        rewrite List.Forall_forall in Hfresh.
        destruct (Hfresh x Hin) as (_ & _ & Hd).
        apply Hkeep3. unfold compose, is_dict, dict_at in *.
        destruct (h2 !! x) as [[?|?]|]; congruence. }
      assert (Hscored : Forall (fun d => scorable d = true
                                         /\ exists x, d !! "relevance_score" = Some (VFloat x))
                          (top_records query merged max_results)).
      { apply List.Forall_forall. intros r Hr'.
        apply top_records_In in Hr' as (d & Hd & ->).
        rewrite scorable_with_score. split.
        - rewrite forallb_forall in Hsc. now apply Hsc.
        - eexists. unfold with_score. apply lookup_insert_eq. }
      pose proof (report_lines h3 tops _ Htops Hscored) as Ereport.
      assert (Hrec3 : records_at h3 out3 = top_records query merged max_results).
      { destruct (records_at_of h3 out3 tops _ ltac:(unfold h3; apply lookup_insert_eq) Htops)
          as (_ & H & _). exact H. }
      exists (if forallb has_title (top_records query merged max_results)
              then Ok out3 else Raise (KeyError "title")), h3.
      split; [|split; [|split]].
      * unfold bind at 1. rewrite Erun.
        unfold bind at 1, read_list at 1. rewrite Hout2.
        unfold bind at 1, alloc at 1. fold tops. fold out3. fold h3.
        unfold bind at 1, read_list at 1. unfold h3 at 1. rewrite lookup_insert_eq. fold h3.
        unfold bind at 1. rewrite Ereport.
        now destruct (forallb has_title (top_records query merged max_results)).
      * intros x o Hx. auto.
      * apply (records_at_kept h1 h3 all (c :: items) merged); auto.
      * destruct (forallb has_title (top_records query merged max_results)) eqn:Ht.
        -- split; [|split; [|split; [exact Hrec3|split; reflexivity]]].
           ++ destruct (h !! out3) as [o|] eqn:E; [|reflexivity].
              apply Hkeep01, Hkeep2 in E. unfold out3 in E. now rewrite fresh_lookup in E.
           ++ unfold list_at, h3. now rewrite !lookup_insert_eq.
        -- right. auto.
    + (* the scorer raises *)
      destruct (score_articles_by_relevance_raises h1 all query) as (h2 & Erun & Hframe2).
      { unfold is_list. now rewrite Hall1. }
      { now rewrite Hlist1. }
      { now rewrite Hrec1. }
      assert (Hkeep2 : forall x o, h1 !! x = Some o -> h2 !! x = Some o).
      { intros x o Hx. rewrite Hframe2; [exact Hx|]. apply elem_of_dom. eauto. }
      exists (Raise AttributeError), h2.
      split; [|split; [|split]].
      * unfold bind at 1. now rewrite Erun.
      * auto.
      * apply (records_at_kept h1 h2 all (c :: items) merged); auto.
      * left. auto.
Qed.

(** C5: the two result lists are merged without repeating an article.
    Every recency article whose pmid equals the pmid of a collected
    article is dropped before appending.  So, for result lists that
    each name an article once, as the answers of the service do, the
    merged list holds each pmid at most once, whatever their overlap,
    and so does the list that is returned. *)
Theorem get_pubmed_articles_distinct_pmids
    (h : store) (query : string) (max_results : Z) :
  let cleaned_query := clean_medical_query query in
  let initial_fetch := Z.min (max_results * 3) 15 in
  let primary := pubmed cleaned_query initial_fetch "relevance" in
  let recent :=
    pubmed cleaned_query (initial_fetch - Z.of_nat (List.length primary)) "pub_date" in
  let merged := merged_records primary recent initial_fetch in
  let all_articles := fresh (dom h) in
  Forall (fun d => has_pmid d = true) primary ->
  Forall (fun d => has_pmid d = true) recent ->
  distinct_pmids primary = true ->
  distinct_pmids recent = true ->
  exists r h',
    get_pubmed_articles pubmed query max_results h = (r, h')
    /\ records_at h' all_articles = merged
    /\ distinct_pmids merged = true
    /\ (forall d c, In d (new_records primary recent) -> In c primary ->
          value_eqb (pmid_of d) (pmid_of c) = false)
    /\ (forall out, r = Ok out -> distinct_pmids (records_at h' out) = true)
    /\ (Forall (fun d => retrievable d = true) merged -> exists out, r = Ok out).
Proof.
  intros cleaned_query initial_fetch primary recent merged all_articles Hp Hr Hdp Hdr.
  destruct (get_pubmed_articles_run h query max_results Hp Hr) as (r & h' & E & _ & Hall & Hout).
  fold cleaned_query initial_fetch primary recent merged in Hall, Hout.
  pose proof (merged_records_distinct primary recent initial_fetch Hdp Hdr) as Hmerged.
  fold merged in Hmerged.
  exists r, h'. split; [exact E|]. split; [exact Hall|]. split; [exact Hmerged|].
  split; [intros d c; apply new_records_fresh|]. split.
  - intros out ->. destruct Hout as (_ & _ & -> & _). now apply top_records_distinct.
  - intros Hret. destruct r as [out|e]; [eauto|exfalso].
    destruct Hout as [[_ Hbad]|(_ & _ & Hbad)].
    + apply forallb_false_Exists, List.Exists_exists in Hbad as (d & Hd & Hs).
      rewrite List.Forall_forall in Hret. specialize (Hret d Hd).
      unfold retrievable in Hret. rewrite Hs, andb_false_r in Hret. discriminate.
    + apply forallb_false_Exists, List.Exists_exists in Hbad as (t & Ht & Hs).
      apply top_records_In in Ht as (d & Hd & ->).
      rewrite List.Forall_forall in Hret. specialize (Hret d Hd).
      unfold retrievable in Hret. apply andb_true_iff in Hret as [_ Htitle].
      unfold has_title, with_score in Hs, Htitle.
      rewrite lookup_insert_ne in Hs by discriminate. congruence.
Qed.
End FetcherProofs.

Lemma get_pubmed_articles_distinct_pmids_witness :
  exists r h',
    get_pubmed_articles sample_pubmed "metformin side effects elderly" 5 ∅ = (r, h')
    /\ records_at h' (fresh (dom (∅ : store)))
       = merged_records [sample_metformin; sample_insulin] [sample_insulin; sample_renal] 15
    /\ distinct_pmids
         (merged_records [sample_metformin; sample_insulin] [sample_insulin; sample_renal] 15)
       = true
    /\ (forall d c,
          In d (new_records [sample_metformin; sample_insulin] [sample_insulin; sample_renal]) ->
          In c [sample_metformin; sample_insulin] ->
          value_eqb (pmid_of d) (pmid_of c) = false)
    /\ (forall out, r = Ok out -> distinct_pmids (records_at h' out) = true)
    /\ (Forall (fun d => retrievable d = true)
          (merged_records [sample_metformin; sample_insulin]
             [sample_insulin; sample_renal] 15)
        -> exists out, r = Ok out).
Proof.
  refine (get_pubmed_articles_distinct_pmids sample_pubmed ∅
            "metformin side effects elderly" 5 _ _ _ _).
  - repeat constructor.
  - repeat constructor.
  - reflexivity.
  - reflexivity.
Defined.

(** On the sample answers the shared article is fetched once. *)
Example get_pubmed_articles_sample :
  let '(_, h') :=
    get_pubmed_articles sample_pubmed "metformin side effects elderly" 5 ∅ in
  pmids (records_at h' 1%positive)
  = [Some (VStr "1"); Some (VStr "2"); Some (VStr "3")]
  /\ pmids (records_at h' 12%positive)
     = [Some (VStr "1"); Some (VStr "2"); Some (VStr "3")].
Proof. vm_compute. split; reflexivity. Qed.

(** An article without a title is scored like one with an empty
    title, and then stops the report. *)
Example get_pubmed_articles_no_title :
  fst (get_pubmed_articles
         (fun _ _ _ => [ {[ "pmid" := VStr "7"; "abstract" := VStr "Insulin dosing." ]} ])
         "insulin" 5 ∅)
  = Raise (KeyError "title").
Proof. vm_compute. reflexivity. Qed.

(** A repetition inside the result of one search is no overlap of the
    two searches, and the merge does not look for it: a pmid that the
    recency search lists twice is appended twice. *)
Example get_pubmed_articles_repetition :
  distinct_pmids [sample_insulin; sample_renal; sample_renal] = false
  /\ exists out h',
       get_pubmed_articles repeating_pubmed "metformin side effects elderly" 5 ∅
       = (Ok out, h')
       /\ pmids (records_at h' out)
          = [Some (VStr "2"); Some (VStr "3"); Some (VStr "3")].
Proof.
  split; [reflexivity|].
  eexists. eexists. split; vm_compute; reflexivity.
Qed.

(** ** The HTTP client *)

Lemma try_request_cases {J} (o : get_outcome J) (attempt max_retries : Z) (return_json : bool) :
  try_request o attempt max_retries return_json
  = if rate_limited o return_json
    then (if (attempt <? max_retries - 1)%Z then Continue else Return None)
    else Return (answer o return_json).
Proof.
  unfold try_request, rate_limited, answer, on_request_exception.
  destruct o as [r|msg].
  - destruct (status_code r =? 429)%Z; [reflexivity|]. cbn [orb].
    destruct (raise_for_status J r) as [msg|].
    + reflexivity.
    + destruct return_json; [|reflexivity]. cbn [andb].
      destruct (json_body r) as [j|msg|msg]; reflexivity.
  - reflexivity.
Qed.

Lemma retry_loop_requests {J} (server : nat -> get_outcome J) attempts max_retries return_json :
  (count_requests (snd (retry_loop server attempts max_retries return_json))
   <= List.length attempts)%nat.
Proof.
  induction attempts as [|attempt rest IH]; [unfold count_requests; simpl; lia|].
  cbn [retry_loop].
  destruct (try_request _ _ _ _).
  - destruct (retry_loop server rest max_retries return_json) as [x events].
    cbn [snd] in *. unfold count_requests in *.
    rewrite List.filter_app, List.length_app. cbn [List.filter List.length].
    destruct (0 <? attempt)%Z; simpl; lia.
  - cbn [snd]. unfold count_requests.
    rewrite List.filter_app, List.length_app.
    destruct (0 <? attempt)%Z; simpl; lia.
Qed.

(** C8, as the code has it: only rate limiting is retried.  With 3
    attempts allowed, the call stops at the first attempt that is not
    rate limited and returns its answer ([None] for any error); there
    is no wait before the first attempt, 2 seconds before the second
    and 4 before the third; after a third rate-limited attempt it
    returns [None].  Whatever the bound, no more requests are made than
    [max_retries]. *)
Theorem make_request_with_retry_policy {J} (server : nat -> get_outcome J) (return_json : bool) :
  make_request_with_retry server 3 return_json
  = (if negb (rate_limited (server 0%nat) return_json)
     then (answer (server 0%nat) return_json, [Requested])
     else if negb (rate_limited (server 1%nat) return_json)
     then (answer (server 1%nat) return_json, [Requested; Slept 2; Requested])
     else (if rate_limited (server 2%nat) return_json
           then None else answer (server 2%nat) return_json,
           [Requested; Slept 2; Requested; Slept 4; Requested]))
  /\ (forall max_retries,
        (count_requests (snd (make_request_with_retry server max_retries return_json))
         <= Z.to_nat max_retries)%nat).
Proof.
  split.
  - unfold make_request_with_retry.
    change (range 3) with [0%Z; 1%Z; 2%Z].
    cbn [retry_loop]. rewrite !try_request_cases.
    change (Z.to_nat 0) with 0%nat. change (Z.to_nat 1) with 1%nat.
    change (Z.to_nat 2) with 2%nat.
    destruct (rate_limited (server 0%nat) return_json); [|reflexivity].
    destruct (rate_limited (server 1%nat) return_json); [|reflexivity].
    destruct (rate_limited (server 2%nat) return_json); reflexivity.
  - intros max_retries. unfold make_request_with_retry.
    etransitivity; [apply retry_loop_requests|].
    unfold range. now rewrite List.length_map, List.length_seq.
Qed.

(** Against a service that always answers 429 the three attempts and
    the two waits are made. *)
Example make_request_with_retry_throttled :
  make_request_with_retry throttling_server 3 true
  = (None, [Requested; Slept 2; Requested; Slept 4; Requested]).
Proof. reflexivity. Qed.

(** C8, as stated, fails: a network error that is not a rate limit ends
    the call after a single attempt. *)
Lemma make_request_with_retry_counterexample :
  (forall n, failed (unreachable_server n) = true)
  /\ make_request_with_retry unreachable_server 3 true = (None, [Requested])
  /\ ~ retry_policy_as_specified unreachable_server true.
Proof.
  split; [reflexivity|]. split; [reflexivity|].
  intros H. specialize (H (fun _ => eq_refl)). discriminate H.
Qed.

(** ** Semantic search *)

Lemma sentinel_passes_guard {A} (metadatas : list A) :
  (-1 <? Z.of_nat (List.length metadatas))%Z = true.
Proof. apply Z.ltb_lt. lia. Qed.

Lemma py_index_last {A} (xs : list A) (x : A) : py_index (xs ++ [x]) (-1) = Ok x.
Proof.
  unfold py_index. rewrite List.length_app. cbn [List.length].
  change (-1 <? 0)%Z with true. cbv iota.
  replace (Z.of_nat (List.length xs + 1) + -1)%Z with (Z.of_nat (List.length xs)) by lia.
  replace ((0 <=? Z.of_nat (List.length xs)) && (Z.of_nat (List.length xs) <? Z.of_nat (List.length xs + 1)))%Z
    with true.
  2:{ symmetry. apply andb_true_iff. split; [apply Z.leb_le | apply Z.ltb_lt]; lia. }
  rewrite Nat2Z.id, List.nth_error_app2 by lia.
  now rewrite Nat.sub_diag.
Qed.

(** Every neighbour reported with the index -1 yields a result, built
    from the last document. *)
Lemma sentinel_builds_result (arith : format) (i : Z) (distance : float) rest
    (metadatas : list dict) (m : dict) (texts : list string) (t : string) :
  collect_results arith i ((distance, (-1)%Z) :: rest) (metadatas ++ [m]) (texts ++ [t])
  = rbind (collect_results arith (i + 1) rest (metadatas ++ [m]) (texts ++ [t]))
      (fun results =>
         Ok ({| rank := i + 1; similarity_score := similarity arith distance;
                text := t; metadata := m |} :: results)).
Proof.
  cbn [collect_results]. rewrite sentinel_passes_guard, !py_index_last. reflexivity.
Qed.

(** C1 fails on the code: for an index over one document and k = 3 the
    two neighbours reported with the index -1 pass the guard
    [idx < len(metadatas)] and come back as results 2 and 3, built from
    [texts[-1]] and [metadatas[-1]]. *)
Theorem search_similar_documents_keeps_sentinel (arith : format) :
  List.map (fun r => (rank r, text r, metadata r))
    (search_similar_documents arith (Some one_document_index)
       [sample_metformin] ["Metformin in the elderly. Metformin side effects are mild."]
       "metformin" 3)
  = [ (1%Z, "Metformin in the elderly. Metformin side effects are mild.", sample_metformin);
      (2%Z, "Metformin in the elderly. Metformin side effects are mild.", sample_metformin);
      (3%Z, "Metformin in the elderly. Metformin side effects are mild.", sample_metformin) ]
  /\ List.map similarity_score
       (search_similar_documents arith (Some one_document_index)
          [sample_metformin] ["Metformin in the elderly. Metformin side effects are mild."]
          "metformin" 3)
     = [similarity arith fl_zero; similarity arith f32_max; similarity arith f32_max].
Proof.
  split; reflexivity.
Qed.

(** ** Rounding to nearest in a binary format *)

Ltac qcompute := vm_compute; first [reflexivity | discriminate | intro; discriminate].

Lemma Qcompare_Lt p q : (p < q)%Q -> (p ?= q)%Q = Lt.
Proof. apply Qlt_alt. Qed.

Lemma Qcompare_Gt p q : (q < p)%Q -> (p ?= q)%Q = Gt.
Proof. apply Qgt_alt. Qed.

Lemma Qcompare_Eq p q : (p == q)%Q -> (p ?= q)%Q = Eq.
Proof. apply Qeq_alt. Qed.

Lemma Qcompare_cases p q :
  ((p ?= q)%Q = Lt /\ (p < q)%Q) \/ ((p ?= q)%Q = Eq /\ (p == q)%Q)
  \/ ((p ?= q)%Q = Gt /\ (q < p)%Q).
Proof.
  destruct (p ?= q)%Q eqn:C.
  - right. left. split; [reflexivity|]. now apply Qeq_alt.
  - left. split; [reflexivity|]. now apply Qlt_alt.
  - right. right. split; [reflexivity|]. now apply Qgt_alt.
Qed.

Lemma pow2_pos e : (0 < pow2 e)%Q.
Proof. apply Qpower_0_lt. reflexivity. Qed.

Lemma pow2_add a b : (pow2 (a + b) == pow2 a * pow2 b)%Q.
Proof. apply Qpower_plus. discriminate. Qed.

Lemma pow2_0 : (pow2 0 == 1)%Q.
Proof. reflexivity. Qed.

Lemma pow2_1 : (pow2 1 == 2)%Q.
Proof. reflexivity. Qed.

Lemma pow2_succ a : (pow2 (a + 1) == 2 * pow2 a)%Q.
Proof. rewrite pow2_add, pow2_1. ring. Qed.

Lemma pow2_le a b : (a <= b)%Z -> (pow2 a <= pow2 b)%Q.
Proof. intros H. apply Qpower_le_compat_l; [exact H | discriminate]. Qed.

Lemma pow2_lt a b : (a < b)%Z -> (pow2 a < pow2 b)%Q.
Proof. intros H. apply Qpower_lt_compat_l; [exact H | reflexivity]. Qed.

Lemma pow2_lt_inv a b : (pow2 a < pow2 b)%Q -> (a < b)%Z.
Proof. intros H. eapply Qpower_lt_compat_l_inv; [exact H | reflexivity]. Qed.

Lemma pow2_Z n : (0 <= n)%Z -> (pow2 n == inject_Z (2 ^ n))%Q.
Proof. intros H. unfold pow2. now rewrite Zpower_Qpower. Qed.

Lemma pow2_sub a b : (pow2 (a - b) == pow2 a / pow2 b)%Q.
Proof.
  assert (H : (pow2 a == pow2 (a - b) * pow2 b)%Q).
  { rewrite <- pow2_add. now replace (a - b + b)%Z with a by lia. }
  rewrite H. field. pose proof (pow2_pos b). lra.
Qed.

Lemma pow2_split a b : (pow2 a == pow2 (a - b) * pow2 b)%Q.
Proof. rewrite <- pow2_add. now replace (a - b + b)%Z with a by lia. Qed.

Lemma rne_floor q : (Qfloor q <= rne q <= Qfloor q + 1)%Z.
Proof.
  unfold rne. cbv zeta.
  destruct (Qcompare (q - inject_Z (Qfloor q)) (1 # 2));
    [destruct (Z.even (Qfloor q))|..]; lia.
Qed.

Lemma rne_Z n : rne (inject_Z n) = n.
Proof.
  unfold rne. rewrite Qfloor_Z.
  assert (E : (inject_Z n - inject_Z n ?= 1 # 2)%Q = Lt).
  { apply Qcompare_Lt. lra. }
  now rewrite E.
Qed.

Lemma Qfloor_bounds q : (inject_Z (Qfloor q) <= q < inject_Z (Qfloor q) + 1)%Q.
Proof.
  split; [apply Qfloor_le|].
  pose proof (Qlt_floor q) as H. rewrite inject_Z_plus in H.
  change (inject_Z 1) with 1%Q in H. exact H.
Qed.

Lemma Qfloor_unique q n : (inject_Z n <= q < inject_Z n + 1)%Q -> Qfloor q = n.
Proof.
  intros [H1 H2]. pose proof (Qfloor_bounds q) as [H3 H4].
  assert (A : (inject_Z n < inject_Z (Qfloor q + 1))%Q).
  { rewrite inject_Z_plus. change (inject_Z 1) with 1%Q. lra. }
  assert (B : (inject_Z (Qfloor q) < inject_Z (n + 1))%Q).
  { rewrite inject_Z_plus. change (inject_Z 1) with 1%Q. lra. }
  rewrite <- Zlt_Qlt in A, B. lia.
Qed.

Lemma rne_ge_Z q n : (inject_Z n <= q)%Q -> (n <= rne q)%Z.
Proof.
  intros H. pose proof (rne_floor q).
  assert (n <= Qfloor q)%Z; [|lia].
  rewrite <- (Qfloor_Z n). now apply Qfloor_resp_le.
Qed.

Lemma rne_le_Z q n : (q <= inject_Z n)%Q -> (rne q <= n)%Z.
Proof.
  intros H. pose proof (Qfloor_bounds q) as [H1 H2].
  destruct (Z.eq_dec (Qfloor q) n) as [E|E].
  - assert (Hq : (q == inject_Z n)%Q) by (rewrite E in H1; lra).
    unfold rne. rewrite E.
    assert (C : (q - inject_Z n ?= 1 # 2)%Q = Lt) by (apply Qcompare_Lt; lra).
    rewrite C. lia.
  - pose proof (rne_floor q).
    assert (Qfloor q <= n)%Z.
    { rewrite <- (Qfloor_Z n). now apply Qfloor_resp_le. }
    lia.
Qed.

Lemma rne_mono q1 q2 : (q1 <= q2)%Q -> (rne q1 <= rne q2)%Z.
Proof.
  intros H. pose proof (Qfloor_resp_le _ _ H) as Hf.
  pose proof (rne_floor q1). pose proof (rne_floor q2).
  destruct (Z.eq_dec (Qfloor q1) (Qfloor q2)) as [E|E]; [|lia].
  unfold rne. rewrite <- E.
  destruct (Qcompare_cases (q1 - inject_Z (Qfloor q1)) (1 # 2)) as [[C1 D1]|[[C1 D1]|[C1 D1]]];
  destruct (Qcompare_cases (q2 - inject_Z (Qfloor q1)) (1 # 2)) as [[C2 D2]|[[C2 D2]|[C2 D2]]];
    rewrite C1, C2; try (destruct (Z.even (Qfloor q1))); try lia; lra.
Qed.

Lemma rne_compat q1 q2 : (q1 == q2)%Q -> rne q1 = rne q2.
Proof.
  intros H. apply Z.le_antisymm; apply rne_mono; lra.
Qed.

Lemma rne_small q : (0 <= q)%Q -> (q < 1 # 2)%Q -> rne q = 0%Z.
Proof.
  intros H0 H1.
  assert (F : Qfloor q = 0%Z).
  { apply Qfloor_unique. change (inject_Z 0) with 0%Q. lra. }
  unfold rne. rewrite F. change (inject_Z 0) with 0%Q.
  assert (C : (q - 0 ?= 1 # 2)%Q = Lt) by (apply Qcompare_Lt; lra).
  now rewrite C.
Qed.

Lemma inbetween_range l d : inbetween l d -> (0 <= d)%Q /\ (d < 1)%Q.
Proof.
  destruct l as [|[]]; simpl; intros H; [| |destruct H|destruct H]; split; lra.
Qed.

Lemma inject_Z_xO p : (inject_Z (Zpos p~0) == 2 * inject_Z (Zpos p))%Q.
Proof. rewrite Pos2Z.inj_xO, inject_Z_mult. reflexivity. Qed.

Lemma inject_Z_xI p : (inject_Z (Zpos p~1) == 2 * inject_Z (Zpos p) + 1)%Q.
Proof. rewrite Pos2Z.inj_xI, inject_Z_plus, inject_Z_mult. reflexivity. Qed.

Lemma shr_1_stands_for mrs e x :
  stands_for mrs e x -> stands_for (shr_1 mrs) (e + 1) x.
Proof.
  intros (d & Hd & Hm & Hx). destruct mrs as [m r s]. cbn [shr_m] in *.
  pose proof (pow2_succ e) as He. pose proof (pow2_pos e) as Hp.
  unfold stands_for.
  destruct m as [|p|p]; [| |lia].
  - exists (d * (1 # 2))%Q. change (inject_Z 0) with 0%Q in Hx.
    destruct r, s; cbn [loc_of_shr_record inbetween] in Hd;
      lazymatch type of Hd with (_ /\ _) => destruct Hd as [Hd Hd'] | _ => idtac end;
      cbn [shr_1 orb loc_of_shr_record inbetween shr_m];
      (split; [first [lra | split; lra]|split; [lia|]]);
      rewrite Hx, He; change (inject_Z 0) with 0%Q; ring.
  - destruct p as [p|p|].
    + exists ((1 + d) * (1 # 2))%Q. rewrite inject_Z_xI in Hx.
      destruct r, s; cbn [loc_of_shr_record inbetween] in Hd;
        lazymatch type of Hd with (_ /\ _) => destruct Hd as [Hd Hd'] | _ => idtac end;
        cbn [shr_1 orb loc_of_shr_record inbetween shr_m];
        (split; [first [lra | split; lra]|split; [lia|]]);
        rewrite Hx, He; ring.
    + exists (d * (1 # 2))%Q. rewrite inject_Z_xO in Hx.
      destruct r, s; cbn [loc_of_shr_record inbetween] in Hd;
        lazymatch type of Hd with (_ /\ _) => destruct Hd as [Hd Hd'] | _ => idtac end;
        cbn [shr_1 orb loc_of_shr_record inbetween shr_m];
        (split; [first [lra | split; lra]|split; [lia|]]);
        rewrite Hx, He; ring.
    + exists ((1 + d) * (1 # 2))%Q. change (inject_Z 1) with 1%Q in Hx.
      destruct r, s; cbn [loc_of_shr_record inbetween] in Hd;
        lazymatch type of Hd with (_ /\ _) => destruct Hd as [Hd Hd'] | _ => idtac end;
        cbn [shr_1 orb loc_of_shr_record inbetween shr_m];
        (split; [first [lra | split; lra]|split; [lia|]]);
        rewrite Hx, He; change (inject_Z 0) with 0%Q; ring.
Qed.

Lemma iter_pos_stands_for p : forall mrs e x,
  stands_for mrs e x -> stands_for (SpecFloat.iter_pos shr_1 p mrs) (e + Zpos p) x.
Proof.
  induction p as [p IH|p IH|]; intros mrs e x H; cbn [SpecFloat.iter_pos].
  - replace (e + Zpos p~1)%Z with (e + 1 + Zpos p + Zpos p)%Z by lia.
    apply IH, IH. now apply shr_1_stands_for.
  - replace (e + Zpos p~0)%Z with (e + Zpos p + Zpos p)%Z by lia.
    apply IH, IH. exact H.
  - now apply shr_1_stands_for.
Qed.

Lemma loc_of_record_of_loc m l :
  loc_of_shr_record (shr_record_of_loc m l) = l /\ shr_m (shr_record_of_loc m l) = m.
Proof. destruct l as [|[]]; split; reflexivity. Qed.

Lemma rne_inbetween m l d :
  inbetween l d -> rne (inject_Z m + d) = round_nearest_even m l.
Proof.
  intros H. pose proof (inbetween_range l d H) as [H0 H1].
  assert (F : Qfloor (inject_Z m + d) = m) by (apply Qfloor_unique; lra).
  unfold rne. rewrite F.
  destruct l as [|[]]; simpl in H |- *.
  - rewrite Qcompare_Lt by lra. reflexivity.
  - rewrite Qcompare_Eq by lra. reflexivity.
  - rewrite Qcompare_Lt by lra. reflexivity.
  - rewrite Qcompare_Gt by lra. reflexivity.
Qed.

Lemma stands_for_rne mrs e x :
  stands_for mrs e x ->
  rne (x / pow2 e) = round_nearest_even (shr_m mrs) (loc_of_shr_record mrs)
  /\ (0 <= shr_m mrs)%Z.
Proof.
  intros (d & Hd & Hm & Hx). split; [|exact Hm].
  rewrite <- (rne_inbetween _ _ d Hd). apply rne_compat.
  rewrite Hx. field. pose proof (pow2_pos e). lra.
Qed.

Lemma shr_stands_for mrs e n x :
  stands_for mrs e x -> (0 <= n)%Z ->
  snd (shr mrs e n) = (e + n)%Z /\ stands_for (fst (shr mrs e n)) (e + n) x.
Proof.
  intros H Hn. destruct n as [|p|p]; [| |lia]; cbn [shr fst snd].
  - rewrite Z.add_0_r. now split.
  - split; [reflexivity|]. now apply iter_pos_stands_for.
Qed.

Lemma digits2_pos_bounds p :
  (2 ^ (Zpos (digits2_pos p) - 1) <= Zpos p < 2 ^ Zpos (digits2_pos p))%Z.
Proof.
  induction p as [p IH|p IH|]; cbn [digits2_pos].
  - rewrite Pos2Z.inj_succ.
    replace (Z.succ (Zpos (digits2_pos p)) - 1)%Z with (Z.succ (Zpos (digits2_pos p) - 1)) by lia.
    rewrite !Z.pow_succ_r by lia. lia.
  - rewrite Pos2Z.inj_succ.
    replace (Z.succ (Zpos (digits2_pos p)) - 1)%Z with (Z.succ (Zpos (digits2_pos p) - 1)) by lia.
    rewrite !Z.pow_succ_r by lia. lia.
  - simpl. lia.
Qed.

Lemma Zdigits2_bounds m :
  (0 < m)%Z -> (2 ^ (Zdigits2 m - 1) <= m < 2 ^ Zdigits2 m)%Z /\ (0 < Zdigits2 m)%Z.
Proof.
  destruct m as [|p|p]; try lia. intros _. cbn [Zdigits2].
  split; [apply digits2_pos_bounds | lia].
Qed.

Lemma Zdigits2_le m n : (0 < m)%Z -> (0 <= n)%Z -> (m < 2 ^ n)%Z -> (Zdigits2 m <= n)%Z.
Proof.
  intros Hm Hn H. destruct (Zdigits2_bounds m Hm) as [[Hl _] Hd].
  destruct (Z.le_gt_cases (Zdigits2 m) n) as [|C]; [assumption|exfalso].
  assert (2 ^ n <= 2 ^ (Zdigits2 m - 1))%Z by (apply Z.pow_le_mono_r; lia). lia.
Qed.

Lemma Zdigits2_ge m n : (0 < m)%Z -> (0 <= n)%Z -> (2 ^ n <= m)%Z -> (n + 1 <= Zdigits2 m)%Z.
Proof.
  intros Hm Hn H. destruct (Zdigits2_bounds m Hm) as [[_ Hu] Hd].
  destruct (Z.le_gt_cases (n + 1) (Zdigits2 m)) as [|C]; [assumption|exfalso].
  assert (2 ^ Zdigits2 m <= 2 ^ n)%Z by (apply Z.pow_le_mono_r; lia). lia.
Qed.

Lemma mag_ok_le k k' x y : mag_ok k x -> mag_ok k' y -> (x <= y)%Q -> (k <= k')%Z.
Proof.
  intros [Hx _] [_ Hy] H.
  assert (Hlt : (pow2 (k - 1) < pow2 k')%Q) by lra.
  apply pow2_lt_inv in Hlt. lia.
Qed.

Lemma mag_ok_stands m d e x :
  (0 < m)%Z -> (0 <= d)%Q -> (d < 1)%Q -> (x == (inject_Z m + d) * pow2 e)%Q ->
  mag_ok (Zdigits2 m + e) x.
Proof.
  intros Hm Hd0 Hd1 Hx. destruct (Zdigits2_bounds m Hm) as [[Hl Hu] Hd].
  pose proof (pow2_pos e) as Hp.
  assert (Hl' : (pow2 (Zdigits2 m - 1) <= inject_Z m)%Q).
  { rewrite pow2_Z by lia. now rewrite <- Zle_Qle. }
  assert (Hu' : (inject_Z m + 1 <= pow2 (Zdigits2 m))%Q).
  { rewrite pow2_Z by lia. change 1%Q with (inject_Z 1).
    rewrite <- inject_Z_plus, <- Zle_Qle. lia. }
  split; rewrite Hx.
  - replace (Zdigits2 m + e - 1)%Z with ((Zdigits2 m - 1) + e)%Z by lia.
    rewrite pow2_add. apply Qmult_le_compat_r; lra.
  - rewrite pow2_add. apply Qle_lt_trans with ((inject_Z m + d) * pow2 e)%Q; [lra|].
    apply Qlt_le_trans with ((inject_Z m + 1) * pow2 e)%Q.
    + apply Qmult_lt_compat_r; lra.
    + apply Qmult_le_compat_r; lra.
Qed.

Section FormatProofs.

(** A format with at least 3 bits of precision and an exponent bound
    above its precision. *)
Variables prec emax : Z.
Hypothesis Hprec : (3 <= prec)%Z.
Hypothesis Hemax : (prec < emax)%Z.

Abbreviation fexp := (SpecFloat.fexp prec emax).
Abbreviation emin := (SpecFloat.emin prec emax).
Abbreviation round_at := (Rounding.round_at prec emax).
Abbreviation rounds_to := (Rounding.rounds_to prec emax).
Abbreviation in_format := (Rounding.in_format prec emax).
Abbreviation nearest := (Rounding.nearest prec emax).

Lemma fexp_eq k : fexp k = Z.max (k - prec) emin.
Proof. reflexivity. Qed.

Lemma emin_eq : emin = (3 - emax - prec)%Z.
Proof. reflexivity. Qed.

Lemma scaled_lt k e x : (x < pow2 k)%Q -> (x / pow2 e < pow2 (k - e))%Q.
Proof.
  intros H. rewrite pow2_sub. pose proof (pow2_pos e).
  apply Qmult_lt_compat_r; [|exact H]. now apply Qinv_lt_0_compat.
Qed.

Lemma scaled_le k e x : (pow2 k <= x)%Q -> (pow2 (k - e) <= x / pow2 e)%Q.
Proof.
  intros H. rewrite pow2_sub. pose proof (pow2_pos e).
  apply Qmult_le_compat_r; [exact H|]. apply Qlt_le_weak. now apply Qinv_lt_0_compat.
Qed.

Lemma scaled_mono e x y : (x <= y)%Q -> (x / pow2 e <= y / pow2 e)%Q.
Proof.
  intros H. pose proof (pow2_pos e).
  apply Qmult_le_compat_r; [exact H|]. apply Qlt_le_weak. now apply Qinv_lt_0_compat.
Qed.

Lemma scaled_nonneg e x : (0 <= x)%Q -> (0 <= x / pow2 e)%Q.
Proof.
  intros H. pose proof (pow2_pos e). apply Qle_shift_div_l; lra.
Qed.

Lemma mag_ok_pos k x : mag_ok k x -> (0 < x)%Q.
Proof. intros [H _]. pose proof (pow2_pos (k - 1)). lra. Qed.

(** The mantissa that [x] rounds to lies between 0 and 2^prec. *)
Lemma mantissa_bounds k x :
  mag_ok k x ->
  let m1 := rne (x / pow2 (fexp k)) in
  (0 <= m1 <= 2 ^ prec)%Z
  /\ ((k < fexp k)%Z -> m1 = 0%Z)
  /\ ((fexp k <= k)%Z -> (m1 <= 2 ^ (k - fexp k))%Z)
  /\ ((emin < fexp k)%Z -> (2 ^ (prec - 1) <= m1)%Z).
Proof.
  intros Hk m1. pose proof (mag_ok_pos k x Hk) as Hx. destruct Hk as [Hl Hu].
  pose proof (scaled_lt k (fexp k) x Hu) as Hs.
  pose proof (scaled_nonneg (fexp k) x (Qlt_le_weak _ _ Hx)) as H0.
  assert (Hge : (0 <= m1)%Z) by (apply rne_ge_Z; exact H0).
  assert (Hsmall : (k < fexp k)%Z -> m1 = 0%Z).
  { intros C. apply rne_small; [exact H0|].
    apply Qlt_le_trans with (pow2 (k - fexp k)); [exact Hs|].
    change (1 # 2)%Q with (pow2 (-1)). apply pow2_le. lia. }
  assert (Hle : (fexp k <= k)%Z -> (m1 <= 2 ^ (k - fexp k))%Z).
  { intros C. apply rne_le_Z. rewrite <- pow2_Z by lia. lra. }
  split; [|split; [exact Hsmall|split; [exact Hle|]]].
  - split; [exact Hge|].
    destruct (Z.lt_ge_cases k (fexp k)) as [C|C].
    + rewrite (Hsmall C). apply Z.pow_nonneg. lia.
    + etransitivity; [apply (Hle C)|]. apply Z.pow_le_mono_r; [lia|].
      rewrite fexp_eq. lia.
  - intros C. assert (E : fexp k = (k - prec)%Z) by (rewrite fexp_eq in *; lia).
    apply rne_ge_Z. rewrite <- pow2_Z by lia.
    replace (prec - 1)%Z with ((k - 1) - fexp k)%Z by lia.
    now apply scaled_le.
Qed.

Lemma rounds_to_mono x y r r' :
  rounds_to x r -> rounds_to y r' -> (x <= y)%Q -> (r <= r')%Q.
Proof.
  intros (k & Hk & Hr) (k' & Hk' & Hr') Hxy. rewrite Hr, Hr'. unfold Rounding.round_at.
  pose proof (mag_ok_le k k' x y Hk Hk' Hxy) as Hkk.
  assert (He : (fexp k <= fexp k')%Z) by (rewrite !fexp_eq; lia).
  destruct (Z.eq_dec (fexp k) (fexp k')) as [E|E].
  - rewrite <- E. pose proof (pow2_pos (fexp k)).
    apply Qmult_le_compat_r; [|lra].
    rewrite <- Zle_Qle. apply rne_mono. now apply scaled_mono.
  - assert (E' : fexp k' = (k' - prec)%Z) by (rewrite !fexp_eq in *; lia).
    assert (Hemin : (emin < fexp k')%Z) by (rewrite !fexp_eq in *; lia).
    destruct (mantissa_bounds k' y Hk') as (_ & _ & _ & Hlow).
    specialize (Hlow Hemin).
    assert (Hr'low : (pow2 (k' - 1) <= inject_Z (rne (y / pow2 (fexp k'))) * pow2 (fexp k'))%Q).
    { rewrite (pow2_split (k' - 1) (fexp k')).
      replace (k' - 1 - fexp k')%Z with (prec - 1)%Z by lia.
      pose proof (pow2_pos (fexp k')).
      apply Qmult_le_compat_r; [|lra].
      rewrite (pow2_Z (prec - 1)) by lia. now rewrite <- Zle_Qle. }
    destruct (mantissa_bounds k x Hk) as (_ & Hsmall & Hle & _).
    destruct (Z.lt_ge_cases k (fexp k)) as [C|C].
    + rewrite (Hsmall C). change (inject_Z 0) with 0%Q.
      pose proof (pow2_pos (k' - 1)). lra.
    + specialize (Hle C).
      assert (Hrup : (inject_Z (rne (x / pow2 (fexp k))) * pow2 (fexp k) <= pow2 k)%Q).
      { rewrite (pow2_split k (fexp k)). pose proof (pow2_pos (fexp k)).
        apply Qmult_le_compat_r; [|lra].
        rewrite (pow2_Z (k - fexp k)) by lia. now rewrite <- Zle_Qle. }
      assert (Hkk' : (k <= k' - 1)%Z) by (rewrite !fexp_eq in *; lia).
      pose proof (pow2_le _ _ Hkk'). lra.
Qed.

Lemma rounds_to_compat x y r : (x == y)%Q -> rounds_to x r -> rounds_to y r.
Proof.
  intros E (k & [Hl Hu] & Hr). exists k. split.
  - split; rewrite <- E; assumption.
  - rewrite Hr. unfold Rounding.round_at.
    assert (E2 : (x / pow2 (fexp k) == y / pow2 (fexp k))%Q) by (now rewrite E).
    now rewrite (rne_compat _ _ E2).
Qed.


Lemma fexp_ge_emin k : (emin <= fexp k)%Z.
Proof. rewrite fexp_eq. lia. Qed.

Lemma shr_fexp_stands_for m e l d x :
  (0 <= m)%Z -> inbetween l d -> (x == (inject_Z m + d) * pow2 e)%Q ->
  (e <= fexp (Zdigits2 m + e))%Z ->
  snd (shr_fexp prec emax m e l) = fexp (Zdigits2 m + e)
  /\ stands_for (fst (shr_fexp prec emax m e l)) (fexp (Zdigits2 m + e)) x.
Proof.
  intros Hm Hd Hx He. unfold shr_fexp.
  assert (H : stands_for (shr_record_of_loc m l) e x).
  { exists d. destruct (loc_of_record_of_loc m l) as [-> ->]. auto. }
  destruct (shr_stands_for _ e (fexp (Zdigits2 m + e) - e) x H ltac:(lia)) as [E S].
  replace (e + (fexp (Zdigits2 m + e) - e))%Z with (fexp (Zdigits2 m + e)) in * by lia.
  now split.
Qed.

Lemma shr_no_shift mrs e n : (n <= 0)%Z -> shr mrs e n = (mrs, e).
Proof. destruct n; [reflexivity|lia|reflexivity]. Qed.

Lemma binary_round_aux_spec mx ex lx d x :
  (0 < mx)%Z -> inbetween lx d -> (x == (inject_Z mx + d) * pow2 ex)%Q ->
  (ex <= fexp (Zdigits2 mx + ex))%Z ->
  (round_at (Zdigits2 mx + ex) x < pow2 emax)%Q ->
  mag_ok (Zdigits2 mx + ex) x
  /\ ((rne (x / pow2 (fexp (Zdigits2 mx + ex))) = 0%Z
       /\ binary_round_aux prec emax false mx ex lx = S754_zero false)
      \/ exists m e,
           binary_round_aux prec emax false mx ex lx = S754_finite false m e
           /\ (inject_Z (Zpos m) * pow2 e == round_at (Zdigits2 mx + ex) x)%Q
           /\ (Zpos m < 2 ^ prec)%Z /\ (emin <= e <= emax - prec)%Z).
Proof.
  intros Hmx Hd Hx Hex Hno. unfold Rounding.round_at in *.
  set (k := (Zdigits2 mx + ex)%Z) in *. set (e := fexp k) in *.
  destruct (inbetween_range lx d Hd) as [Hd0 Hd1].
  assert (Hk : mag_ok k x) by (apply (mag_ok_stands mx d ex x); auto).
  split; [exact Hk|].
  destruct (shr_fexp_stands_for mx ex lx d x ltac:(lia) Hd Hx Hex) as [E1 S1].
  fold k in E1, S1. fold e in E1, S1.
  destruct (stands_for_rne _ _ _ S1) as [Hrne Hm'].
  destruct (mantissa_bounds k x Hk) as ([Hm0 Hm1] & _ & _ & Hlow).
  fold e in Hm0, Hm1, Hlow.
  set (m1 := rne (x / pow2 e)) in *.
  assert (Hemin : (emin <= e)%Z) by apply fexp_ge_emin.
  unfold binary_round_aux.
  destruct (shr_fexp prec emax mx ex lx) as [mrs' e'] eqn:E0.
  cbn [fst snd] in E1, S1, Hrne. subst e'. rewrite <- Hrne.
  unfold shr_fexp. cbn [shr_record_of_loc].
  clearbody m1.
  destruct (Z.eq_dec m1 0%Z) as [Z0|NZ].
  - left. split; [exact Z0|]. rewrite Z0. cbn [Zdigits2].
    rewrite shr_no_shift by (rewrite fexp_eq; lia). reflexivity.
  - right. destruct (Z.eq_dec m1 (2 ^ prec)%Z) as [C|C].
    + (* the rounding carried into a new digit *)
      assert (Hdg : Zdigits2 m1 = (prec + 1)%Z).
      { apply Z.le_antisymm.
        - apply Zdigits2_le; [lia|lia|]. rewrite C, Z.pow_add_r by lia. simpl. lia.
        - apply Zdigits2_ge; [lia|lia|]. rewrite C. lia. }
      assert (Hn2 : (fexp (Zdigits2 m1 + e) - e = 1)%Z).
      { rewrite Hdg, fexp_eq. lia. }
      rewrite Hn2. cbn [shr SpecFloat.iter_pos].
      assert (Hov : (e + 1 <= emax - prec)%Z).
      { assert (Hlt : (pow2 (prec + e) < pow2 emax)%Q).
        { rewrite pow2_add, (pow2_Z prec) by lia. now rewrite <- C. }
        apply pow2_lt_inv in Hlt. lia. }
      destruct m1 as [|p|p]; [lia| |lia].
      destruct p as [p|p|].
      * exfalso. assert (Hodd : Z.odd (2 ^ prec) = true) by (rewrite <- C; reflexivity).
        rewrite Z.odd_pow in Hodd by lia. discriminate.
      * cbn [shr_1 shr_m]. exists p, (e + 1)%Z.
        assert (Hp : Zpos p = (2 ^ (prec - 1))%Z).
        { replace prec with (Z.succ (prec - 1)) in C by lia.
          rewrite Z.pow_succ_r in C by lia. lia. }
        split; [|split; [|split]].
        -- destruct (e + 1 <=? emax - prec)%Z eqn:L; [reflexivity|].
           apply Z.leb_gt in L. lia.
        -- rewrite pow2_succ, inject_Z_xO. ring.
        -- rewrite Hp. apply Z.pow_lt_mono_r; lia.
        -- lia.
      * exfalso. assert (1 < 2 ^ prec)%Z by (apply Z.pow_gt_1; lia). lia.
    + assert (Hlt : (m1 < 2 ^ prec)%Z) by lia.
      assert (Hdg : (Zdigits2 m1 <= prec)%Z) by (apply Zdigits2_le; lia).
      rewrite shr_no_shift by (rewrite fexp_eq; lia). cbn [shr_m].
      assert (Hov : (e <= emax - prec)%Z).
      { destruct (Z.le_gt_cases e (emax - prec)) as [|G]; [assumption|exfalso].
        assert (Hl : (2 ^ (prec - 1) <= m1)%Z) by (apply Hlow; rewrite emin_eq in *; lia).
        assert (Hge : (pow2 emax <= inject_Z m1 * pow2 e)%Q).
        { apply Qle_trans with (pow2 (prec - 1) * pow2 e)%Q.
          - rewrite <- pow2_add. apply pow2_le. lia.
          - pose proof (pow2_pos e). apply Qmult_le_compat_r; [|lra].
            rewrite (pow2_Z (prec - 1)) by lia. now rewrite <- Zle_Qle. }
        lra. }
      destruct m1 as [|p|p]; [lia| |lia].
      exists p, e. split; [|split; [|split]].
      * destruct (e <=? emax - prec)%Z eqn:L; [reflexivity|].
        apply Z.leb_gt in L. lia.
      * reflexivity.
      * exact Hlt.
      * lia.
Qed.


Lemma mag_ok_unique k k' x : mag_ok k x -> mag_ok k' x -> k = k'.
Proof.
  intros H H'. apply Z.le_antisymm.
  - apply (mag_ok_le k k' x x H H'). lra.
  - apply (mag_ok_le k' k x x H' H). lra.
Qed.

Lemma mag_ok_float m e : mag_ok (Zdigits2 (Zpos m) + e) (inject_Z (Zpos m) * pow2 e).
Proof. apply (mag_ok_stands (Zpos m) 0 e); try lia; lra. Qed.

(** The outcome of [binary_round_aux], as a value. *)
Lemma binary_round_aux_value mx ex lx d x :
  (0 < mx)%Z -> inbetween lx d -> (x == (inject_Z mx + d) * pow2 ex)%Q ->
  (ex <= fexp (Zdigits2 mx + ex))%Z ->
  (forall r, rounds_to x r -> (r < pow2 emax)%Q) ->
  in_format (binary_round_aux prec emax false mx ex lx)
  /\ rounds_to x (F2Q (binary_round_aux prec emax false mx ex lx)).
Proof.
  intros Hmx Hd Hx Hex Hno.
  destruct (inbetween_range lx d Hd) as [Hd0 Hd1].
  pose proof (mag_ok_stands mx d ex x Hmx Hd0 Hd1 Hx) as Hk.
  assert (Hno' : (round_at (Zdigits2 mx + ex) x < pow2 emax)%Q).
  { apply Hno. exists (Zdigits2 mx + ex)%Z. split; [exact Hk|reflexivity]. }
  destruct (binary_round_aux_spec mx ex lx d x Hmx Hd Hx Hex Hno')
    as [_ [[Hz ->]|(m & e & -> & Hv & Hm & He)]].
  - split; [left; eauto|]. exists (Zdigits2 mx + ex)%Z. split; [exact Hk|].
    unfold Rounding.round_at. rewrite Hz. cbn [F2Q]. change (inject_Z 0) with 0%Q. ring.
  - split; [right; eauto|]. exists (Zdigits2 mx + ex)%Z. split; [exact Hk|].
    cbn [F2Q]. exact Hv.
Qed.

Lemma pos_iter_xO m d : Zpos (Pos.iter xO m d) = (Zpos m * 2 ^ Zpos d)%Z.
Proof.
  induction d as [|d IH] using Pos.peano_ind.
  - simpl. lia.
  - rewrite Pos.iter_succ, Pos2Z.inj_xO, IH, Pos2Z.inj_succ, Z.pow_succ_r by lia. lia.
Qed.

Lemma shl_align_spec mx ex ex' :
  (inject_Z (Zpos (fst (shl_align mx ex ex'))) * pow2 (snd (shl_align mx ex ex'))
   == inject_Z (Zpos mx) * pow2 ex)%Q
  /\ (snd (shl_align mx ex ex') <= ex')%Z
  /\ (snd (shl_align mx ex ex') <= ex)%Z
  /\ ((ex' <= ex)%Z -> snd (shl_align mx ex ex') = ex').
Proof.
  unfold shl_align. destruct (ex' - ex)%Z as [|p|p] eqn:E; cbn [fst snd].
  - split; [reflexivity|]. lia.
  - split; [reflexivity|]. lia.
  - split; [|lia]. rewrite pos_iter_xO, inject_Z_mult.
    rewrite <- pow2_Z by lia. rewrite <- Qmult_assoc, <- pow2_add.
    now replace (Zpos p + ex')%Z with ex by lia.
Qed.

(** [binary_round] rounds the value m * 2^e. *)
Lemma binary_round_value m e :
  (forall r, rounds_to (inject_Z (Zpos m) * pow2 e) r -> (r < pow2 emax)%Q) ->
  in_format (binary_round prec emax false m e)
  /\ rounds_to (inject_Z (Zpos m) * pow2 e) (F2Q (binary_round prec emax false m e)).
Proof.
  intros Hno. unfold binary_round.
  destruct (shl_align_spec m e (fexp (Zpos (digits2_pos m) + e))) as (Hv & Hle & _ & _).
  destruct (shl_align m e (fexp (Zpos (digits2_pos m) + e))) as [mz ez].
  cbn [fst snd] in Hv, Hle.
  assert (Hk : (Zdigits2 (Zpos mz) + ez = Zpos (digits2_pos m) + e)%Z).
  { apply (mag_ok_unique _ _ (inject_Z (Zpos m) * pow2 e)).
    - destruct (mag_ok_float mz ez) as [A B]. split; rewrite <- Hv; assumption.
    - apply (mag_ok_float m e). }
  apply (binary_round_aux_value (Zpos mz) ez loc_Exact 0).
  - lia.
  - reflexivity.
  - rewrite <- Hv. ring.
  - now rewrite Hk.
  - exact Hno.
Qed.


Lemma SFadd_value ma ea mb eb :
  (forall r, rounds_to (inject_Z (Zpos ma) * pow2 ea + inject_Z (Zpos mb) * pow2 eb) r ->
             (r < pow2 emax)%Q) ->
  in_format (SFadd prec emax (S754_finite false ma ea) (S754_finite false mb eb))
  /\ rounds_to (inject_Z (Zpos ma) * pow2 ea + inject_Z (Zpos mb) * pow2 eb)
       (F2Q (SFadd prec emax (S754_finite false ma ea) (S754_finite false mb eb))).
Proof.
  intros Hno. cbn [SFadd cond_Zopp].
  destruct (shl_align_spec ma ea (Z.min ea eb)) as (Va & _ & _ & Ea).
  destruct (shl_align_spec mb eb (Z.min ea eb)) as (Vb & _ & _ & Eb).
  rewrite Ea in Va by lia. rewrite Eb in Vb by lia.
  set (a := fst (shl_align ma ea (Z.min ea eb))) in *.
  set (b := fst (shl_align mb eb (Z.min ea eb))) in *.
  change (Zpos a + Zpos b)%Z with (Zpos (a + b)). cbn [binary_normalize].
  assert (E : (inject_Z (Zpos (a + b)) * pow2 (Z.min ea eb)
               == inject_Z (Zpos ma) * pow2 ea + inject_Z (Zpos mb) * pow2 eb)%Q).
  { rewrite <- Va, <- Vb, Pos2Z.inj_add, inject_Z_plus. ring. }
  destruct (binary_round_value (a + b) (Z.min ea eb)) as [F R].
  - intros r Hr. apply Hno. now apply (rounds_to_compat _ _ _ E).
  - split; [exact F|]. now apply (rounds_to_compat _ _ _ E).
Qed.

Lemma frac_half (r m : Z) :
  (0 < m)%Z ->
  ((2 * r < m)%Z -> (inject_Z r / inject_Z m < 1 # 2)%Q)
  /\ ((2 * r = m)%Z -> (inject_Z r / inject_Z m == 1 # 2)%Q)
  /\ ((m < 2 * r)%Z -> (1 # 2 < inject_Z r / inject_Z m)%Q).
Proof.
  intros Hm. assert (Hm' : (0 < inject_Z m)%Q).
  { change 0%Q with (inject_Z 0). now rewrite <- Zlt_Qlt. }
  split; [|split]; intros H.
  - apply Qlt_shift_div_r; [exact Hm'|].
    assert (H' : (inject_Z (2 * r) < inject_Z m)%Q) by (now rewrite <- Zlt_Qlt).
    rewrite inject_Z_mult in H'. change (inject_Z 2) with 2%Q in H'. lra.
  - assert (H' : (inject_Z (2 * r) == inject_Z m)%Q) by (now rewrite H).
    rewrite inject_Z_mult in H'. change (inject_Z 2) with 2%Q in H'.
    apply Qmult_inj_r with (inject_Z m); [lra|].
    rewrite <- H'. field. lra.
  - apply Qlt_shift_div_l; [exact Hm'|].
    assert (H' : (inject_Z m < inject_Z (2 * r))%Q) by (now rewrite <- Zlt_Qlt).
    rewrite inject_Z_mult in H'. change (inject_Z 2) with 2%Q in H'. lra.
Qed.

Lemma new_location_spec (m r : Z) :
  (0 < m)%Z -> (0 <= r < m)%Z ->
  inbetween (new_location m r) (inject_Z r / inject_Z m).
Proof.
  intros Hm Hr. destruct (frac_half r m Hm) as (Hlt & Heq & Hgt).
  assert (Hm' : (0 < inject_Z m)%Q).
  { change 0%Q with (inject_Z 0). now rewrite <- Zlt_Qlt. }
  assert (Hpos : (0 < r)%Z -> (0 < inject_Z r / inject_Z m)%Q).
  { intros H. apply Qlt_shift_div_l; [exact Hm'|].
    assert (H' : (inject_Z 0 < inject_Z r)%Q) by (now rewrite <- Zlt_Qlt).
    change (inject_Z 0) with 0%Q in H'. lra. }
  assert (Hlt1 : (inject_Z r / inject_Z m < 1)%Q).
  { apply Qlt_shift_div_r; [exact Hm'|].
    assert (H' : (inject_Z r < inject_Z m)%Q) by (rewrite <- Zlt_Qlt; lia). lra. }
  unfold new_location, new_location_even, new_location_odd.
  destruct r as [|p|p]; [| |lia].
  - destruct (Z.even m); cbv iota beta delta [IntDef.Z.eqb]; cbn [inbetween];
      change (inject_Z 0) with 0%Q; unfold Qdiv; ring.
  - cbv iota beta delta [IntDef.Z.eqb].
    change (IntDef.Z.compare ?a ?b) with (Z.compare a b).
    change (IntDef.Z.mul ?a ?b) with (Z.mul a b).
    change (IntDef.Z.add ?a ?b) with (Z.add a b).
    destruct (Z.even m) eqn:Ev.
    + destruct (Z.compare_spec (2 * Zpos p) m) as [C|C|C]; cbn [inbetween].
      * now apply Heq.
      * split; [apply Hpos; lia | now apply Hlt].
      * split; [now apply Hgt | exact Hlt1].
    + assert (Hodd : (2 * Zpos p <> m)%Z).
      { intros <-. rewrite Z.even_mul in Ev. discriminate. }
      destruct (Z.compare_spec (2 * Zpos p + 1) m) as [C|C|C]; cbn [inbetween].
      * split; [apply Hpos; lia | apply Hlt; lia].
      * split; [apply Hpos; lia | apply Hlt; lia].
      * split; [apply Hgt; lia | exact Hlt1].
Qed.


Lemma Qdiv_le_cross (a b x y : Q) :
  (0 < a)%Q -> (a <= x)%Q -> (0 < y)%Q -> (y <= b)%Q -> (a / b <= x / y)%Q.
Proof.
  intros Ha Hax Hy Hyb.
  apply Qle_shift_div_l; [exact Hy|].
  assert (E : (a / b * y == a * y / b)%Q) by (field; lra).
  rewrite E. apply Qle_shift_div_r; [lra|].
  apply Qle_trans with (a * b)%Q.
  - rewrite !(Qmult_comm a). apply Qmult_le_compat_r; lra.
  - apply Qmult_le_compat_r; lra.
Qed.

Lemma mag_ok_pow2 k : mag_ok k (pow2 (k - 1)).
Proof. split; [lra|]. apply pow2_lt. lia. Qed.

(** [SFdiv] of a normal numerator by a denominator of the format rounds
    the quotient of the values. *)
Lemma SFdiv_value mx ex my ey :
  (2 ^ (prec - 1) <= Zpos mx < 2 ^ prec)%Z -> (Zpos my < 2 ^ prec)%Z ->
  (emin < ex - ey)%Z ->
  (forall r, rounds_to (inject_Z (Zpos mx) * pow2 ex / (inject_Z (Zpos my) * pow2 ey)) r ->
             (r < pow2 emax)%Q) ->
  in_format (SFdiv prec emax (S754_finite false mx ex) (S754_finite false my ey))
  /\ rounds_to (inject_Z (Zpos mx) * pow2 ex / (inject_Z (Zpos my) * pow2 ey))
       (F2Q (SFdiv prec emax (S754_finite false mx ex) (S754_finite false my ey))).
Proof.
  intros Hmx Hmy He Hno. cbn [SFdiv xorb]. unfold SFdiv_core_binary.
  assert (Hd1 : Zdigits2 (Zpos mx) = prec).
  { apply Z.le_antisymm.
    - apply Zdigits2_le; lia.
    - pose proof (Zdigits2_ge (Zpos mx) (prec - 1) ltac:(lia) ltac:(lia) ltac:(lia)). lia. }
  assert (Hd2 : (1 <= Zdigits2 (Zpos my) <= prec)%Z).
  { split.
    - pose proof (Zdigits2_ge (Zpos my) 0 ltac:(lia) ltac:(lia) ltac:(simpl; lia)). lia.
    - apply Zdigits2_le; lia. }
  set (d1 := Zdigits2 (Zpos mx)) in *. set (d2 := Zdigits2 (Zpos my)) in *.
  set (e' := (fexp (d1 + ex - (d2 + ey)) `min` (ex - ey))%Z).
  assert (He' : (e' < ex - ey)%Z) by (unfold e'; rewrite fexp_eq; lia).
  destruct (ex - ey - e')%Z as [|sp|sp] eqn:Es; [lia| |lia].
  change (IntDef.Z.div_eucl ?a ?b) with (Z.div_eucl a b).
  rewrite Z.shiftl_mul_pow2 by lia.
  pose proof (Z_div_mod (Zpos mx * 2 ^ Zpos sp) (Zpos my) ltac:(lia)) as Hdiv.
  destruct (Z.div_eucl (Zpos mx * 2 ^ Zpos sp) (Zpos my)) as [q r].
  destruct Hdiv as [Hqr Hr].
  assert (Hs2 : (2 * 2 ^ (prec - 1) = 2 ^ prec)%Z).
  { rewrite <- Z.pow_succ_r by lia. f_equal. lia. }
  assert (Hsp : (2 <= 2 ^ Zpos sp)%Z).
  { change 2%Z with (2 ^ 1)%Z at 1. apply Z.pow_le_mono_r; lia. }
  assert (Hq : (0 < q)%Z) by nia.
  assert (Hmy' : (0 < inject_Z (Zpos my))%Q).
  { change 0%Q with (inject_Z 0). rewrite <- Zlt_Qlt. lia. }
  pose proof (pow2_pos ex) as Pex. pose proof (pow2_pos ey) as Pey.
  assert (Hval : (inject_Z (Zpos mx) * pow2 ex / (inject_Z (Zpos my) * pow2 ey)
                  == (inject_Z q + inject_Z r / inject_Z (Zpos my)) * pow2 e')%Q).
  { assert (E1 : (inject_Z (Zpos mx) * pow2 (Zpos sp)
                  == inject_Z (Zpos my) * inject_Z q + inject_Z r)%Q).
    { rewrite (pow2_Z (Zpos sp)) by lia.
      rewrite <- !inject_Z_mult, <- inject_Z_plus. now rewrite Hqr. }
    assert (E2 : (pow2 ex == pow2 (Zpos sp) * pow2 e' * pow2 ey)%Q).
    { rewrite <- !pow2_add. now replace (Zpos sp + e' + ey)%Z with ex by lia. }
    rewrite E2.
    assert (E3 : (inject_Z q + inject_Z r / inject_Z (Zpos my)
                  == inject_Z (Zpos mx) * pow2 (Zpos sp) / inject_Z (Zpos my))%Q).
    { rewrite E1. field. lra. }
    rewrite E3. field. split; lra. }
  pose proof (new_location_spec (Zpos my) r ltac:(lia) Hr) as Hloc.
  destruct (inbetween_range _ _ Hloc) as [Hf0 Hf1].
  pose proof (mag_ok_stands q _ e' _ Hq Hf0 Hf1 Hval) as Hk.
  apply (binary_round_aux_value q e' _ _ _ Hq Hloc Hval); [|exact Hno].
  assert (Hlow : (d1 + ex - (d2 + ey) <= Zdigits2 q + e')%Z).
  { apply (mag_ok_le _ _ (pow2 (d1 + ex - (d2 + ey) - 1)) _ (mag_ok_pow2 _) Hk).
    destruct (mag_ok_float mx ex) as [Lx _]. destruct (mag_ok_float my ey) as [_ Uy].
    fold d1 in Lx. fold d2 in Uy.
    replace (d1 + ex - (d2 + ey) - 1)%Z with ((d1 + ex - 1) - (d2 + ey))%Z by lia.
    rewrite pow2_sub. apply Qdiv_le_cross.
    - apply pow2_pos.
    - exact Lx.
    - apply Qmult_lt_0_compat; lra.
    - lra. }
  assert (Hf : (fexp (d1 + ex - (d2 + ey)) <= fexp (Zdigits2 q + e'))%Z)
    by (rewrite !fexp_eq; lia).
  assert (Hm : (e' <= fexp (d1 + ex - (d2 + ey)))%Z) by (unfold e'; lia).
  lia.
Qed.


Lemma round_at_nonneg k x : mag_ok k x -> (0 <= round_at k x)%Q.
Proof.
  intros Hk. destruct (mantissa_bounds k x Hk) as ([H0 _] & _).
  unfold Rounding.round_at. pose proof (pow2_pos (fexp k)).
  apply Qmult_le_0_compat; [|lra].
  change 0%Q with (inject_Z 0). now rewrite <- Zle_Qle.
Qed.

Lemma round_at_pos k x : mag_ok k x -> (emin < k)%Z -> (0 < round_at k x)%Q.
Proof.
  intros Hk Hm. destruct (mantissa_bounds k x Hk) as (_ & _ & _ & Hlow).
  unfold Rounding.round_at. pose proof (pow2_pos (fexp k)).
  apply Qmult_lt_0_compat; [|lra].
  change 0%Q with (inject_Z 0). rewrite <- Zlt_Qlt.
  destruct (Z.eq_dec (fexp k) emin) as [E|E].
  - apply Z.lt_le_trans with 1%Z; [lia|]. apply rne_ge_Z. rewrite E.
    change (inject_Z 1) with (pow2 0).
    replace 0%Z with ((emin + 1 - 1) - emin)%Z by lia.
    apply scaled_le. destruct Hk as [Hl _].
    apply Qle_trans with (pow2 (k - 1)); [apply pow2_le; lia|exact Hl].
  - pose proof (fexp_ge_emin k).
    assert (0 < 2 ^ (prec - 1))%Z by (apply Z.pow_pos_nonneg; lia).
    specialize (Hlow ltac:(lia)). lia.
Qed.

(** Rounding to nearest moves a value by at most half a unit of the
    last place. *)
Lemma rne_error q : (Qabs (inject_Z (rne q) - q) <= 1 # 2)%Q.
Proof.
  apply Qabs_Qle_condition. pose proof (Qfloor_bounds q) as [H1 H2].
  unfold rne. cbv zeta.
  destruct (Qcompare_cases (q - inject_Z (Qfloor q)) (1 # 2)) as [[C D]|[[C D]|[C D]]];
    rewrite C.
  - split; lra.
  - destruct (Z.even (Qfloor q)); [split; lra|].
    rewrite inject_Z_plus. change (inject_Z 1) with 1%Q. split; lra.
  - rewrite inject_Z_plus. change (inject_Z 1) with 1%Q. split; lra.
Qed.

Lemma round_at_error k x :
  (Qabs (round_at k x - x) <= (1 # 2) * pow2 (fexp k))%Q.
Proof.
  unfold Rounding.round_at. set (p := pow2 (fexp k)).
  assert (Hp : (0 < p)%Q) by apply pow2_pos.
  pose proof (rne_error (x / p)) as H. apply Qabs_Qle_condition in H as [H1 H2].
  apply Qabs_Qle_condition.
  assert (E : (inject_Z (rne (x / p)) * p - x == (inject_Z (rne (x / p)) - x / p) * p)%Q)
    by (field; lra).
  rewrite E. split.
  - apply Qle_trans with ((- (1 # 2)) * p)%Q; [lra|].
    apply Qmult_le_compat_r; lra.
  - apply Qmult_le_compat_r; lra.
Qed.

(** A multiple of the unit of its binade rounds to itself. *)
Lemma round_at_exact k n x :
  (x == inject_Z n * pow2 (fexp k))%Q -> (round_at k x == x)%Q.
Proof.
  intros E. unfold Rounding.round_at.
  assert (E1 : (x / pow2 (fexp k) == inject_Z n)%Q).
  { rewrite E. field. pose proof (pow2_pos (fexp k)). lra. }
  rewrite (rne_compat _ _ E1), rne_Z. now rewrite E.
Qed.

Lemma rounds_to_nonneg x r : rounds_to x r -> (0 <= r)%Q.
Proof. intros (k & Hk & ->). now apply round_at_nonneg. Qed.

Lemma nearest_mono x y r r' :
  nearest x r -> nearest y r' -> (x <= y)%Q -> (r <= r')%Q.
Proof.
  intros [[Hx Hr]|Hx] [[Hy Hr']|Hy] Hxy.
  - lra.
  - apply rounds_to_nonneg in Hy. lra.
  - destruct Hx as (k & Hk & _). apply mag_ok_pos in Hk. lra.
  - now apply (rounds_to_mono x y).
Qed.

Lemma mag_ok_one : mag_ok 1 1.
Proof. split; qcompute. Qed.

Lemma round_at_one : (round_at 1 1 == 1)%Q.
Proof.
  unfold Rounding.round_at.
  assert (E : fexp 1 = (1 - prec)%Z) by (rewrite fexp_eq, emin_eq; lia).
  rewrite E.
  assert (E1 : (1 / pow2 (1 - prec) == inject_Z (2 ^ (prec - 1)))%Q).
  { rewrite <- pow2_Z by lia. rewrite <- pow2_0 at 1. rewrite <- pow2_sub.
    now replace (0 - (1 - prec))%Z with (prec - 1)%Z by lia. }
  rewrite (rne_compat _ _ E1), rne_Z, <- pow2_Z by lia.
  rewrite <- pow2_add, <- pow2_0. now replace (prec - 1 + (1 - prec))%Z with 0%Z by lia.
Qed.

Lemma rounds_to_one : rounds_to 1 1.
Proof. exists 1%Z. split; [exact mag_ok_one|]. symmetry. exact round_at_one. Qed.

(** What a value below an anchor rounds to is below what the anchor
    rounds to. *)
Lemma rounds_to_below x r k a :
  mag_ok k a -> rounds_to x r -> (x <= a)%Q -> (r <= round_at k a)%Q.
Proof.
  intros Hk Hr Hxa. apply (rounds_to_mono x a); [exact Hr| |exact Hxa].
  exists k. split; [exact Hk|reflexivity].
Qed.

Lemma mag_ok_dmax : mag_ok 128 dmax.
Proof. split; qcompute. Qed.

Lemma mag_ok_dmax_succ : mag_ok 128 (1 + dmax).
Proof. split; qcompute. Qed.

Lemma mag_ok_dmax_inv : mag_ok (-127) (1 / dmax).
Proof. split; qcompute. Qed.

Lemma dmax_ge_1 : (1 <= dmax)%Q.
Proof. qcompute. Qed.

Lemma is_distance_cases d :
  is_distance d = true ->
  (exists s, d = S754_zero s)
  \/ exists m e, d = S754_finite false m e /\ (0 < F2Q d)%Q /\ (F2Q d <= dmax)%Q.
Proof.
  destruct d as [s| | |[|] m e]; cbn [is_distance]; try discriminate.
  - intros _. left. eauto.
  - intros H. right. exists m, e. split; [reflexivity|].
    unfold bounded, canonical_mantissa in H.
    apply andb_prop in H. destruct H as [H1 H2].
    cbn [Embedder.prec Embedder.emax binary32] in H1, H2.
    change (IntDef.Z.eqb ?a ?b) with (Z.eqb a b) in H1.
    apply Z.eqb_eq in H1. apply Z.leb_le in H2.
    unfold SpecFloat.fexp, SpecFloat.emin in H1.
    assert (Hd : (Zdigits2 (Zpos m) <= 24)%Z) by (cbn [Zdigits2]; lia).
    destruct (Zdigits2_bounds (Zpos m) ltac:(lia)) as [[_ Hu] _].
    assert (Hm : (Zpos m < 2 ^ 24)%Z).
    { apply Z.lt_le_trans with (2 ^ Zdigits2 (Zpos m))%Z; [exact Hu|].
      apply Z.pow_le_mono_r; lia. }
    cbn [F2Q]. pose proof (pow2_pos e) as Pe. split.
    + apply Qmult_lt_0_compat; [|exact Pe].
      change 0%Q with (inject_Z 0). rewrite <- Zlt_Qlt. lia.
    + unfold dmax, f32_max. cbn [F2Q].
      apply Qle_trans with (inject_Z 16777215 * pow2 e)%Q.
      * apply Qmult_le_compat_r; [|lra]. rewrite <- Zle_Qle. lia.
      * rewrite !(Qmult_comm (inject_Z 16777215)).
        apply Qmult_le_compat_r; [apply pow2_le; lia|]. qcompute.
Qed.

(** The format in which the score is evaluated.  It is at least as
    wide as [float32], so it holds every [float32] distance, it has the
    number 1, and the largest distance, with or without 1 added, rounds
    to itself; each holds of binary32 and of binary64 by computation. *)
Abbreviation arith := (Build_format prec emax).

Hypothesis Hprec24 : (24 <= prec)%Z.
Hypothesis Hemax128 : (128 <= emax)%Z.
Hypothesis Hone :
  fl_one arith = S754_finite false (Z.to_pos (2 ^ (prec - 1))) (1 - prec).
Hypothesis Hdmax : (round_at 128 dmax == dmax)%Q.
Hypothesis Hdmax1 : (round_at 128 (1 + dmax) == dmax)%Q.

Lemma dmax_lt_emax : (dmax < pow2 emax)%Q.
Proof.
  destruct mag_ok_dmax as [_ H]. apply Qlt_le_trans with (pow2 128); [exact H|].
  now apply pow2_le.
Qed.

Lemma one_mantissa : Zpos (Z.to_pos (2 ^ (prec - 1))) = (2 ^ (prec - 1))%Z.
Proof. apply Z2Pos.id. apply Z.pow_pos_nonneg; lia. Qed.

Lemma one_value : (F2Q (fl_one arith) == 1)%Q.
Proof.
  rewrite Hone. cbn [F2Q]. rewrite one_mantissa, <- pow2_Z by lia.
  rewrite <- pow2_add, <- pow2_0. now replace (prec - 1 + (1 - prec))%Z with 0%Z by lia.
Qed.

(** The conversion of a distance into the format of the operation. *)
Lemma cast_value d :
  is_distance d = true ->
  in_format (cast arith d) /\ nearest (F2Q d) (F2Q (cast arith d))
  /\ (0 <= F2Q d)%Q /\ (F2Q (cast arith d) <= dmax)%Q.
Proof.
  intros Hd. destruct (is_distance_cases d Hd) as [[s ->]|(m & e & -> & H0 & Hmax)].
  - cbn [cast F2Q]. split; [left; eauto|]. split; [left; split; reflexivity|].
    pose proof dmax_ge_1. split; lra.
  - cbn [cast Embedder.prec Embedder.emax]. cbn [F2Q] in H0, Hmax |- *.
    assert (Hno : forall r, rounds_to (inject_Z (Zpos m) * pow2 e) r -> (r <= dmax)%Q).
    { intros r Hr. rewrite <- Hdmax. apply (rounds_to_below _ _ _ _ mag_ok_dmax Hr Hmax). }
    destruct (binary_round_value m e) as [F R].
    { intros r Hr. pose proof (Hno r Hr). pose proof dmax_lt_emax. lra. }
    split; [exact F|]. split; [now right|]. split; [lra|]. now apply Hno.
Qed.

(** [1 + c] for a value [c] of the format that is at most the largest
    distance. *)
Lemma add_one_value c :
  in_format c -> (0 <= F2Q c)%Q -> (F2Q c <= dmax)%Q ->
  exists ms es,
    SFadd prec emax (fl_one arith) c = S754_finite false ms es
    /\ (Zpos ms < 2 ^ prec)%Z /\ (emin <= es <= emax - prec)%Z
    /\ rounds_to (1 + F2Q c) (inject_Z (Zpos ms) * pow2 es)
    /\ (1 <= inject_Z (Zpos ms) * pow2 es)%Q /\ (inject_Z (Zpos ms) * pow2 es <= dmax)%Q.
Proof.
  intros Hc H0 Hmax. pose proof one_value as V1. rewrite Hone in V1 |- *. cbn [F2Q] in V1.
  assert (Hp : (2 ^ (prec - 1) < 2 ^ prec)%Z) by (apply Z.pow_lt_mono_r; lia).
  pose proof dmax_ge_1 as HD1.
  destruct Hc as [[s ->]|(m & e & -> & Hm & He)].
  - cbn [SFadd F2Q]. eexists _, _. split; [reflexivity|].
    split; [rewrite one_mantissa; exact Hp|]. split; [rewrite emin_eq; lia|].
    split; [|split; lra].
    apply (rounds_to_compat 1); [ring|].
    destruct rounds_to_one as (k & Hk & Hr). exists k. split; [exact Hk|].
    rewrite V1. exact Hr.
  - cbn [F2Q] in H0, Hmax |- *.
    set (x := (inject_Z (Zpos (Z.to_pos (2 ^ (prec - 1)))) * pow2 (1 - prec)
               + inject_Z (Zpos m) * pow2 e)%Q).
    assert (Ex : (x == 1 + inject_Z (Zpos m) * pow2 e)%Q) by (unfold x; rewrite V1; reflexivity).
    assert (Hno : forall r, rounds_to x r -> (r <= dmax)%Q).
    { intros r Hr. rewrite <- Hdmax1.
      apply (rounds_to_below _ _ _ _ mag_ok_dmax_succ Hr). lra. }
    destruct (SFadd_value (Z.to_pos (2 ^ (prec - 1))) (1 - prec) m e) as [F R].
    { intros r Hr. pose proof (Hno r Hr). pose proof dmax_lt_emax. lra. }
    fold x in R.
    assert (Hge : (1 <= F2Q (SFadd prec emax
                     (S754_finite false (Z.to_pos (2 ^ (prec - 1))) (1 - prec))
                     (S754_finite false m e)))%Q).
    { apply (rounds_to_mono 1 x); [exact rounds_to_one|exact R|lra]. }
    pose proof (Hno _ R) as Hle.
    destruct F as [[s E]|(ms & es & E & Hms & Hes)]; rewrite E in *; cbn [F2Q] in *.
    + lra.
    + exists ms, es. split; [reflexivity|]. split; [exact Hms|]. split; [exact Hes|].
      split; [|split; assumption]. now apply (rounds_to_compat x).
Qed.

(** [1 / s] for a value [s] of the format between 1 and the largest
    distance. *)
Lemma div_one_value ms es :
  (Zpos ms < 2 ^ prec)%Z -> (emin <= es <= emax - prec)%Z ->
  (1 <= inject_Z (Zpos ms) * pow2 es)%Q -> (inject_Z (Zpos ms) * pow2 es <= dmax)%Q ->
  exists m e,
    SFdiv prec emax (fl_one arith) (S754_finite false ms es) = S754_finite false m e
    /\ rounds_to (1 / (inject_Z (Zpos ms) * pow2 es)) (inject_Z (Zpos m) * pow2 e)
    /\ (0 < inject_Z (Zpos m) * pow2 e)%Q /\ (inject_Z (Zpos m) * pow2 e <= 1)%Q.
Proof.
  intros Hms Hes H1 Hmax. pose proof one_value as V1. rewrite Hone in V1 |- *. cbn [F2Q] in V1.
  assert (Hp : (2 ^ (prec - 1) < 2 ^ prec)%Z) by (apply Z.pow_lt_mono_r; lia).
  set (y := (inject_Z (Zpos ms) * pow2 es)%Q) in *.
  set (x := (inject_Z (Zpos (Z.to_pos (2 ^ (prec - 1)))) * pow2 (1 - prec) / y)%Q).
  assert (Ex : (x == 1 / y)%Q) by (unfold x; rewrite V1; reflexivity).
  assert (Hx1 : (x <= 1)%Q).
  { rewrite Ex. apply Qle_shift_div_r; lra. }
  assert (Hno : forall r, rounds_to x r -> (r <= 1)%Q).
  { intros r Hr. rewrite <- round_at_one.
    apply (rounds_to_below _ _ _ _ mag_ok_one Hr Hx1). }
  destruct (SFdiv_value (Z.to_pos (2 ^ (prec - 1))) (1 - prec) ms es) as [F R].
  - rewrite one_mantissa. lia.
  - exact Hms.
  - rewrite emin_eq. lia.
  - intros r Hr. fold y in Hr. fold x in Hr. pose proof (Hno r Hr).
    assert (pow2 0 < pow2 emax)%Q by (apply pow2_lt; lia).
    change (pow2 0) with 1%Q in *. lra.
  - fold y in R. fold x in R.
    pose proof (Hno _ R) as Hle.
    assert (Hpos : (0 < F2Q (SFdiv prec emax
                     (S754_finite false (Z.to_pos (2 ^ (prec - 1))) (1 - prec))
                     (S754_finite false ms es)))%Q).
    { destruct R as (k & Hk & ->). apply round_at_pos; [exact Hk|].
      assert (Hk' : (-127 <= k)%Z).
      { apply (mag_ok_le _ _ _ _ mag_ok_dmax_inv Hk).
        rewrite Ex. apply Qdiv_le_cross; lra. }
      rewrite emin_eq. lia. }
    destruct F as [[s E]|(m & e & E & Hm & He)]; rewrite E in *; cbn [F2Q] in *.
    + lra.
    + exists m, e. split; [reflexivity|]. split; [|split; assumption].
      now apply (rounds_to_compat x).
Qed.

(** The computed score of a distance, step by step. *)
Lemma similarity_chain d :
  is_distance d = true ->
  exists (c s : Q) (m : positive) (e : Z),
    nearest (F2Q d) c /\ rounds_to (1 + c) s /\ (1 <= s)%Q
    /\ similarity arith d = S754_finite false m e
    /\ rounds_to (1 / s) (inject_Z (Zpos m) * pow2 e)
    /\ (0 < inject_Z (Zpos m) * pow2 e)%Q /\ (inject_Z (Zpos m) * pow2 e <= 1)%Q.
Proof.
  intros Hd. destruct (cast_value d Hd) as (F & N & H0 & Hmax).
  assert (Hc0 : (0 <= F2Q (cast arith d))%Q).
  { destruct N as [[_ E]|R]; [lra|now apply rounds_to_nonneg in R]. }
  destruct (add_one_value _ F Hc0 Hmax) as (ms & es & Es & Hms & Hes & Rs & Hs1 & Hsmax).
  destruct (div_one_value ms es Hms Hes Hs1 Hsmax) as (m & e & Eq & Rq & Hq0 & Hq1).
  exists (F2Q (cast arith d)), (inject_Z (Zpos ms) * pow2 es)%Q, m, e.
  split; [exact N|]. split; [exact Rs|]. split; [exact Hs1|].
  split; [|split; [exact Rq|split; assumption]].
  unfold similarity. cbn [Embedder.prec Embedder.emax]. now rewrite Es.
Qed.

(** A [float32] distance is a value of the format: its conversion is
    exact. *)
Lemma is_distance_canonical m e :
  is_distance (S754_finite false m e) = true ->
  SpecFloat.fexp 24 128 (Zdigits2 (Zpos m) + e) = e.
Proof.
  cbn [is_distance]. unfold bounded, canonical_mantissa. intros H.
  apply andb_prop in H. destruct H as [H1 _].
  cbn [Embedder.prec Embedder.emax binary32] in H1.
  change (IntDef.Z.eqb ?a ?b) with (Z.eqb a b) in H1.
  apply Z.eqb_eq in H1. cbn [Zdigits2]. exact H1.
Qed.

Lemma nearest_distance d c :
  is_distance d = true -> nearest (F2Q d) c -> (c == F2Q d)%Q.
Proof.
  intros Hd [[Hx Hc]|(k & Hk & Hr)]; [now rewrite Hx, Hc|].
  pose proof (mag_ok_pos k _ Hk) as Hpos.
  destruct (is_distance_cases d Hd) as [[s ->]|(m & e & -> & _ & _)];
    [cbn [F2Q] in Hpos; lra|].
  cbn [F2Q] in *. rewrite Hr.
  pose proof (is_distance_canonical m e Hd) as Hcan.
  assert (Ek : k = (Zdigits2 (Zpos m) + e)%Z).
  { apply (mag_ok_unique _ _ _ Hk). apply mag_ok_float. }
  assert (Hle : (fexp k <= e)%Z).
  { rewrite fexp_eq, emin_eq. unfold SpecFloat.fexp, SpecFloat.emin in Hcan. lia. }
  apply (round_at_exact k (Zpos m * 2 ^ (e - fexp k))).
  rewrite inject_Z_mult, <- pow2_Z by lia.
  rewrite <- Qmult_assoc, <- pow2_add.
  now replace (e - fexp k + fexp k)%Z with e by lia.
Qed.

Lemma pow2_le_inv a b : (pow2 a <= pow2 b)%Q -> (a <= b)%Z.
Proof.
  intros H. destruct (Z.le_gt_cases a b) as [|C]; [assumption|exfalso].
  apply pow2_lt in C. lra.
Qed.

(** The computed score is 1/(1+d) with the sum and the quotient rounded
    to nearest, and it is within 2^(1-prec) of the exact value. *)
Lemma similarity_accuracy d :
  is_distance d = true ->
  exists s : Q,
    rounds_to (1 + F2Q d) s
    /\ rounds_to (1 / s) (F2Q (similarity arith d))
    /\ (Qabs (F2Q (similarity arith d) - similarity_exact (F2Q d)) <= pow2 (1 - prec))%Q.
Proof.
  intros Hd.
  destruct (similarity_chain d Hd) as (c & s & m & e & N & Rs & Hs1 & E & Rq & Hq0 & Hq1).
  pose proof (nearest_distance d c Hd N) as Ec.
  apply (rounds_to_compat _ (1 + F2Q d)) in Rs; [|now rewrite Ec].
  exists s. rewrite E. cbn [F2Q]. split; [exact Rs|]. split; [exact Rq|].
  set (r := (inject_Z (Zpos m) * pow2 e)%Q) in *.
  set (x := (1 + F2Q d)%Q) in *.
  assert (Hx1 : (1 <= x)%Q).
  { destruct (cast_value d Hd) as (_ & _ & H0 & _). unfold x. lra. }
  set (u := pow2 (- prec)).
  assert (Hu : (0 < u)%Q) by apply pow2_pos.
  assert (Eu : (pow2 (1 - prec) == 2 * u)%Q).
  { unfold u. replace (1 - prec)%Z with (- prec + 1)%Z by lia. apply pow2_succ. }
  (* the sum *)
  assert (Hs : (Qabs (s - x) <= x * u)%Q).
  { destruct Rs as (k & Hk & ->).
    assert (Hk1 : (1 <= k)%Z).
    { destruct Hk as [_ Hk]. assert (pow2 0 < pow2 k)%Q by (change (pow2 0) with 1%Q; lra).
      apply pow2_lt_inv in H. lia. }
    eapply Qle_trans; [apply round_at_error|].
    assert (Ef : fexp k = (k - prec)%Z) by (rewrite fexp_eq, emin_eq; lia).
    rewrite Ef. replace (k - prec)%Z with ((k - 1) + (- prec + 1))%Z by lia.
    rewrite pow2_add, pow2_succ. fold u.
    destruct Hk as [Hk _].
    assert (E1 : ((1 # 2) * (pow2 (k - 1) * (2 * u)) == pow2 (k - 1) * u)%Q) by ring.
    rewrite E1. apply Qmult_le_compat_r; lra. }
  (* the quotient *)
  assert (Hr : (Qabs (r - 1 / s) <= u)%Q).
  { destruct Rq as (k & Hk & Er). rewrite Er.
    assert (Hs1' : (1 / s <= 1)%Q) by (apply Qle_shift_div_r; lra).
    assert (Hk1 : (k <= 1)%Z).
    { destruct Hk as [Hk _]. assert (H : (pow2 (k - 1) <= pow2 0)%Q) by (change (pow2 0) with 1%Q; lra).
      apply pow2_le_inv in H. lia. }
    eapply Qle_trans; [apply round_at_error|].
    assert (Hf : (fexp k <= - prec + 1)%Z) by (rewrite fexp_eq, emin_eq; lia).
    apply Qle_trans with ((1 # 2) * pow2 (- prec + 1))%Q.
    - apply Qmult_le_l; [reflexivity|now apply pow2_le].
    - rewrite pow2_succ. fold u. lra. }
  (* together *)
  assert (Hd' : (Qabs (1 / s - 1 / x) <= u)%Q).
  { apply Qabs_Qle_condition in Hs as [Hs' Hs''].
    assert (E1 : (1 / s - 1 / x == (x - s) / (s * x))%Q) by (field; split; lra).
    assert (Hsx : (0 < s * x)%Q) by (apply Qmult_lt_0_compat; lra).
    assert (Hxu : (x * u <= u * (s * x))%Q).
    { assert (E2 : (u * (s * x) - x * u == (s - 1) * (x * u))%Q) by ring.
      assert (0 <= (s - 1) * (x * u))%Q; [|lra].
      apply Qmult_le_0_compat; [lra|]. apply Qmult_le_0_compat; lra. }
    apply Qabs_Qle_condition. rewrite E1. split.
    - apply Qle_shift_div_l; [exact Hsx|]. lra.
    - apply Qle_shift_div_r; [exact Hsx|]. lra. }
  unfold similarity_exact. fold x. rewrite Eu.
  assert (E3 : (r - 1 / x == (r - 1 / s) + (1 / s - 1 / x))%Q) by ring.
  rewrite E3. eapply Qle_trans; [apply Qabs_triangle|]. lra.
Qed.

(** The computed score is a finite number in (0, 1]. *)
Lemma similarity_range d :
  is_distance d = true ->
  exists m e, similarity arith d = S754_finite false m e
    /\ (0 < F2Q (similarity arith d))%Q /\ (F2Q (similarity arith d) <= 1)%Q.
Proof.
  intros Hd. destruct (similarity_chain d Hd) as (c & s & m & e & _ & _ & _ & E & _ & H0 & H1).
  exists m, e. rewrite E. cbn [F2Q]. auto.
Qed.

(** A larger distance never gets a larger computed score. *)
Lemma similarity_monotone d1 d2 :
  is_distance d1 = true -> is_distance d2 = true ->
  (F2Q d1 <= F2Q d2)%Q ->
  (F2Q (similarity arith d2) <= F2Q (similarity arith d1))%Q.
Proof.
  intros Hd1 Hd2 Hle.
  destruct (similarity_chain d1 Hd1) as (c1 & s1 & m1 & e1 & N1 & R1 & L1 & E1 & Q1 & _).
  destruct (similarity_chain d2 Hd2) as (c2 & s2 & m2 & e2 & N2 & R2 & L2 & E2 & Q2 & _).
  rewrite E1, E2. cbn [F2Q].
  pose proof (nearest_mono _ _ _ _ N1 N2 Hle) as Hc.
  assert (Hs : (s1 <= s2)%Q) by (apply (rounds_to_mono _ _ _ _ R1 R2); lra).
  apply (rounds_to_mono _ _ _ _ Q2 Q1).
  apply Qdiv_le_cross; lra.
Qed.

End FormatProofs.

(** ** The similarity transform *)

Lemma similarity_exact_pos (d : Q) : (0 <= d -> 0 < similarity_exact d)%Q.
Proof.
  intros Hd. unfold similarity_exact.
  apply Qlt_shift_div_l; lra.
Qed.

Lemma similarity_exact_le_1 (d : Q) : (0 <= d -> similarity_exact d <= 1)%Q.
Proof.
  intros Hd. unfold similarity_exact.
  apply Qle_shift_div_r; lra.
Qed.

Lemma similarity_exact_decreasing (d1 d2 : Q) :
  (0 <= d1 -> d1 < d2 -> similarity_exact d2 < similarity_exact d1)%Q.
Proof.
  intros H1 H12. unfold similarity_exact.
  apply Qlt_shift_div_r; [lra|].
  assert (E : (1 / (1 + d1) * (1 + d2) == (1 + d2) / (1 + d1))%Q) by (field; lra).
  rewrite E. apply Qlt_shift_div_l; lra.
Qed.

(** The computed score in the two formats in which NumPy evaluates it. *)
Lemma similarity_rounding (arith : format) :
  arith = binary32 \/ arith = binary64 ->
  (forall d, is_distance d = true ->
     exists m e, similarity arith d = S754_finite false m e
       /\ (0 < F2Q (similarity arith d))%Q /\ (F2Q (similarity arith d) <= 1)%Q)
  /\ (forall d1 d2, is_distance d1 = true -> is_distance d2 = true ->
        (F2Q d1 <= F2Q d2)%Q ->
        (F2Q (similarity arith d2) <= F2Q (similarity arith d1))%Q).
Proof.
  intros [->| ->]; split.
  - apply (similarity_range 24 128); try lia; qcompute.
  - apply (similarity_monotone 24 128); try lia; qcompute.
  - apply (similarity_range 53 1024); try lia; qcompute.
  - apply (similarity_monotone 53 1024); try lia; qcompute.
Qed.

(** The computed score against the exact one, in the two formats. *)
Lemma similarity_rounded (arith : format) :
  arith = binary32 \/ arith = binary64 ->
  forall d, is_distance d = true ->
    exists s : Q,
      rounds_to (prec arith) (emax arith) (1 + F2Q d) s
      /\ rounds_to (prec arith) (emax arith) (1 / s) (F2Q (similarity arith d))
      /\ (Qabs (F2Q (similarity arith d) - similarity_exact (F2Q d))
          <= pow2 (1 - prec arith))%Q.
Proof.
  intros [->| ->].
  - apply (similarity_accuracy 24 128); try lia; qcompute.
  - apply (similarity_accuracy 53 1024); try lia; qcompute.
Qed.

(** C6, as the code has it: in exact arithmetic 1/(1+d) is defined for
    every d >= 0, is 1 at 0, strictly decreasing and within (0, 1].
    The code evaluates it in floating point, in [float32] or in
    [float64]: the computed score is 1/(1+d) with the sum and then the
    quotient rounded to nearest, which is within 2^-23, or 2^-52, of the
    exact value; the score of distance 0 is exactly 1.0, the score of
    every distance is a finite number in (0, 1], and a larger distance
    never gets a larger score; but rounding can give two distances the
    same score. *)
Theorem similarity_transform :
  (forall arith : format, arith = binary32 \/ arith = binary64 ->
     similarity arith fl_zero = fl_one arith
     /\ (F2Q (fl_one arith) == 1)%Q
     /\ (forall d, is_distance d = true ->
           exists m e, similarity arith d = S754_finite false m e
             /\ (0 < F2Q (similarity arith d))%Q
             /\ (F2Q (similarity arith d) <= 1)%Q)
     /\ (forall d1 d2, is_distance d1 = true -> is_distance d2 = true ->
           (F2Q d1 <= F2Q d2)%Q ->
           (F2Q (similarity arith d2) <= F2Q (similarity arith d1))%Q)
     /\ (forall d, is_distance d = true ->
           exists s : Q,
             rounds_to (prec arith) (emax arith) (1 + F2Q d) s
             /\ rounds_to (prec arith) (emax arith) (1 / s) (F2Q (similarity arith d))
             /\ (Qabs (F2Q (similarity arith d) - similarity_exact (F2Q d))
                 <= pow2 (1 - prec arith))%Q))
  /\ (similarity_exact 0 == 1)%Q
  /\ (forall d : Q, (0 <= d)%Q ->
        ~ (1 + d == 0)%Q /\ (0 < similarity_exact d)%Q /\ (similarity_exact d <= 1)%Q)
  /\ (forall d1 d2 : Q, (0 <= d1)%Q -> (d1 < d2)%Q ->
        (similarity_exact d2 < similarity_exact d1)%Q).
Proof.
  split; [|split; [reflexivity|split]].
  - intros arith Harith.
    destruct (similarity_rounding arith Harith) as [Hrange Hmono].
    split; [destruct Harith as [->| ->]; reflexivity|].
    split; [destruct Harith as [->| ->]; reflexivity|].
    split; [assumption|]. split; [assumption|].
    now apply similarity_rounded.
  - intros d Hd. split; [lra|]. split.
    + now apply similarity_exact_pos.
    + now apply similarity_exact_le_1.
  - apply similarity_exact_decreasing.
Qed.

Lemma similarity_transform_witness :
  (0 < F2Q (similarity binary32 f32_max))%Q
  /\ (F2Q (similarity binary64 f32_max) <= F2Q (similarity binary64 tiny_distance))%Q
  /\ (Qabs (F2Q (similarity binary32 f32_max) - similarity_exact (F2Q f32_max))
      <= pow2 (-23))%Q
  /\ (0 < similarity_exact 3)%Q /\ (similarity_exact 3 <= 1)%Q
  /\ (similarity_exact 3 < similarity_exact 1)%Q.
Proof.
  destruct similarity_transform as (Hfloat & _ & Hrange & Hdec).
  destruct (Hfloat binary32 (or_introl eq_refl)) as (_ & _ & Hrange32 & _ & Hnear32).
  destruct (Hfloat binary64 (or_intror eq_refl)) as (_ & _ & _ & Hmono64 & _).
  destruct (Hrange32 f32_max eq_refl) as (m & e & _ & Hpos32 & _).
  split; [exact Hpos32|].
  split; [apply Hmono64; reflexivity || (vm_compute; discriminate)|].
  split.
  { destruct (Hnear32 f32_max eq_refl) as (s & _ & _ & Hacc).
    exact Hacc. }
  destruct (Hrange 3%Q) as (_ & Hpos & Hle); [lra|].
  split; [exact Hpos|]. split; [exact Hle|].
  apply Hdec; lra.
Defined.

(** C6, as stated, fails on the code: 2^-60 is a larger distance than
    0, and in either format both get the score 1.0. *)
Lemma similarity_counterexample :
  is_distance fl_zero = true /\ is_distance tiny_distance = true
  /\ SFltb fl_zero tiny_distance = true
  /\ (F2Q fl_zero < F2Q tiny_distance)%Q
  /\ similarity binary32 tiny_distance = similarity binary32 fl_zero
  /\ SFltb (similarity binary32 tiny_distance) (similarity binary32 fl_zero) = false
  /\ similarity binary64 tiny_distance = similarity binary64 fl_zero
  /\ SFltb (similarity binary64 tiny_distance) (similarity binary64 fl_zero) = false.
Proof. repeat split; reflexivity. Qed.

(** * Further properties of the code *)

Import HttpTrace.

(** ** The HTTP client, for any number of attempts *)

Lemma retry_loop_settled {J} (server : nat -> get_outcome J) (n : nat) (return_json : bool) :
  forall m a k,
    (a <= k < a + m)%nat -> (k < n)%nat ->
    (forall i, (a <= i < k)%nat -> rate_limited (server i) return_json = true) ->
    rate_limited (server k) return_json = false ->
    retry_loop server (List.map Z.of_nat (seq a m)) (Z.of_nat n) return_json
    = (answer (server k) return_json,
       ((if (0 <? Z.of_nat a)%Z then [Slept (2 ^ Z.of_nat a)] else [])
        ++ Requested
           :: flat_map (fun i => [Slept (2 ^ Z.of_nat i); Requested]) (seq (S a) (k - a)))%list).
Proof.
  induction m as [|m IH]; intros a k Hk Hn Hbusy Hfree; [lia|].
  cbn [seq List.map retry_loop]. rewrite Nat2Z.id, try_request_cases.
  destruct (Nat.eq_dec k a) as [->|Hne].
  - rewrite Hfree. now rewrite Nat.sub_diag.
  - rewrite (Hbusy a) by lia.
    assert (Hlt : (Z.of_nat a <? Z.of_nat n - 1)%Z = true) by (apply Z.ltb_lt; lia).
    rewrite Hlt.
    rewrite (IH (S a) k) by (try lia; auto; intros i Hi; apply Hbusy; lia).
    assert (Hpos : (0 <? Z.of_nat (S a))%Z = true) by (apply Z.ltb_lt; lia).
    rewrite Hpos. replace (k - a)%nat with (S (k - S a)) by lia.
    cbn [seq flat_map]. reflexivity.
Qed.

Lemma retry_loop_exhausted {J} (server : nat -> get_outcome J) (n : nat) (return_json : bool) :
  forall m a,
    (a + S m = n)%nat ->
    (forall i, (a <= i < n)%nat -> rate_limited (server i) return_json = true) ->
    retry_loop server (List.map Z.of_nat (seq a (S m))) (Z.of_nat n) return_json
    = (None,
       ((if (0 <? Z.of_nat a)%Z then [Slept (2 ^ Z.of_nat a)] else [])
        ++ Requested
           :: flat_map (fun i => [Slept (2 ^ Z.of_nat i); Requested]) (seq (S a) m))%list).
Proof.
  induction m as [|m IH]; intros a Han Hbusy.
  - cbn [seq List.map retry_loop]. rewrite Nat2Z.id, try_request_cases.
    rewrite (Hbusy a) by lia.
    assert (Hlt : (Z.of_nat a <? Z.of_nat n - 1)%Z = false) by (apply Z.ltb_ge; lia).
    now rewrite Hlt.
  - change (seq a (S (S m))) with (a :: seq (S a) (S m)).
    cbn [List.map retry_loop]. rewrite Nat2Z.id, try_request_cases.
    rewrite (Hbusy a) by lia.
    assert (Hlt : (Z.of_nat a <? Z.of_nat n - 1)%Z = true) by (apply Z.ltb_lt; lia).
    rewrite Hlt.
    change (List.map Z.of_nat (seq (S a) (S m))) with (List.map Z.of_nat (seq (S a) (S m))).
    rewrite (IH (S a)) by (try lia; intros i Hi; apply Hbusy; lia).
    assert (Hpos : (0 <? Z.of_nat (S a))%Z = true) by (apply Z.ltb_lt; lia).
    rewrite Hpos. reflexivity.
Qed.

Lemma make_request_with_retry_nat {J} (server : nat -> get_outcome J) max_retries return_json :
  (0 <= max_retries)%Z ->
  make_request_with_retry server max_retries return_json
  = retry_loop server (List.map Z.of_nat (seq 0 (Z.to_nat max_retries)))
      (Z.of_nat (Z.to_nat max_retries)) return_json.
Proof. intros H. unfold make_request_with_retry, range. now rewrite Z2Nat.id. Qed.

(** X1: the call returns what the first attempt that is not rate
    limited gives, after one request per attempt and a wait of 2^attempt
    seconds before every attempt but the first. *)
Theorem make_request_with_retry_first_settled {J}
    (server : nat -> get_outcome J) (max_retries : Z) (return_json : bool) (k : nat) :
  (Z.of_nat k < max_retries)%Z ->
  (forall i, (i < k)%nat -> rate_limited (server i) return_json = true) ->
  rate_limited (server k) return_json = false ->
  make_request_with_retry server max_retries return_json
  = (answer (server k) return_json, backoff_trace k).
Proof.
  intros Hk Hbusy Hfree. rewrite make_request_with_retry_nat by lia.
  rewrite (retry_loop_settled server _ return_json _ 0%nat k); try lia; auto.
  - now rewrite Nat.sub_0_r.
  - intros i Hi. apply Hbusy. lia.
Qed.

Lemma make_request_with_retry_first_settled_witness :
  make_request_with_retry
    (fun i => if (i <? 1)%nat then throttling_server i
              else Responded {| status_code := 200; error_text := ""; json_body := Decoded "{}" |})
    3 true
  = (Some (Json "{}"), [Requested; Slept 2; Requested]).
Proof.
  refine (make_request_with_retry_first_settled _ 3 true 1%nat _ _ _).
  - lia.
  - intros i Hi. assert (i = 0%nat) as -> by lia. reflexivity.
  - reflexivity.
Defined.

Lemma slept_app (xs ys : list event) : slept (xs ++ ys) = (slept xs + slept ys)%Z.
Proof.
  induction xs as [|e xs IH]; [reflexivity|].
  destruct e; cbn [app slept fold_right]; fold (slept xs); fold (slept (xs ++ ys)); lia.
Qed.

Lemma slept_backoff (m : nat) :
  slept (flat_map (fun i => [Slept (2 ^ Z.of_nat i); Requested]) (seq 1 m))
  = (2 ^ (Z.of_nat m + 1) - 2)%Z.
Proof.
  induction m as [|m IH]; [reflexivity|].
  rewrite seq_S, flat_map_app, slept_app, IH. cbn [flat_map app slept fold_right].
  replace (Z.of_nat (S m) + 1)%Z with (Z.succ (Z.of_nat m + 1)) by lia.
  rewrite Z.pow_succ_r by lia.
  replace (Z.of_nat (1 + m)) with (Z.of_nat m + 1)%Z by lia. lia.
Qed.

(** X2: when every attempt is rate limited the call makes
    [max_retries] requests, waits 2^attempt seconds before each but the
    first, and returns [None]. *)
Theorem make_request_with_retry_gives_up {J}
    (server : nat -> get_outcome J) (max_retries : Z) (return_json : bool) :
  (0 < max_retries)%Z ->
  (forall i, (Z.of_nat i < max_retries)%Z -> rate_limited (server i) return_json = true) ->
  make_request_with_retry server max_retries return_json
  = (None, backoff_trace (Z.to_nat max_retries - 1))
  /\ slept (backoff_trace (Z.to_nat max_retries - 1)) = (2 ^ max_retries - 2)%Z.
Proof.
  intros Hpos Hbusy. rewrite make_request_with_retry_nat by lia.
  split.
  - destruct (Z.to_nat max_retries) as [|m] eqn:E; [lia|].
    rewrite (retry_loop_exhausted server (S m) return_json m 0%nat); try lia.
    + cbn [Z.of_nat Z.ltb Z.compare app]. now rewrite Nat.sub_succ, Nat.sub_0_r.
    + intros i Hi. apply Hbusy. lia.
  - unfold backoff_trace. cbn [slept fold_right].
    fold (slept (flat_map (fun i => [Slept (2 ^ Z.of_nat i); Requested])
                   (seq 1 (Z.to_nat max_retries - 1)))).
    rewrite slept_backoff. f_equal. f_equal. lia.
Qed.

Lemma make_request_with_retry_gives_up_witness :
  make_request_with_retry throttling_server 4 false
  = (None, [Requested; Slept 2; Requested; Slept 4; Requested; Slept 8; Requested])
  /\ slept (backoff_trace 3) = 14%Z.
Proof.
  refine (make_request_with_retry_gives_up throttling_server 4 false _ _).
  - lia.
  - intros i _. reflexivity.
Defined.

Lemma retry_loop_some {J} (server : nat -> get_outcome J) attempts max_retries return_json x events :
  retry_loop server attempts max_retries return_json = (Some x, events) ->
  exists a, In a attempts /\ answer (server (Z.to_nat a)) return_json = Some x.
Proof.
  revert events. induction attempts as [|a rest IH]; intros events; cbn [retry_loop].
  - discriminate.
  - rewrite try_request_cases.
    destruct (rate_limited (server (Z.to_nat a)) return_json).
    + destruct (a <? max_retries - 1)%Z.
      * destruct (retry_loop server rest max_retries return_json) as [y ev] eqn:E.
        intros [= -> _]. destruct (IH _ eq_refl) as (b & Hb & Hx).
        exists b. split; [now right|exact Hx].
      * discriminate.
    + intros [= Hx _]. exists a. split; [now left|exact Hx].
Qed.

(** X3: what the call hands back comes from a response whose status is
    not an error status: with [return_json] the decoded body of that
    response, without it the response itself. *)
Theorem make_request_with_retry_returns_ok {J}
    (server : nat -> get_outcome J) (max_retries : Z) (return_json : bool)
    (x : returned J) (events : list event) :
  make_request_with_retry server max_retries return_json = (Some x, events) ->
  exists (k : nat) (r : response J),
    (Z.of_nat k < max_retries)%Z
    /\ server k = Responded r
    /\ (status_code r < 400 \/ 600 <= status_code r)%Z
    /\ match x with
       | Json j => return_json = true /\ json_body r = Decoded j
       | Resp r' => return_json = false /\ r' = r
       end.
Proof.
  unfold make_request_with_retry. intros H.
  destruct (retry_loop_some _ _ _ _ _ _ H) as (a & Ha & Hx).
  unfold range in Ha. apply List.in_map_iff in Ha as (k & <- & Hk).
  apply List.in_seq in Hk. rewrite Nat2Z.id in Hx.
  exists k. unfold answer in Hx.
  destruct (server k) as [r|msg]; [|discriminate].
  exists r. split; [lia|]. split; [reflexivity|].
  unfold raise_for_status in Hx.
  destruct ((400 <=? status_code r) && (status_code r <? 600))%Z eqn:Es; [discriminate|].
  split.
  - apply andb_false_iff in Es as [Es|Es]; [apply Z.leb_gt in Es|apply Z.ltb_ge in Es]; lia.
  - destruct return_json.
    + destruct (json_body r); try discriminate. injection Hx as <-. auto.
    + injection Hx as <-. auto.
Qed.

Lemma make_request_with_retry_returns_ok_witness :
  exists (k : nat) (r : response string),
    (Z.of_nat k < 3)%Z
    /\ (fun i => if (i <? 1)%nat then throttling_server i
                 else Responded {| status_code := 200; error_text := ""; json_body := Decoded "{}" |}) k
       = Responded r
    /\ (status_code r < 400 \/ 600 <= status_code r)%Z
    /\ (true = true /\ json_body r = Decoded "{}").
Proof.
  refine (make_request_with_retry_returns_ok _ 3 true (Json "{}")
            [Requested; Slept 2; Requested] _).
  reflexivity.
Defined.

Lemma retry_loop_trace {J} (server : nat -> get_outcome J) (n : nat) (return_json : bool) :
  forall m a,
    (a + S m = n)%nat ->
    exists k,
      (a <= k < n)%nat
      /\ snd (retry_loop server (List.map Z.of_nat (seq a (S m))) (Z.of_nat n) return_json)
         = ((if (0 <? Z.of_nat a)%Z then [Slept (2 ^ Z.of_nat a)] else [])
            ++ Requested
               :: flat_map (fun i => [Slept (2 ^ Z.of_nat i); Requested]) (seq (S a) (k - a)))%list.
Proof.
  induction m as [|m IH]; intros a Han.
  - exists a. split; [lia|]. cbn [seq List.map retry_loop].
    rewrite Nat2Z.id, try_request_cases, Nat.sub_diag.
    assert (Hlt : (Z.of_nat a <? Z.of_nat n - 1)%Z = false) by (apply Z.ltb_ge; lia).
    rewrite Hlt. now destruct (rate_limited (server a) return_json).
  - change (seq a (S (S m))) with (a :: seq (S a) (S m)).
    cbn [List.map retry_loop]. rewrite Nat2Z.id, try_request_cases.
    destruct (rate_limited (server a) return_json).
    + assert (Hlt : (Z.of_nat a <? Z.of_nat n - 1)%Z = true) by (apply Z.ltb_lt; lia).
      rewrite Hlt. destruct (IH (S a) ltac:(lia)) as (k & Hk & Ek).
      destruct (retry_loop server (List.map Z.of_nat (seq (S a) (S m))) (Z.of_nat n) return_json)
        as [y ev].
      cbn [snd] in Ek |- *. exists k. split; [lia|]. rewrite Ek.
      assert (Hpos : (0 <? Z.of_nat (S a))%Z = true) by (apply Z.ltb_lt; lia).
      rewrite Hpos. replace (k - a)%nat with (S (k - S a)) by lia. reflexivity.
    + exists a. split; [lia|]. now rewrite Nat.sub_diag.
Qed.

(** X4: whatever the service does, the trace of a call is that of some
    attempt below [max_retries]: it starts with a request, every later
    request follows a wait of 2^attempt seconds, and it ends with a
    request.  With no attempt allowed nothing is requested. *)
Theorem make_request_with_retry_trace {J}
    (server : nat -> get_outcome J) (max_retries : Z) (return_json : bool) :
  ((max_retries <= 0)%Z
   /\ make_request_with_retry server max_retries return_json = (None, []))
  \/ exists k, (Z.of_nat k < max_retries)%Z
       /\ snd (make_request_with_retry server max_retries return_json) = backoff_trace k.
Proof.
  destruct (Z.le_gt_cases max_retries 0) as [Hle|Hgt].
  - left. split; [exact Hle|]. unfold make_request_with_retry, range.
    now replace (Z.to_nat max_retries) with 0%nat by lia.
  - right. rewrite make_request_with_retry_nat by lia.
    destruct (Z.to_nat max_retries) as [|m] eqn:E; [lia|].
    destruct (retry_loop_trace server (S m) return_json m 0%nat ltac:(lia)) as (k & Hk & Ek).
    exists k. split; [lia|]. rewrite Ek. cbn [Z.of_nat Z.ltb Z.compare app].
    now rewrite Nat.sub_0_r.
Qed.

(** ** Substrings and words *)

Lemma prefix_app (sub post : string) : String.prefix sub (sub ++ post) = true.
Proof.
  induction sub as [|c sub IH]; [now destruct post|].
  rewrite string_app_cons. cbn [String.prefix].
  destruct (ascii_dec c c) as [_|N]; [exact IH|congruence].
Qed.

Lemma contains_here (sub post : string) : contains sub (sub ++ post) = true.
Proof.
  destruct (sub ++ post)%string as [|c s] eqn:E.
  - destruct sub; [reflexivity|]. rewrite string_app_cons in E. discriminate.
  - cbn [contains]. rewrite <- E, prefix_app. reflexivity.
Qed.

Lemma contains_app (pre sub post : string) : contains sub (pre ++ sub ++ post) = true.
Proof.
  induction pre as [|c pre IH].
  - rewrite string_app_nil_l. apply contains_here.
  - rewrite string_app_cons. cbn [contains]. rewrite IH. apply orb_true_r.
Qed.

Lemma split_from_substring (w s : string) : forall cur,
  In w (split_from cur s) -> exists pre post, (cur ++ s = pre ++ w ++ post)%string.
Proof.
  induction s as [|c s IH]; intros cur; cbn [split_from].
  - destruct (is_empty cur); [intros []|]. intros [<-|[]].
    exists "", "". now rewrite string_app_nil_l.
  - destruct (is_space c).
    + assert (Hrest : In w (split_from "" s) ->
                      exists pre post, (cur ++ String c s = pre ++ w ++ post)%string).
      { intros H. destruct (IH _ H) as (pre & post & E).
        rewrite string_app_nil_l in E.
        exists (cur ++ String c pre)%string, post.
        now rewrite string_app_assoc, string_app_cons, <- E. }
      destruct (is_empty cur); [exact Hrest|].
      intros [<-|H]; [|now apply Hrest].
      exists "", (String c s). now rewrite string_app_nil_l.
    + intros H. destruct (IH _ H) as (pre & post & E).
      exists pre, post. rewrite <- E.
      now rewrite string_app_assoc, string_app_cons, string_app_nil_l.
Qed.

Lemma mem_In (w : string) (ws : list string) : mem w ws = true <-> In w ws.
Proof.
  unfold mem. rewrite existsb_exists. split.
  - intros (x & Hx & E). apply String.eqb_eq in E. now subst.
  - intros H. exists w. split; [exact H|apply String.eqb_refl].
Qed.

(** A word of a text is a substring of the text. *)
Lemma split_contains (w s : string) : In w (split s) -> contains w s = true.
Proof.
  intros H. destruct (split_from_substring w s "" H) as (pre & post & E).
  rewrite string_app_nil_l in E. rewrite E. apply contains_app.
Qed.

(** ** The medical terms of a query *)

Lemma medical_vocabulary_distinct : NoDup (medical_phrases ++ important_words).
Proof. apply (bool_decide_unpack _). vm_compute. exact I. Qed.

Lemma NoDup_filter_app {A} (f g : A -> bool) (xs ys : list A) :
  NoDup (xs ++ ys) -> NoDup (List.filter f xs ++ List.filter g ys).
Proof.
  intros H. eapply sublist_NoDup; [exact H|].
  apply sublist_app; apply sublist_List_filter.
Qed.

(** X5: the terms [extract_medical_terms] returns are those phrases of
    its vocabulary that occur in the query and those important words
    that are words of the query, each once; every one of them is a
    substring of the query, and turning the found terms into a set
    drops none of them. *)
Theorem extract_medical_terms_found (query : string) :
  NoDup (extract_medical_terms query)
  /\ (forall term, In term (extract_medical_terms query) <->
        (In term medical_phrases /\ contains term query = true)
        \/ (In term important_words /\ In term (split query)))
  /\ (forall term, In term (extract_medical_terms query) -> contains term query = true)
  /\ List.length (extract_medical_terms query)
     = (List.length (List.filter (fun phrase => contains phrase query) medical_phrases)
        + List.length (List.filter (fun word => mem word (split query)) important_words))%nat.
Proof.
  unfold extract_medical_terms.
  set (found := (List.filter (fun phrase => contains phrase query) medical_phrases
                 ++ List.filter (fun word => mem word (split query)) important_words)%list).
  assert (Hnd : NoDup found).
  { apply NoDup_filter_app, medical_vocabulary_distinct. }
  assert (Hin : forall term, In term (elements (list_to_set found : gset string)) <->
                  (In term medical_phrases /\ contains term query = true)
                  \/ (In term important_words /\ In term (split query))).
  { intros term. rewrite <- list_elem_of_In, elem_of_elements, elem_of_list_to_set.
    rewrite list_elem_of_In. unfold found. rewrite List.in_app_iff, !List.filter_In.
    now rewrite mem_In. }
  split; [apply NoDup_elements|]. split; [exact Hin|]. split.
  - intros term H. apply Hin in H as [[_ H]|[_ H]]; [exact H|now apply split_contains].
  - rewrite (Permutation_length (elements_list_to_set found Hnd)).
    unfold found. now rewrite List.length_app.
Qed.

(** ** The shape of a cleaned query *)

Lemma rstrip_no_space (w : string) : no_space w = true -> rstrip w = w.
Proof.
  induction w as [|c w IH]; [reflexivity|]. cbn [no_space rstrip].
  intros H. apply andb_true_iff in H as [Hc Hw]. apply negb_true_iff in Hc.
  now rewrite Hc, (IH Hw).
Qed.

Lemma rstrip_app_word (a w : string) : is_word w = true -> rstrip (a ++ w) = (a ++ w)%string.
Proof.
  intros Hw. unfold is_word in Hw. apply andb_true_iff in Hw as [Hne Hns].
  induction a as [|c a IH].
  - rewrite string_app_nil_l. now apply rstrip_no_space.
  - rewrite string_app_cons. cbn [rstrip]. rewrite IH.
    assert (E : is_empty (a ++ w) = false).
    { destruct a; [|reflexivity]. rewrite string_app_nil_l. now apply negb_true_iff. }
    rewrite E. now rewrite andb_false_r.
Qed.

Lemma lstrip_word_app (w b : string) : is_word w = true -> lstrip (w ++ b) = (w ++ b)%string.
Proof.
  destruct w as [|c w]; [discriminate|]. unfold is_word. cbn [is_empty negb no_space andb].
  intros H. apply andb_true_iff in H as [Hc _]. apply negb_true_iff in Hc.
  rewrite string_app_cons. cbn [lstrip]. now rewrite Hc.
Qed.

Lemma join_cons (w w' : string) (ws : list string) :
  join " " (w :: w' :: ws) = (w ++ " " ++ join " " (w' :: ws))%string.
Proof. reflexivity. Qed.

Lemma join_words_ends (ws : list string) :
  Forall (fun w => is_word w = true) ws -> ws <> [] ->
  (exists w b, is_word w = true /\ join " " ws = (w ++ b)%string)
  /\ (exists a w, is_word w = true /\ join " " ws = (a ++ w)%string).
Proof.
  induction 1 as [|w ws Hw Hws IH]; [congruence|]. intros _.
  destruct ws as [|w' ws].
  - split; [exists w, ""|exists "", w]; split; auto.
    + now rewrite string_app_empty_r.
  - destruct (IH ltac:(discriminate)) as [_ (a & z & Hz & E)].
    rewrite join_cons. split.
    + exists w, (" " ++ join " " (w' :: ws))%string. auto.
    + exists (w ++ " " ++ a)%string, z. split; [exact Hz|].
      now rewrite E, !string_app_assoc.
Qed.

Lemma strip_join (ws : list string) :
  Forall (fun w => is_word w = true) ws -> strip (join " " ws) = join " " ws.
Proof.
  intros H. destruct ws as [|w ws]; [reflexivity|].
  destruct (join_words_ends _ H ltac:(discriminate)) as [(x & b & Hx & Ex) (a & z & Hz & Ez)].
  unfold strip. rewrite Ex, (lstrip_word_app _ _ Hx), <- Ex, Ez. now apply rstrip_app_word.
Qed.

Lemma Forall_List_filter {A} (P : A -> Prop) (f : A -> bool) (xs : list A) :
  Forall P xs -> Forall P (List.filter f xs).
Proof.
  induction 1 as [|x xs Hx Hxs IH]; cbn [List.filter]; [constructor|].
  destruct (f x); auto.
Qed.

(** The cleaned query, on either path, is a list of words joined by
    single blanks. *)
Lemma clean_medical_query_joined (query : string) :
  exists ws, Forall (fun w => is_word w = true) ws
             /\ clean_medical_query query = join " " ws.
Proof.
  unfold clean_medical_query.
  destruct (List.length (split (cleaned_result query)) <? 2)%nat.
  - exists (firstn 6 (fallback_words query)). split; [|reflexivity].
    apply Forall_take, split_words.
  - exists (filter_stopwords (cleaned_words query)).
    assert (H : Forall (fun w => is_word w = true) (filter_stopwords (cleaned_words query))).
    { apply Forall_List_filter, split_words. }
    split; [exact H|]. unfold cleaned_result. now apply strip_join.
Qed.

(** X6: the cleaned query is in normal form: it is exactly its own
    words joined by single blanks, so it has no white space at either
    end and no two blanks in a row. *)
Theorem clean_medical_query_normal_form (query : string) :
  clean_medical_query query = join " " (split (clean_medical_query query))
  /\ strip (clean_medical_query query) = clean_medical_query query
  /\ Forall (fun w => is_word w = true) (split (clean_medical_query query)).
Proof.
  destruct (clean_medical_query_joined query) as (ws & Hws & E).
  rewrite E, (split_join _ Hws). split; [reflexivity|]. split; [|exact Hws].
  now apply strip_join.
Qed.

(** ** The case of a cleaned query *)

Lemma lower_char_idem (c : ascii) : lower_char (lower_char c) = lower_char c.
Proof. destruct c as [[] [] [] [] [] [] [] []]; reflexivity. Qed.

Lemma lower_idem (s : string) : lower (lower s) = lower s.
Proof.
  induction s as [|c s IH]; [reflexivity|]. cbn [lower]. now rewrite lower_char_idem, IH.
Qed.

Lemma lower_app (a b : string) : lower (a ++ b) = (lower a ++ lower b)%string.
Proof.
  induction a as [|c a IH]; [reflexivity|].
  rewrite string_app_cons. cbn [lower]. now rewrite IH, string_app_cons.
Qed.

Lemma lower_cons_inv c s : lower (String c s) = String c s -> lower_char c = c /\ lower s = s.
Proof. cbn [lower]. intros [= Hc Hs]. auto. Qed.

Lemma lower_lstrip (s : string) : lower s = s -> lower (lstrip s) = lstrip s.
Proof.
  induction s as [|c s IH]; [reflexivity|]. intros H.
  cbn [lstrip]. destruct (is_space c); [|exact H].
  apply lower_cons_inv in H as [_ H]. auto.
Qed.

Lemma lower_rstrip (s : string) : lower s = s -> lower (rstrip s) = rstrip s.
Proof.
  induction s as [|c s IH]; [reflexivity|]. intros H.
  apply lower_cons_inv in H as [Hc H]. cbn [rstrip].
  destruct (is_space c && is_empty (rstrip s)); [reflexivity|].
  cbn [lower]. now rewrite Hc, IH.
Qed.

Lemma lower_replace_from (old s : string) : forall skip,
  lower s = s -> lower (replace_from old "" skip s) = replace_from old "" skip s.
Proof.
  induction s as [|c s IH]; intros skip H; [reflexivity|].
  apply lower_cons_inv in H as [Hc H]. cbn [replace_from].
  destruct skip as [|k]; [|now apply IH].
  destruct (String.prefix old (String c s)).
  - rewrite string_app_nil_l. now apply IH.
  - cbn [lower]. now rewrite Hc, IH.
Qed.

Lemma lower_replace (old s : string) :
  is_empty old = false -> lower s = s -> lower (replace old "" s) = replace old "" s.
Proof. intros E H. unfold replace. rewrite E. now apply lower_replace_from. Qed.

Lemma lower_fold_replace (phrases : list string) : forall s,
  Forall (fun p => is_empty p = false) phrases -> lower s = s ->
  lower (fold_left (fun cleaned phrase => replace phrase "" cleaned) phrases s)
  = fold_left (fun cleaned phrase => replace phrase "" cleaned) phrases s.
Proof.
  induction phrases as [|p ps IH]; intros s Hps H; [exact H|].
  cbn [fold_left]. apply Forall_cons in Hps as [Hp Hps].
  apply IH; [exact Hps|]. now apply lower_replace.
Qed.

Lemma lower_split_from (s : string) : forall cur,
  lower cur = cur -> lower s = s -> Forall (fun w => lower w = w) (split_from cur s).
Proof.
  induction s as [|c s IH]; intros cur Hcur H; cbn [split_from].
  - destruct (is_empty cur); auto.
  - apply lower_cons_inv in H as [Hc H].
    destruct (is_space c).
    + destruct (is_empty cur); auto.
    + apply IH; [|exact H]. rewrite lower_app, Hcur. cbn [lower]. now rewrite Hc.
Qed.

Lemma lower_join (ws : list string) :
  Forall (fun w => lower w = w) ws -> lower (join " " ws) = join " " ws.
Proof.
  induction 1 as [|w ws Hw Hws IH]; [reflexivity|].
  destruct ws as [|w' ws]; [exact Hw|].
  rewrite join_cons, !lower_app, Hw, IH. reflexivity.
Qed.

Lemma lower_query_lower_of (query : string) :
  lower (query_lower_of query) = query_lower_of query.
Proof.
  unfold query_lower_of, strip. apply lower_rstrip, lower_lstrip, lower_idem.
Qed.

(** X7: the cleaned query holds no upper-case letter: lowering it again
    changes nothing. *)
Theorem clean_medical_query_lower (query : string) :
  lower (clean_medical_query query) = clean_medical_query query.
Proof.
  unfold clean_medical_query.
  destruct (List.length (split (cleaned_result query)) <? 2)%nat.
  - unfold fallback_result. apply lower_join, Forall_take.
    unfold fallback_words. apply (lower_split_from _ ""); [reflexivity|].
    apply lower_replace; [reflexivity|]. apply lower_replace; [reflexivity|].
    apply lower_query_lower_of.
  - unfold cleaned_result, strip. apply lower_rstrip, lower_lstrip, lower_join.
    apply Forall_List_filter. unfold cleaned_words.
    apply (lower_split_from _ ""); [reflexivity|].
    unfold strip_lead_phrases. apply lower_fold_replace.
    + repeat constructor.
    + apply lower_query_lower_of.
Qed.

(** ** The length of a cleaned query *)

Lemma string_length_app (a b : string) :
  String.length (a ++ b) = (String.length a + String.length b)%nat.
Proof.
  induction a as [|c a IH]; [reflexivity|].
  rewrite string_app_cons. cbn [String.length]. now rewrite IH.
Qed.

Lemma length_lower (s : string) : String.length (lower s) = String.length s.
Proof. induction s as [|c s IH]; [reflexivity|]. cbn [lower String.length]. now rewrite IH. Qed.

Lemma length_lstrip (s : string) : (String.length (lstrip s) <= String.length s)%nat.
Proof.
  induction s as [|c s IH]; [reflexivity|]. cbn [lstrip].
  destruct (is_space c); cbn [String.length]; lia.
Qed.

Lemma length_rstrip (s : string) : (String.length (rstrip s) <= String.length s)%nat.
Proof.
  induction s as [|c s IH]; [reflexivity|]. cbn [rstrip].
  destruct (is_space c && is_empty (rstrip s)); cbn [String.length]; lia.
Qed.

Lemma length_strip (s : string) : (String.length (strip s) <= String.length s)%nat.
Proof. unfold strip. pose proof (length_rstrip (lstrip s)). pose proof (length_lstrip s). lia. Qed.

Lemma length_replace_from (old s : string) : forall skip,
  (String.length (replace_from old "" skip s) <= String.length s)%nat.
Proof.
  induction s as [|c s IH]; intros skip; [reflexivity|]. cbn [replace_from].
  destruct skip as [|k].
  - destruct (String.prefix old (String c s)).
    + rewrite string_app_nil_l. specialize (IH (String.length old - 1)%nat).
      cbn [String.length]. lia.
    + specialize (IH 0%nat). cbn [String.length]. lia.
  - specialize (IH k). cbn [String.length]. lia.
Qed.

Lemma length_replace (old s : string) :
  is_empty old = false -> (String.length (replace old "" s) <= String.length s)%nat.
Proof. intros E. unfold replace. rewrite E. apply length_replace_from. Qed.

Lemma length_fold_replace (phrases : list string) : forall s,
  Forall (fun p => is_empty p = false) phrases ->
  (String.length (fold_left (fun cleaned phrase => replace phrase "" cleaned) phrases s)
   <= String.length s)%nat.
Proof.
  induction phrases as [|p ps IH]; intros s Hps; [reflexivity|].
  cbn [fold_left]. apply Forall_cons in Hps as [Hp Hps].
  specialize (IH (replace p "" s) Hps). pose proof (length_replace p s Hp). lia.
Qed.

Lemma length_join_cons (w : string) (ws : list string) :
  String.length (join " " (w :: ws))
  = (String.length w + match ws with [] => 0 | _ => 1 + String.length (join " " ws) end)%nat.
Proof.
  destruct ws as [|w' ws]; [cbn; lia|].
  rewrite join_cons, !string_length_app. reflexivity.
Qed.

Lemma length_join_sublist (ws ws' : list string) :
  ws' `sublist_of` ws ->
  (String.length (join " " ws') <= String.length (join " " ws))%nat.
Proof.
  induction 1 as [|x l1 l2 H IH|x l1 l2 H IH]; [reflexivity| |].
  - rewrite !length_join_cons. destruct l1 as [|y l1]; [lia|].
    destruct l2 as [|z l2]; [now apply sublist_nil_r in H|]. lia.
  - rewrite length_join_cons. destruct l2 as [|z l2]; [|lia].
    apply sublist_nil_r in H. subst. cbn. lia.
Qed.

Lemma length_join_split_from (s : string) : forall cur,
  (String.length (join " " (split_from cur s)) <= String.length cur + String.length s)%nat.
Proof.
  induction s as [|c s IH]; intros cur; cbn [split_from].
  - destruct (is_empty cur); cbn; lia.
  - destruct (is_space c).
    + specialize (IH ""). cbn [String.length] in IH |- *.
      destruct (is_empty cur); [lia|].
      rewrite length_join_cons. destruct (split_from "" s); lia.
    + specialize (IH (cur ++ String c "")%string).
      rewrite string_length_app in IH. cbn [String.length] in IH |- *. lia.
Qed.

Lemma length_join_split (s : string) :
  (String.length (join " " (split s)) <= String.length s)%nat.
Proof. apply (length_join_split_from s ""). Qed.

Lemma length_query_lower_of (query : string) :
  (String.length (query_lower_of query) <= String.length query)%nat.
Proof.
  unfold query_lower_of. pose proof (length_strip (lower query)).
  rewrite length_lower in H. exact H.
Qed.

(** X8: cleaning does not lengthen an ASCII question: the cleaned
    query has at most as many characters as the question.  (On other
    text [str.lower] can add characters.) *)
Theorem clean_medical_query_length (query : string) :
  is_ascii query = true ->
  (String.length (clean_medical_query query) <= String.length query)%nat.
Proof.
  intros _. pose proof (length_query_lower_of query) as Hq.
  unfold clean_medical_query.
  destruct (List.length (split (cleaned_result query)) <? 2)%nat.
  - unfold fallback_result, fallback_words.
    set (s := replace "what is the" "" (replace "what are the" "" (query_lower_of query))).
    pose proof (length_join_sublist (split s) (firstn 6 (split s)) (sublist_take _ _)).
    pose proof (length_join_split s).
    assert (String.length s <= String.length (query_lower_of query))%nat.
    { unfold s.
      pose proof (length_replace "what is the"
                    (replace "what are the" "" (query_lower_of query)) eq_refl).
      pose proof (length_replace "what are the" (query_lower_of query) eq_refl). lia. }
    lia.
  - unfold cleaned_result, cleaned_words.
    set (s := strip_lead_phrases (query_lower_of query)).
    pose proof (length_strip (join " " (filter_stopwords (split s)))).
    pose proof (length_join_sublist (split s) (filter_stopwords (split s))
                  (sublist_List_filter _ _)).
    pose proof (length_join_split s).
    assert (String.length s <= String.length (query_lower_of query))%nat.
    { unfold s, strip_lead_phrases. apply length_fold_replace. repeat constructor. }
    lia.
Qed.

Lemma clean_medical_query_length_witness :
  (String.length (clean_medical_query "What is the  treatment of Type 2 diabetes?")
   <= String.length "What is the  treatment of Type 2 diabetes?")%nat.
Proof.
  apply (clean_medical_query_length "What is the  treatment of Type 2 diabetes?").
  reflexivity.
Defined.

(** ** The range of a relevance score *)

(** Twice a number of points, as an integer. *)
Lemma phrase_points_halves title abstract fq :
  exists n : Z, (0 <= n <= 20)%Z
    /\ (phrase_points title abstract fq == inject_Z n / 2)%Q.
Proof.
  unfold phrase_points.
  destruct (contains fq title); [exists 20%Z; split; [lia|reflexivity]|].
  destruct (contains fq abstract); [exists 10%Z|exists 0%Z]; split; try lia; reflexivity.
Qed.

Lemma term_points_halves title abstract terms :
  exists n : Z, (0 <= n <= 6 * Z.of_nat (List.length terms))%Z
    /\ (sum_Q (List.map (term_points title abstract) terms) == inject_Z n / 2)%Q.
Proof.
  induction terms as [|t terms (n & Hn & E)].
  - exists 0%Z. split; [cbn; lia|reflexivity].
  - assert (Hs : (sum_Q (List.map (term_points title abstract) (t :: terms))
                  == term_points title abstract t + inject_Z n / 2)%Q).
    { cbn [List.map sum_Q fold_right].
      fold (sum_Q (List.map (term_points title abstract) terms)). now rewrite E. }
    cbn [List.length]. unfold term_points in Hs.
    destruct (contains t title); [exists (n + 6)%Z|destruct (contains t abstract);
      [exists (n + 3)%Z|exists n]];
      (split; [lia|]); rewrite Hs, ?inject_Z_plus; field.
Qed.

Lemma word_matches_range (qw : gset string) text :
  exists m : Z, (0 <= m <= Z.of_nat (size qw))%Z /\ word_matches qw text = inject_Z m.
Proof.
  unfold word_matches. eexists. split; [|reflexivity]. split; [lia|].
  apply Nat2Z.inj_le, subseteq_size, intersection_subseteq_l.
Qed.

Lemma completeness_points_halves abstract :
  exists n : Z, (0 <= n <= 2)%Z /\ (completeness_points abstract == inject_Z n / 2)%Q.
Proof.
  unfold completeness_points.
  destruct (is_empty abstract); [exists 0%Z; split; [lia|reflexivity]|].
  destruct (abstract =? no_abstract)%string; [exists 0%Z|exists 2%Z];
    split; try lia; reflexivity.
Qed.

Lemma calculate_relevance_score_scorable article qw mt fq score :
  calculate_relevance_score article qw mt fq = Ok score -> scorable article = true.
Proof.
  unfold calculate_relevance_score, get_lower, scorable, text_or_absent.
  destruct (article !! "title") as [[t| |x]|]; cbn [rbind]; try discriminate;
    destruct (article !! "abstract") as [[a| |y]|]; cbn [rbind]; try discriminate; reflexivity.
Qed.

(** X9: a relevance score is a whole number of halves, at least 0.5
    and at most 11.5 + 3 per medical term + 2.5 per query word. *)
Theorem calculate_relevance_score_range
    (article : dict) (query_words : gset string)
    (medical_terms : list string) (full_query : string) (score : Q) :
  calculate_relevance_score article query_words medical_terms full_query = Ok score ->
  exists n : Z,
    (score == inject_Z n / 2)%Q
    /\ (1 <= n <= 23 + 6 * Z.of_nat (List.length medical_terms)
                  + 5 * Z.of_nat (size query_words))%Z.
Proof.
  intros H. pose proof (calculate_relevance_score_scorable _ _ _ _ _ H) as Hs.
  destruct (calculate_relevance_score_ok article query_words medical_terms full_query Hs)
    as (s & Es & Hv).
  rewrite H in Es. injection Es as <-. unfold reference_score in Hv.
  set (title := lower (text_of article "title")) in *.
  set (abstract := lower (text_of article "abstract")) in *.
  destruct (phrase_points_halves title abstract full_query) as (p & Hp & Ep).
  destruct (term_points_halves title abstract medical_terms) as (t & Ht & Et).
  destruct (word_matches_range query_words title) as (wt & Hwt & Ewt).
  destruct (word_matches_range query_words abstract) as (wa & Hwa & Ewa).
  destruct (completeness_points_halves abstract) as (c & Hc & Ec).
  exists (p + t + 4 * wt + wa + c + 1)%Z. split; [|lia].
  rewrite Hv, Ep, Et, Ewt, Ewa, Ec.
  rewrite !inject_Z_plus, inject_Z_mult. change (inject_Z 4) with 4%Q.
  change (inject_Z 1) with 1%Q. field.
Qed.

Lemma calculate_relevance_score_range_witness :
  exists n : Z,
    (score_for "metformin" sample_metformin == inject_Z n / 2)%Q
    /\ (1 <= n <= 23 + 6 * Z.of_nat (List.length (extract_medical_terms "metformin"))
                  + 5 * Z.of_nat (size (list_to_set (split "metformin") : gset string)))%Z.
Proof.
  refine (calculate_relevance_score_range sample_metformin
            (list_to_set (split "metformin")) (extract_medical_terms "metformin")
            "metformin" (score_for "metformin" sample_metformin) _).
  apply (score_for_ok "metformin"). reflexivity.
Defined.

(** ** Missing and ill-typed fields *)

Lemma get_lower_insert_same (article : dict) (key : string) :
  article !! key = None ->
  get_lower (<[key := VStr ""]> article) key = get_lower article key.
Proof. intros H. unfold get_lower. now rewrite lookup_insert_eq, H. Qed.

Lemma get_lower_insert_other (article : dict) (key key' : string) (v : value) :
  key <> key' -> get_lower (<[key := v]> article) key' = get_lower article key'.
Proof. intros H. unfold get_lower. now rewrite lookup_insert_ne. Qed.

(** X10: [calculate_relevance_score] raises exactly when the title or
    the abstract of the article is there and is [None] or a float, and
    then it raises [AttributeError]; an article without a title or
    without an abstract is scored like one whose title or abstract is
    empty. *)
Theorem calculate_relevance_score_fields
    (article : dict) (query_words : gset string)
    (medical_terms : list string) (full_query : string) :
  (calculate_relevance_score article query_words medical_terms full_query
   = Raise AttributeError
   <-> exists key v,
         (key = "title" \/ key = "abstract") /\ article !! key = Some v
         /\ (v = VNone \/ exists x, v = VFloat x))
  /\ (forall e,
        calculate_relevance_score article query_words medical_terms full_query = Raise e ->
        e = AttributeError)
  /\ (article !! "title" = None ->
      calculate_relevance_score (<["title" := VStr ""]> article)
        query_words medical_terms full_query
      = calculate_relevance_score article query_words medical_terms full_query)
  /\ (article !! "abstract" = None ->
      calculate_relevance_score (<["abstract" := VStr ""]> article)
        query_words medical_terms full_query
      = calculate_relevance_score article query_words medical_terms full_query).
Proof.
  split; [|split; [|split]].
  - rewrite <- calculate_relevance_score_unscorable. apply unscorable_cases.
  - unfold calculate_relevance_score, get_lower. intros e.
    destruct (article !! "title") as [[t| |x]|]; cbn [rbind];
      destruct (article !! "abstract") as [[a| |y]|]; cbn [rbind];
      intros H; try discriminate; now injection H as <-.
  - intros H. unfold calculate_relevance_score.
    rewrite (get_lower_insert_same _ _ H).
    now rewrite (get_lower_insert_other article "title" "abstract") by discriminate.
  - intros H. unfold calculate_relevance_score.
    rewrite (get_lower_insert_same _ _ H).
    now rewrite (get_lower_insert_other article "abstract" "title") by discriminate.
Qed.

(** ** What a score depends on *)

(** X11: the score of an article for a query depends on the query, the
    title and the abstract only through their lower-case forms, and on
    no other field of the article. *)
Theorem score_for_case_insensitive (q1 q2 : string) (d1 d2 : dict) :
  scorable d1 = true -> scorable d2 = true ->
  lower q1 = lower q2 ->
  lower (text_of d1 "title") = lower (text_of d2 "title") ->
  lower (text_of d1 "abstract") = lower (text_of d2 "abstract") ->
  score_for q1 d1 = score_for q2 d2.
Proof.
  intros H1 H2 Hq Ht Ha. unfold score_for, calculate_relevance_score.
  apply andb_true_iff in H1 as [H1t H1a]. apply andb_true_iff in H2 as [H2t H2a].
  rewrite !get_lower_text by assumption.
  now rewrite Hq, Ht, Ha.
Qed.

Lemma score_for_case_insensitive_witness :
  score_for "Metformin SIDE effects" sample_metformin
  = score_for "metformin side effects"
      {[ "title" := VStr "METFORMIN IN THE ELDERLY";
         "abstract" := VStr "metformin side effects are mild.";
         "pmid" := VStr "77" ]}.
Proof.
  refine (score_for_case_insensitive _ _ _ _ _ _ _ _ _); reflexivity.
Defined.

(** ** Ranking a ranked list again *)

Lemma score_for_with_score q q' d : score_for q (with_score q' d) = score_for q d.
Proof.
  unfold score_for, with_score, calculate_relevance_score.
  now rewrite !get_lower_insert_other by discriminate.
Qed.

Lemma with_score_idem q d : with_score q (with_score q d) = with_score q d.
Proof.
  unfold with_score at 1. rewrite score_for_with_score.
  unfold with_score. apply insert_insert_eq.
Qed.

Lemma stable_sort_desc_sorted_id {A} (l : list (Q * A)) :
  StronglySorted key_ge l -> stable_sort_desc l = l.
Proof.
  induction 1 as [|x l Hl IH Hx]; [reflexivity|].
  cbn [stable_sort_desc fold_right]. fold (stable_sort_desc l). rewrite IH.
  destruct l as [|y rest]; [reflexivity|]. cbn [insert_desc].
  apply Forall_cons in Hx as [Hxy _]. unfold key_ge in Hxy.
  apply Qle_bool_iff in Hxy. now rewrite Hxy.
Qed.

Lemma map_id_on {A} (f : A -> A) (xs : list A) :
  Forall (fun x => f x = x) xs -> List.map f xs = xs.
Proof. induction 1 as [|x xs Hx _ IH]; [reflexivity|]. cbn [List.map]. now rewrite Hx, IH. Qed.

(** The ranked records, scored again, are keyed as before. *)
Lemma rescored q ds :
  List.map (fun d => (score_for q d, with_score q d))
    (List.map snd (stable_sort_desc
       (List.map (fun d => (score_for q d, with_score q d)) ds)))
  = stable_sort_desc (List.map (fun d => (score_for q d, with_score q d)) ds).
Proof.
  set (L := List.map (fun d => (score_for q d, with_score q d)) ds).
  rewrite List.map_map. apply map_id_on.
  assert (HL : Forall (fun p : Q * dict =>
                         (score_for q (snd p), with_score q (snd p)) = p) L).
  { unfold L. apply List.Forall_forall. intros p Hp.
    apply List.in_map_iff in Hp as (d & <- & _). cbn [snd].
    now rewrite score_for_with_score, with_score_idem. }
  apply List.Forall_forall. intros p Hp. revert p Hp. apply List.Forall_forall.
  eapply Permutation_Forall; [|exact HL].
  symmetry. apply stable_sort_desc_perm.
Qed.

(** X12: ranking a ranked list again, for the same query, gives a new
    list with the same records in the same order, and leaves the first
    result as it was. *)
Theorem score_articles_by_relevance_idempotent (h : store) (articles : loc) (query : string) :
  scorable_list h articles = true ->
  exists out1 h1 out2 h2,
    score_articles_by_relevance articles query h = (Ok out1, h1)
    /\ score_articles_by_relevance out1 query h1 = (Ok out2, h2)
    /\ out2 <> out1
    /\ records_at h2 out2 = records_at h1 out1
    /\ list_at h2 out1 = list_at h1 out1
    /\ records_at h2 out1 = records_at h1 out1.
Proof.
  intros Hs.
  destruct (score_articles_by_relevance_spec h articles query Hs)
    as (out1 & h1 & E1 & Hout1 & Hframe1 & Hl1 & Hc1 & Hnd1 & Hr1).
  destruct (scorable_list_inv _ _ Hs) as (_ & _ & Hsc).
  assert (Hs1 : scorable_list h1 out1 = true).
  { unfold scorable_list, is_list. rewrite Hl1. cbn [andb].
    apply andb_true_iff. split.
    - apply forallb_forall. intros c Hc.
      rewrite List.Forall_forall in Hc1. now destruct (Hc1 c Hc) as (_ & _ & ?).
    - rewrite Hr1. apply forallb_forall. intros r Hr.
      apply List.in_map_iff in Hr as (p & <- & Hp).
      assert (Hp' : In p (List.map (fun d => (score_for query d, with_score query d))
                            (records_at h articles))).
      { eapply Permutation_in; [apply stable_sort_desc_perm|exact Hp]. }
      apply List.in_map_iff in Hp' as (d & <- & Hd). cbn [snd].
      rewrite scorable_with_score.
      rewrite List.Forall_forall in Hsc. now apply Hsc. }
  destruct (score_articles_by_relevance_spec h1 out1 query Hs1)
    as (out2 & h2 & E2 & Hout2 & Hframe2 & Hl2 & Hc2 & Hnd2 & Hr2).
  assert (Hdom1 : out1 ∈ dom h1) by (apply elem_of_dom; eauto).
  exists out1, h1, out2, h2. split; [exact E1|]. split; [exact E2|].
  split; [intros ->; contradiction|].
  split; [|split].
  - rewrite Hr2, Hr1, rescored. f_equal. apply stable_sort_desc_sorted_id.
    apply stable_sort_desc_sorted.
  - unfold list_at. now rewrite (Hframe2 out1 Hdom1).
  - unfold records_at, list_at. rewrite (Hframe2 out1 Hdom1), Hl1.
    apply List.map_ext_in. intros c Hc. unfold dict_at.
    rewrite List.Forall_forall in Hc1. destruct (Hc1 c Hc) as (_ & _ & Hd).
    assert (Hdc : c ∈ dom h1).
    { apply elem_of_dom. unfold is_dict in Hd. destruct (h1 !! c); [eauto|discriminate]. }
    now rewrite (Hframe2 c Hdc).
Qed.

Lemma score_articles_by_relevance_idempotent_witness :
  exists out1 h1 out2 h2,
    score_articles_by_relevance 4%positive "metformin side effects" sample_store = (Ok out1, h1)
    /\ score_articles_by_relevance out1 "metformin side effects" h1 = (Ok out2, h2)
    /\ out2 <> out1
    /\ records_at h2 out2 = records_at h1 out1
    /\ list_at h2 out1 = list_at h1 out1
    /\ records_at h2 out1 = records_at h1 out1.
Proof.
  apply (score_articles_by_relevance_idempotent sample_store 4%positive). vm_compute. reflexivity.
Defined.

(** ** Ranking a list with an ill-typed article *)

(** X13: when an article of the list has a title or an abstract that
    is [None] or a float, [score_articles_by_relevance] raises
    [AttributeError]; the caller's list and articles are as they
    were. *)
Theorem score_articles_by_relevance_attribute_error
    (h : store) (articles : loc) (query : string) :
  is_list h articles = true ->
  forallb (is_dict h) (list_at h articles) = true ->
  Exists ill_typed (records_at h articles) ->
  exists h',
    score_articles_by_relevance articles query h = (Raise AttributeError, h')
    /\ (forall l, l ∈ dom h -> h' !! l = h !! l).
Proof.
  intros Hlist Hdicts Hbad.
  apply score_articles_by_relevance_raises; [exact Hlist|exact Hdicts|].
  destruct (forallb scorable (records_at h articles)) eqn:Hs; [exfalso|reflexivity].
  apply List.Exists_exists in Hbad as (d & Hd & Hill).
  rewrite forallb_forall in Hs. specialize (Hs d Hd).
  apply unscorable_cases in Hill. congruence.
Qed.

Lemma score_articles_by_relevance_attribute_error_witness :
  exists h',
    score_articles_by_relevance 2%positive "metformin"
      ({[ 1%positive := ODict {[ "title" := VNone; "pmid" := VStr "9" ]};
          2%positive := OList [1%positive] ]} : store)
    = (Raise AttributeError, h')
    /\ (forall l,
          l ∈ dom ({[ 1%positive := ODict {[ "title" := VNone; "pmid" := VStr "9" ]};
                      2%positive := OList [1%positive] ]} : store) ->
          h' !! l
          = ({[ 1%positive := ODict {[ "title" := VNone; "pmid" := VStr "9" ]};
                2%positive := OList [1%positive] ]} : store) !! l).
Proof.
  apply score_articles_by_relevance_attribute_error; [reflexivity|reflexivity|].
  apply Exists_cons_hd. exists "title", VNone.
  split; [now left|]. split; [reflexivity|now left].
Defined.

(** ** What a retrieval returns *)

Lemma StronglySorted_app_split {A} (R : A -> A -> Prop) (l1 l2 : list A) :
  StronglySorted R (l1 ++ l2) ->
  StronglySorted R l1 /\ Forall (fun a => Forall (R a) l2) l1.
Proof.
  induction l1 as [|a l1 IH]; cbn [app].
  - intros _. split; constructor.
  - intros H. apply StronglySorted_inv in H as [Hs Ha].
    destruct (IH Hs) as [IH1 IH2]. apply Forall_app in Ha as [Ha1 Ha2].
    split; constructor; auto.
Qed.

Section Retrieval.
Variable pubmed : string -> Z -> string -> list dict.

(** The records of a retrieval whose articles go through: the merged
    records, scored, sorted and cut. *)
Lemma retrievable_inv (ds : list dict) :
  Forall (fun d => retrievable d = true) ds ->
  Forall (fun d => has_pmid d = true) ds
  /\ forallb scorable ds = true
  /\ Forall (fun d => has_title d = true) ds.
Proof.
  intros H. split; [|split].
  - eapply Forall_impl; [exact H|]. cbv beta. intros d Hd.
    unfold retrievable in Hd. now apply andb_true_iff in Hd as [[? _]%andb_true_iff _].
  - apply forallb_forall. intros d Hd. rewrite List.Forall_forall in H.
    specialize (H d Hd). unfold retrievable in H.
    now apply andb_true_iff in H as [[_ ?]%andb_true_iff _].
  - eapply Forall_impl; [exact H|]. cbv beta. intros d Hd.
    unfold retrievable in Hd. now apply andb_true_iff in Hd as [_ ?].
Qed.

Lemma has_title_with_score q d : has_title (with_score q d) = has_title d.
Proof. unfold has_title, with_score. now rewrite lookup_insert_ne by discriminate. Qed.

Lemma get_pubmed_articles_records (h : store) (query : string) (max_results : Z) :
  let cleaned_query := clean_medical_query query in
  let initial_fetch := Z.min (max_results * 3) 15 in
  let primary := pubmed cleaned_query initial_fetch "relevance" in
  let recent :=
    pubmed cleaned_query (initial_fetch - Z.of_nat (List.length primary)) "pub_date" in
  let merged := merged_records primary recent initial_fetch in
  Forall (fun d => retrievable d = true) primary ->
  Forall (fun d => retrievable d = true) recent ->
  exists out h',
    get_pubmed_articles pubmed query max_results h = (Ok out, h')
    /\ h !! out = None
    /\ (forall x o, h !! x = Some o -> h' !! x = Some o)
    /\ h' !! out = Some (OList (list_at h' out))
    /\ records_at h' out
       = py_slice_to
           (List.map snd (stable_sort_desc
              (List.map (fun d => (score_for query d, with_score query d)) merged)))
           max_results.
Proof.
  intros cleaned_query initial_fetch primary recent merged Hwp Hwr.
  pose proof (merged_records_Forall _ primary recent initial_fetch Hwp Hwr) as Hm.
  fold merged in Hm. apply retrievable_inv in Hm as (_ & Hsc & Htitle).
  apply retrievable_inv in Hwp as (Hp & _ & _). apply retrievable_inv in Hwr as (Hr & _ & _).
  destruct (get_pubmed_articles_run pubmed h query max_results Hp Hr)
    as (r & h' & E & Hkeep & _ & Hout).
  fold cleaned_query initial_fetch primary recent merged in Hout.
  destruct r as [out|e].
  - destruct Hout as (Hnew & Hlist & Hrec & _ & _).
    exists out, h'. auto.
  - exfalso. destruct Hout as [[_ Hbad]|(_ & _ & Hbad)]; [congruence|].
    apply forallb_false_Exists, List.Exists_exists in Hbad as (t & Ht & Hs).
    apply top_records_In in Ht as (d & Hd & ->).
    rewrite has_title_with_score in Hs.
    rewrite List.Forall_forall in Htitle. specialize (Htitle d Hd). congruence.
Qed.

(** The selected records: the best of the merged ones. *)
Lemma top_records_best (query : string) (merged : list dict) (max_results : Z) :
  (0 <= max_results)%Z ->
  let top := top_records query merged max_results in
  exists rest,
    Permutation (top ++ rest) (List.map (with_score query) merged)
    /\ List.length top = Nat.min (Z.to_nat max_results) (List.length merged)
    /\ StronglySorted (fun a b => (relevance_of b <= relevance_of a)%Q) top
    /\ Forall (fun a => Forall (fun b => (relevance_of b <= relevance_of a)%Q) rest) top
    /\ Forall (fun r => r !! "relevance_score" = Some (VFloat (relevance_of r))) top.
Proof.
  intros Hmax top. unfold top, top_records.
  set (ps := stable_sort_desc
               (List.map (fun d => (score_for query d, with_score query d)) merged)).
  assert (Hslice : py_slice_to (List.map snd ps) max_results
                   = firstn (Z.to_nat max_results) (List.map snd ps)).
  { unfold py_slice_to. destruct (max_results <? 0)%Z eqn:C; [|reflexivity].
    apply Z.ltb_lt in C. lia. }
  rewrite Hslice.
  assert (Hk : Forall keyed_by_relevance ps).
  { eapply Permutation_Forall; [symmetry; apply stable_sort_desc_perm|apply scored_keyed]. }
  pose proof (sorted_by_relevance ps Hk (stable_sort_desc_sorted _)) as Hsorted.
  rewrite <- (firstn_skipn (Z.to_nat max_results) (List.map snd ps)) in Hsorted.
  apply StronglySorted_app_split in Hsorted as [Hs1 Hs2].
  exists (skipn (Z.to_nat max_results) (List.map snd ps)).
  split; [|split; [|split; [exact Hs1|split; [exact Hs2|]]]].
  - rewrite firstn_skipn. unfold ps.
    rewrite (stable_sort_desc_perm _). now rewrite map_snd_scored.
  - rewrite List.length_firstn, List.length_map. unfold ps.
    now rewrite (Permutation_length (stable_sort_desc_perm _)), List.length_map.
  - apply Forall_take. apply List.Forall_forall. intros r Hr.
    apply List.in_map_iff in Hr as (p & <- & Hp).
    assert (Hp' : In p (List.map (fun d => (score_for query d, with_score query d)) merged)).
    { eapply Permutation_in; [apply stable_sort_desc_perm|exact Hp]. }
    apply List.in_map_iff in Hp' as (d & <- & _). cbn [snd].
    rewrite relevance_of_with_score. unfold with_score. apply lookup_insert_eq.
Qed.

(** X14: what a retrieval does with articles that carry a pmid.  When
    every merged article has a title and text or nothing for the
    abstract, it returns the [max_results] best merged records (all of
    them when there are fewer): each carries its relevance score, they
    come by decreasing score, and no record left out scores higher than
    a returned one.  When a merged article has a title or an abstract
    that is [None] or a float, it raises [AttributeError], out of the
    scorer.  When the scorer can read the merged articles but a
    selected one has no title, it raises [KeyError], out of the report.
    The objects of the caller are left as they were. *)
Theorem get_pubmed_articles_top_results (h : store) (query : string) (max_results : Z) :
  let cleaned_query := clean_medical_query query in
  let initial_fetch := Z.min (max_results * 3) 15 in
  let primary := pubmed cleaned_query initial_fetch "relevance" in
  let recent :=
    pubmed cleaned_query (initial_fetch - Z.of_nat (List.length primary)) "pub_date" in
  let merged := merged_records primary recent initial_fetch in
  (0 <= max_results)%Z ->
  Forall (fun d => has_pmid d = true) primary ->
  Forall (fun d => has_pmid d = true) recent ->
  exists r h',
    get_pubmed_articles pubmed query max_results h = (r, h')
    /\ (forall x o, h !! x = Some o -> h' !! x = Some o)
    /\ (Forall (fun d => retrievable d = true) merged ->
        exists out rest,
          r = Ok out
          /\ records_at h' out = top_records query merged max_results
          /\ Permutation (records_at h' out ++ rest) (List.map (with_score query) merged)
          /\ List.length (records_at h' out)
             = Nat.min (Z.to_nat max_results) (List.length merged)
          /\ StronglySorted (fun a b => (relevance_of b <= relevance_of a)%Q)
               (records_at h' out)
          /\ Forall (fun a => Forall (fun b => (relevance_of b <= relevance_of a)%Q) rest)
               (records_at h' out)
          /\ Forall (fun r => r !! "relevance_score" = Some (VFloat (relevance_of r)))
               (records_at h' out))
    /\ (Exists ill_typed merged -> r = Raise AttributeError)
    /\ (Forall (fun d => scorable d = true) merged ->
        Exists (fun t => t !! "title" = None) (top_records query merged max_results) ->
        r = Raise (KeyError "title")).
Proof.
  intros cleaned_query initial_fetch primary recent merged Hmax Hp Hr.
  destruct (get_pubmed_articles_run pubmed h query max_results Hp Hr)
    as (r & h' & E & Hkeep & _ & Hout).
  fold cleaned_query initial_fetch primary recent merged in Hout.
  exists r, h'. split; [exact E|]. split; [exact Hkeep|].
  split; [|split].
  - intros Hret. apply retrievable_inv in Hret as (_ & Hsc & Htitle).
    destruct r as [out|e].
    + destruct Hout as (_ & _ & Hrec & _ & _).
      destruct (top_records_best query merged max_results Hmax) as (rest & H).
      exists out, rest. rewrite Hrec. auto.
    + exfalso. destruct Hout as [[_ Hbad]|(_ & _ & Hbad)]; [congruence|].
      apply forallb_false_Exists, List.Exists_exists in Hbad as (t & Ht & Hs).
      apply top_records_In in Ht as (d & Hd & ->).
      rewrite has_title_with_score in Hs.
      rewrite List.Forall_forall in Htitle. specialize (Htitle d Hd). congruence.
  - intros Hex.
    assert (Hbad : forallb scorable merged = false).
    { apply List.Exists_exists in Hex as (d & Hd & Hill).
      apply unscorable_cases in Hill.
      destruct (forallb scorable merged) eqn:Hs; [|reflexivity].
      rewrite forallb_forall in Hs. specialize (Hs d Hd). congruence. }
    destruct r as [out|e].
    + destruct Hout as (_ & _ & _ & Hs & _). congruence.
    + destruct Hout as [[-> _]|(_ & Hs & _)]; [reflexivity|congruence].
  - intros Hsc Hex.
    assert (Hs : forallb scorable merged = true).
    { apply forallb_forall. rewrite List.Forall_forall in Hsc. exact Hsc. }
    assert (Hbad : forallb has_title (top_records query merged max_results) = false).
    { apply List.Exists_exists in Hex as (t & Ht & Hnone).
      destruct (forallb has_title (top_records query merged max_results)) eqn:Hf;
        [|reflexivity].
      rewrite forallb_forall in Hf. specialize (Hf t Ht).
      unfold has_title in Hf. rewrite Hnone in Hf. discriminate. }
    destruct r as [out|e].
    + destruct Hout as (_ & _ & _ & _ & Ht). congruence.
    + destruct Hout as [[_ Hs']|(-> & _ & _)]; [congruence|reflexivity].
Qed.

(** X15: when neither search finds an article the retrieval returns a
    new empty list, without scoring anything. *)
Theorem get_pubmed_articles_no_articles (h : store) (query : string) (max_results : Z) :
  let cleaned_query := clean_medical_query query in
  let initial_fetch := Z.min (max_results * 3) 15 in
  pubmed cleaned_query initial_fetch "relevance" = [] ->
  pubmed cleaned_query initial_fetch "pub_date" = [] ->
  exists out h',
    get_pubmed_articles pubmed query max_results h = (Ok out, h')
    /\ h !! out = None
    /\ h' !! out = Some (OList [])
    /\ (forall x o, h !! x = Some o -> h' !! x = Some o).
Proof.
  intros cleaned_query initial_fetch Hp Hr.
  destruct (get_pubmed_articles_records h query max_results)
    as (out & h' & E & Hnew & Hkeep & Hlist & Hrec).
  - fold cleaned_query initial_fetch. rewrite Hp. constructor.
  - fold cleaned_query initial_fetch. rewrite Hp. cbn [List.length Z.of_nat].
    rewrite Z.sub_0_r, Hr. constructor.
  - exists out, h'. split; [exact E|]. split; [exact Hnew|]. split; [|exact Hkeep].
    fold cleaned_query initial_fetch in Hrec. rewrite Hp in Hrec.
    cbn [List.length Z.of_nat] in Hrec. rewrite Z.sub_0_r, Hr in Hrec.
    assert (Hnil : records_at h' out = []).
    { rewrite Hrec.
      assert (Hm : merged_records [] [] initial_fetch = []).
      { unfold merged_records. now destruct (_ <? _)%Z. }
      rewrite Hm. cbn [List.map stable_sort_desc fold_right].
      unfold py_slice_to. destruct (max_results <? 0)%Z; apply List.firstn_nil. }
    unfold records_at in Hnil. apply List.map_eq_nil in Hnil.
    now rewrite Hlist, Hnil.
Qed.

Lemma length_List_filter {A} (f : A -> bool) (xs : list A) :
  (List.length (List.filter f xs) <= List.length xs)%nat.
Proof.
  induction xs as [|x xs IH]; [reflexivity|]. cbn [List.filter].
  destruct (f x); cbn [List.length]; lia.
Qed.

(** X30: the quota.  When the service returns at most as many articles
    as a request asks for, each with a pmid, a title and text or nothing
    for the abstract, at most min(3 * max_results, 15) articles are
    merged and scored, and at most min(max_results, 15) are returned. *)
Theorem get_pubmed_articles_quota (h : store) (query : string) (max_results : Z) :
  let cleaned_query := clean_medical_query query in
  let initial_fetch := Z.min (max_results * 3) 15 in
  let primary := pubmed cleaned_query initial_fetch "relevance" in
  let recent :=
    pubmed cleaned_query (initial_fetch - Z.of_nat (List.length primary)) "pub_date" in
  (0 <= max_results)%Z ->
  (forall q n s, (List.length (pubmed q n s) <= Z.to_nat n)%nat) ->
  (forall q n s, Forall (fun d => retrievable d = true) (pubmed q n s)) ->
  exists out h',
    get_pubmed_articles pubmed query max_results h = (Ok out, h')
    /\ (List.length (merged_records primary recent initial_fetch)
        <= Z.to_nat initial_fetch)%nat
    /\ (List.length (records_at h' out) <= Z.to_nat (Z.min max_results 15))%nat.
Proof.
  intros cleaned_query initial_fetch primary recent Hmax Hquota Hwf.
  destruct (get_pubmed_articles_records h query max_results (Hwf _ _ _) (Hwf _ _ _))
    as (out & h' & E & _ & _ & _ & Hrec).
  fold cleaned_query initial_fetch primary recent in Hrec.
  assert (Hmerged : (List.length (merged_records primary recent initial_fetch)
                     <= Z.to_nat initial_fetch)%nat).
  { unfold merged_records.
    pose proof (Hquota cleaned_query initial_fetch "relevance") as Hp. fold primary in Hp.
    destruct (Z.of_nat (List.length primary) <? initial_fetch)%Z eqn:C; [|exact Hp].
    apply Z.ltb_lt in C. rewrite List.length_app.
    pose proof (Hquota cleaned_query (initial_fetch - Z.of_nat (List.length primary))%Z
                  "pub_date") as Hr.
    fold recent in Hr.
    pose proof (length_List_filter
                  (fun d => negb (existsb (value_eqb (pmid_of d)) (List.map pmid_of primary)))
                  recent) as Hn.
    unfold new_records. lia. }
  exists out, h'. split; [exact E|]. split; [exact Hmerged|].
  rewrite Hrec. unfold py_slice_to.
  assert (C : (max_results <? 0)%Z = false) by (apply Z.ltb_ge; lia). rewrite C.
  rewrite List.length_firstn, List.length_map.
  rewrite (Permutation_length (stable_sort_desc_perm _)), List.length_map.
  assert (Hi : initial_fetch = Z.min (max_results * 3) 15) by reflexivity.
  lia.
Qed.

End Retrieval.

Lemma get_pubmed_articles_top_results_witness :
  exists out h' rest,
    get_pubmed_articles sample_pubmed "metformin side effects elderly" 2 ∅ = (Ok out, h')
    /\ Permutation (records_at h' out ++ rest)
         (List.map (with_score "metformin side effects elderly")
            (merged_records [sample_metformin; sample_insulin]
               [sample_insulin; sample_renal] 6))
    /\ List.length (records_at h' out) = 2%nat
    /\ StronglySorted (fun a b => (relevance_of b <= relevance_of a)%Q) (records_at h' out).
Proof.
  destruct (get_pubmed_articles_top_results sample_pubmed ∅
              "metformin side effects elderly" 2)
    as (r & h' & E & _ & Hok & _).
  - lia.
  - repeat constructor.
  - repeat constructor.
  - destruct Hok as (out & rest & -> & _ & Hperm & Hlen & Hsorted & _).
    + repeat constructor.
    + exists out, h', rest. split; [exact E|]. split; [exact Hperm|].
      split; [exact Hlen|exact Hsorted].
Defined.

Lemma get_pubmed_articles_no_articles_witness :
  exists out h',
    get_pubmed_articles (fun _ _ _ => []) "metformin" 5 ∅ = (Ok out, h')
    /\ (∅ : store) !! out = None
    /\ h' !! out = Some (OList [])
    /\ (forall x o, (∅ : store) !! x = Some o -> h' !! x = Some o).
Proof.
  refine (get_pubmed_articles_no_articles (fun _ _ _ => []) ∅ "metformin" 5 _ _); reflexivity.
Defined.

Lemma get_pubmed_articles_quota_witness :
  exists out h',
    get_pubmed_articles
      (fun _ n _ => firstn (Z.to_nat n) [sample_metformin; sample_insulin; sample_renal])
      "metformin" 1 ∅ = (Ok out, h')
    /\ (List.length
          (merged_records [sample_metformin; sample_insulin; sample_renal] [] 3) <= 3)%nat
    /\ (List.length (records_at h' out) <= 1)%nat.
Proof.
  refine (get_pubmed_articles_quota
            (fun _ n _ => firstn (Z.to_nat n) [sample_metformin; sample_insulin; sample_renal])
            ∅ "metformin" 1 _ _ _).
  - lia.
  - intros q n s. rewrite List.length_firstn. lia.
  - intros q n s. apply Forall_take. repeat constructor.
Defined.

(** ** The results of a semantic search *)

Lemma py_index_in_range {A} (xs : list A) (i : Z) (d : A) :
  (0 <= i < Z.of_nat (List.length xs))%Z ->
  py_index xs i = Ok (nth (Z.to_nat i) xs d).
Proof.
  intros Hi. unfold py_index.
  assert (E1 : (i <? 0)%Z = false) by (apply Z.ltb_ge; lia). rewrite E1.
  assert (E2 : ((0 <=? i) && (i <? Z.of_nat (List.length xs)))%Z = true).
  { apply andb_true_iff. split; [apply Z.leb_le|apply Z.ltb_lt]; lia. }
  rewrite E2.
  rewrite (nth_error_nth' xs d) by lia. reflexivity.
Qed.

Lemma collect_results_in_range (arith : format) (metadatas : list dict) (texts : list string) :
  List.length texts = List.length metadatas ->
  forall (neighbours : list (float * Z)) (i : Z),
    Forall (fun p => (0 <= snd p < Z.of_nat (List.length metadatas))%Z) neighbours ->
    collect_results arith i neighbours metadatas texts
    = Ok (imap (fun j p => {| rank := i + Z.of_nat j + 1;
                              similarity_score := similarity arith (fst p);
                              text := nth (Z.to_nat (snd p)) texts "";
                              metadata := nth (Z.to_nat (snd p)) metadatas ∅ |})
               neighbours).
Proof.
  intros Hlen. induction neighbours as [|[distance idx] rest IH]; intros i Hall.
  - reflexivity.
  - apply Forall_cons in Hall as [Hidx Hrest]. cbn [snd] in Hidx.
    cbn [collect_results imap].
    assert (E : (idx <? Z.of_nat (List.length metadatas))%Z = true) by (apply Z.ltb_lt; lia).
    rewrite E.
    rewrite (py_index_in_range texts idx "") by lia.
    rewrite (py_index_in_range metadatas idx ∅) by lia.
    cbn [rbind]. rewrite (IH (i + 1)%Z Hrest). cbn [rbind fst snd].
    f_equal. f_equal.
    + f_equal. lia.
    + apply imap_ext. intros j p _. cbn. f_equal. lia.
Qed.

(** X16: when the lists are parallel and every neighbour index is a
    position of the lists, the search gives one result per neighbour, in
    the order of the neighbours: rank 1, 2, ..., the score of the
    distance, and the text and metadata at the neighbour's index. *)
Theorem search_similar_documents_in_range
    (arith : format) (ix : faiss_index) (metadatas : list dict) (texts : list string)
    (query : string) (k : Z) :
  metadatas <> [] ->
  List.length texts = List.length metadatas ->
  Forall (fun idx => (0 <= idx < Z.of_nat (List.length metadatas))%Z)
         (snd (index_search ix query k)) ->
  search_similar_documents arith (Some ix) metadatas texts query k
  = imap (fun j p => {| rank := Z.of_nat j + 1;
                        similarity_score := similarity arith (fst p);
                        text := nth (Z.to_nat (snd p)) texts "";
                        metadata := nth (Z.to_nat (snd p)) metadatas ∅ |})
         (combine (fst (index_search ix query k)) (snd (index_search ix query k))).
Proof.
  intros Hne Hlen Hidx. unfold search_similar_documents.
  destruct metadatas as [|m ms]; [congruence|].
  destruct (index_search ix query k) as [distances indices]. cbn [fst snd] in *.
  rewrite (collect_results_in_range arith (m :: ms) texts Hlen).
  - apply imap_ext. intros j p _. cbn. reflexivity.
  - apply List.Forall_forall. intros [d idx] Hin. cbn [snd].
    rewrite List.Forall_forall in Hidx. apply Hidx.
    eapply in_combine_r. exact Hin.
Qed.

Lemma search_similar_documents_in_range_witness :
  search_similar_documents binary32
    (Some {| index_search := fun _ _ => ([fl_zero; tiny_distance], [1; 0]%Z) |})
    [sample_metformin; sample_insulin] ["Metformin in the elderly"; "Insulin"] "insulin" 2
  = [ {| rank := 1; similarity_score := similarity binary32 fl_zero;
         text := "Insulin"; metadata := sample_insulin |};
      {| rank := 2; similarity_score := similarity binary32 tiny_distance;
         text := "Metformin in the elderly"; metadata := sample_metformin |} ].
Proof.
  refine (search_similar_documents_in_range binary32
            {| index_search := fun _ _ => ([fl_zero; tiny_distance], [1; 0]%Z) |}
            [sample_metformin; sample_insulin] ["Metformin in the elderly"; "Insulin"]
            "insulin" 2 _ _ _).
  - discriminate.
  - reflexivity.
  - repeat constructor; cbn; lia.
Defined.

Lemma collect_results_sound (arith : format) (metadatas : list dict) (texts : list string) :
  forall (neighbours : list (float * Z)) (i : Z) (results : list similarity_result),
    collect_results arith i neighbours metadatas texts = Ok results ->
    Forall (fun r => exists distance idx,
              neighbours !! Z.to_nat (rank r - 1 - i) = Some (distance, idx)
              /\ (i + 1 <= rank r)%Z
              /\ (idx < Z.of_nat (List.length metadatas))%Z
              /\ similarity_score r = similarity arith distance
              /\ py_index texts idx = Ok (text r)
              /\ py_index metadatas idx = Ok (metadata r)) results
    /\ StronglySorted (fun a b => (rank a < rank b)%Z) results
    /\ List.map similarity_score results
       `sublist_of` List.map (fun p => similarity arith (fst p)) neighbours.
Proof.
  induction neighbours as [|[distance idx] rest IH]; intros i results.
  - cbn [collect_results]. intros [= <-]. repeat split; constructor.
  - cbn [collect_results].
    assert (Hshift : forall rs,
              Forall (fun r => exists distance' idx',
                        rest !! Z.to_nat (rank r - 1 - (i + 1)) = Some (distance', idx')
                        /\ (i + 1 + 1 <= rank r)%Z
                        /\ (idx' < Z.of_nat (List.length metadatas))%Z
                        /\ similarity_score r = similarity arith distance'
                        /\ py_index texts idx' = Ok (text r)
                        /\ py_index metadatas idx' = Ok (metadata r)) rs ->
              Forall (fun r => exists distance' idx',
                        ((distance, idx) :: rest) !! Z.to_nat (rank r - 1 - i)
                        = Some (distance', idx')
                        /\ (i + 1 <= rank r)%Z
                        /\ (idx' < Z.of_nat (List.length metadatas))%Z
                        /\ similarity_score r = similarity arith distance'
                        /\ py_index texts idx' = Ok (text r)
                        /\ py_index metadatas idx' = Ok (metadata r)) rs).
    { intros rs Hrs. eapply Forall_impl; [exact Hrs|]. cbv beta.
      intros r (d' & idx' & Hl & Hr & Hrest).
      exists d', idx'. split; [|split; [lia|exact Hrest]].
      replace (Z.to_nat (rank r - 1 - i)) with (S (Z.to_nat (rank r - 1 - (i + 1)))) by lia.
      exact Hl. }
    destruct (idx <? Z.of_nat (List.length metadatas))%Z eqn:Hguard.
    + destruct (py_index texts idx) as [t|e] eqn:Et; cbn [rbind]; [|discriminate].
      destruct (py_index metadatas idx) as [m|e] eqn:Em; cbn [rbind]; [|discriminate].
      destruct (collect_results arith (i + 1) rest metadatas texts) as [rs|e] eqn:Er;
        cbn [rbind]; [|discriminate].
      intros [= <-]. destruct (IH (i + 1)%Z rs Er) as (Hall & Hsorted & Hsub).
      split; [|split].
      * constructor; [|exact (Hshift rs Hall)].
        exists distance, idx. cbn [rank similarity_score text metadata].
        replace (i + 1 - 1 - i)%Z with 0%Z by lia.
        split; [reflexivity|]. split; [lia|]. split; [now apply Z.ltb_lt|]. auto.
      * constructor; [exact Hsorted|].
        eapply Forall_impl; [exact Hall|]. cbv beta.
        intros r (_ & _ & _ & Hr & _). cbn [rank]. lia.
      * cbn [List.map fst similarity_score]. now apply sublist_skip.
    + intros Er. destruct (IH (i + 1)%Z results Er) as (Hall & Hsorted & Hsub).
      split; [exact (Hshift results Hall)|]. split; [exact Hsorted|].
      cbn [List.map]. now apply sublist_cons.
Qed.

(** X17: whatever the index answers, every result of a search stands
    for one neighbour whose index passed the guard: its rank is the
    position of that neighbour in the answer, counted from 1, its score
    is the score of the neighbour's distance, and its text and metadata
    are what Python's indexing reads at the neighbour's index.  Results
    come by increasing rank, at most one per neighbour. *)
Theorem search_similar_documents_results
    (arith : format) (ix : faiss_index) (metadatas : list dict) (texts : list string)
    (query : string) (k : Z) :
  let neighbours :=
    combine (fst (index_search ix query k)) (snd (index_search ix query k)) in
  let results := search_similar_documents arith (Some ix) metadatas texts query k in
  Forall (fun r => exists distance idx,
            neighbours !! Z.to_nat (rank r - 1) = Some (distance, idx)
            /\ (1 <= rank r)%Z
            /\ (idx < Z.of_nat (List.length metadatas))%Z
            /\ similarity_score r = similarity arith distance
            /\ py_index texts idx = Ok (text r)
            /\ py_index metadatas idx = Ok (metadata r)) results
  /\ StronglySorted (fun a b => (rank a < rank b)%Z) results
  /\ (List.length results <= List.length neighbours)%nat.
Proof.
  intros neighbours results. unfold results, search_similar_documents.
  destruct metadatas as [|m ms]; [repeat split; try constructor; cbn; lia|].
  unfold neighbours. destruct (index_search ix query k) as [distances indices].
  cbn [fst snd].
  destruct (collect_results arith 0 (combine distances indices) (m :: ms) texts)
    as [rs|e] eqn:E; [|repeat split; try constructor; cbn; lia].
  destruct (collect_results_sound arith (m :: ms) texts _ _ _ E) as (Hall & Hsorted & Hsub).
  split; [|split; [exact Hsorted|]].
  - eapply Forall_impl; [exact Hall|]. cbv beta.
    intros r (d & idx & Hl & Hr & Hrest). exists d, idx.
    rewrite Z.sub_0_r in Hl. split; [exact Hl|]. split; [lia|exact Hrest].
  - apply sublist_length in Hsub. now rewrite !List.length_map in Hsub.
Qed.

Lemma py_index_below {A} (xs : list A) (i : Z) :
  (i < - Z.of_nat (List.length xs))%Z -> py_index xs i = Raise IndexError.
Proof.
  intros Hi. unfold py_index.
  assert (E1 : (i <? 0)%Z = true) by (apply Z.ltb_lt; lia). rewrite E1.
  assert (E2 : ((0 <=? Z.of_nat (List.length xs) + i)
                && (Z.of_nat (List.length xs) + i <? Z.of_nat (List.length xs)))%Z = false).
  { apply andb_false_iff. left. apply Z.leb_gt. lia. }
  now rewrite E2.
Qed.

Lemma collect_results_raises (arith : format) (metadatas : list dict) (texts : list string) :
  forall (neighbours : list (float * Z)) (i : Z),
    Exists (fun p => (snd p < - Z.of_nat (List.length metadatas))%Z) neighbours ->
    exists e, collect_results arith i neighbours metadatas texts = Raise e.
Proof.
  induction neighbours as [|[distance idx] rest IH]; intros i Hex.
  - now apply Exists_nil in Hex.
  - cbn [collect_results].
    destruct (idx <? Z.of_nat (List.length metadatas))%Z eqn:Hguard.
    + destruct (py_index texts idx) as [t|e]; cbn [rbind]; [|eauto].
      destruct (py_index metadatas idx) as [m|e] eqn:Em; cbn [rbind]; [|eauto].
      apply Exists_cons in Hex as [Hbad|Hex].
      * cbn [snd] in Hbad. rewrite (py_index_below metadatas idx Hbad) in Em. discriminate.
      * destruct (IH (i + 1)%Z Hex) as (e & ->). cbn [rbind]. eauto.
    + apply Exists_cons in Hex as [Hbad|Hex].
      * cbn [snd] in Hbad. apply Z.ltb_ge in Hguard. lia.
      * apply IH, Hex.
Qed.

(** X18: a single neighbour index below [-len(metadatas)] costs the
    whole result: the [IndexError] it causes is caught and the search
    returns the empty list, also for the neighbours that could be
    read. *)
Theorem search_similar_documents_index_error
    (arith : format) (ix : faiss_index) (metadatas : list dict) (texts : list string)
    (query : string) (k : Z) :
  Exists (fun p => (snd p < - Z.of_nat (List.length metadatas))%Z)
         (combine (fst (index_search ix query k)) (snd (index_search ix query k))) ->
  search_similar_documents arith (Some ix) metadatas texts query k = [].
Proof.
  intros Hex. unfold search_similar_documents.
  destruct metadatas as [|m ms]; [reflexivity|].
  destruct (index_search ix query k) as [distances indices]. cbn [fst snd] in Hex.
  destruct (collect_results_raises arith (m :: ms) texts _ 0%Z Hex) as (e & ->).
  reflexivity.
Qed.

Lemma search_similar_documents_index_error_witness :
  search_similar_documents binary32
    (Some {| index_search := fun _ _ => ([fl_zero; tiny_distance], [0; -3]%Z) |})
    [sample_metformin; sample_insulin] ["Metformin in the elderly"; "Insulin"] "insulin" 2
  = [].
Proof.
  apply search_similar_documents_index_error.
  cbn. apply Exists_cons_tl, Exists_cons_hd. cbn. lia.
Defined.

Lemma StronglySorted_sublist {A} (R : A -> A -> Prop) (l1 l2 : list A) :
  l1 `sublist_of` l2 -> StronglySorted R l2 -> StronglySorted R l1.
Proof.
  induction 1 as [|x l1 l2 Hsub IH|x l1 l2 Hsub IH]; intros Hs.
  - constructor.
  - apply StronglySorted_inv in Hs as [Hs Hx]. constructor; [auto|].
    apply List.Forall_forall. intros y Hy. rewrite List.Forall_forall in Hx. apply Hx.
    apply list_elem_of_In. eapply elem_of_sublist; [|exact Hsub]. now apply list_elem_of_In.
  - apply StronglySorted_inv in Hs as [Hs _]. auto.
Qed.

Lemma StronglySorted_map_inv {A B} (R : B -> B -> Prop) (f : A -> B) (l : list A) :
  StronglySorted R (List.map f l) -> StronglySorted (fun a b => R (f a) (f b)) l.
Proof.
  induction l as [|x l IH]; cbn [List.map]; intros H; [constructor|].
  apply StronglySorted_inv in H as [Hs Hx]. constructor; [auto|].
  apply List.Forall_forall. intros y Hy. rewrite List.Forall_forall in Hx.
  apply Hx. now apply List.in_map.
Qed.

Lemma StronglySorted_map_mono {A B} (P : A -> Prop) (R : A -> A -> Prop) (R' : B -> B -> Prop)
    (f : A -> B) (l : list A) :
  (forall a b, P a -> P b -> R a b -> R' (f a) (f b)) ->
  Forall P l -> StronglySorted R l -> StronglySorted R' (List.map f l).
Proof.
  intros Hmono. induction l as [|x l IH]; intros HP Hs; cbn [List.map]; [constructor|].
  apply Forall_cons in HP as [Hx HP]. apply StronglySorted_inv in Hs as [Hs Hxl].
  constructor; [auto|].
  apply List.Forall_forall. intros y Hy. apply List.in_map_iff in Hy as (a & <- & Ha).
  rewrite List.Forall_forall in Hxl, HP. auto.
Qed.

Lemma sublist_map {A B} (f : A -> B) (l1 l2 : list A) :
  l1 `sublist_of` l2 -> List.map f l1 `sublist_of` List.map f l2.
Proof. induction 1; cbn [List.map]; now constructor. Qed.

Lemma combine_fst_sublist {A B} (l1 : list A) (l2 : list B) :
  List.map fst (combine l1 l2) `sublist_of` l1.
Proof.
  revert l2. induction l1 as [|x l1 IH]; intros [|y l2]; cbn [combine List.map fst].
  - constructor.
  - constructor.
  - apply sublist_nil_l.
  - apply sublist_skip, IH.
Qed.

(** X19: when the index reports its neighbours nearest first, with
    distances that are finite and not negative, the results carry
    scores in (0, 1] and come with the highest score first: the score
    never goes up along the result list. *)
Theorem search_similar_documents_scores
    (arith : format) (ix : faiss_index) (metadatas : list dict) (texts : list string)
    (query : string) (k : Z) :
  arith = binary32 \/ arith = binary64 ->
  Forall (fun d => is_distance d = true) (fst (index_search ix query k)) ->
  StronglySorted (fun d1 d2 => (F2Q d1 <= F2Q d2)%Q) (fst (index_search ix query k)) ->
  let results := search_similar_documents arith (Some ix) metadatas texts query k in
  Forall (fun r => (0 < F2Q (similarity_score r))%Q /\ (F2Q (similarity_score r) <= 1)%Q)
         results
  /\ StronglySorted
       (fun a b => (F2Q (similarity_score b) <= F2Q (similarity_score a))%Q) results.
Proof.
  intros Harith Hdist Hasc results. unfold results, search_similar_documents.
  destruct (similarity_rounding arith Harith) as [Hrange Hmono].
  destruct metadatas as [|m ms]; [split; constructor|].
  destruct (index_search ix query k) as [distances indices]. cbn [fst snd] in *.
  destruct (collect_results arith 0 (combine distances indices) (m :: ms) texts)
    as [rs|e] eqn:E; [|split; constructor].
  destruct (collect_results_sound arith (m :: ms) texts _ _ _ E) as (_ & _ & Hsub).
  assert (Hsub' : List.map similarity_score rs `sublist_of` List.map (similarity arith) distances).
  { etransitivity; [exact Hsub|].
    rewrite <- (List.map_map fst (similarity arith)).
    apply sublist_map, combine_fst_sublist. }
  split.
  - assert (Hall : Forall (fun s => (0 < F2Q s)%Q /\ (F2Q s <= 1)%Q)
                     (List.map (similarity arith) distances)).
    { apply List.Forall_forall. intros s Hs. apply List.in_map_iff in Hs as (d & <- & Hd).
      rewrite List.Forall_forall in Hdist.
      destruct (Hrange d (Hdist d Hd)) as (_ & _ & _ & H0 & H1). auto. }
    pose proof (Forall_sublist_of _ _ _ Hsub' Hall) as H.
    apply List.Forall_forall. intros r Hr. rewrite List.Forall_forall in H.
    apply (H (similarity_score r)). now apply List.in_map.
  - apply (StronglySorted_map_inv (fun a b => (F2Q b <= F2Q a)%Q)).
    apply (StronglySorted_sublist _ _ _ Hsub').
    apply (StronglySorted_map_mono (fun d => is_distance d = true)
             (fun d1 d2 => (F2Q d1 <= F2Q d2)%Q)); auto.
Qed.

Lemma search_similar_documents_scores_witness :
  let results :=
    search_similar_documents binary32
      (Some {| index_search := fun _ _ => ([fl_zero; tiny_distance; f32_max], [1; 0; -1]%Z) |})
      [sample_metformin; sample_insulin] ["Metformin in the elderly"; "Insulin"] "insulin" 3 in
  Forall (fun r => (0 < F2Q (similarity_score r))%Q /\ (F2Q (similarity_score r) <= 1)%Q)
         results
  /\ StronglySorted
       (fun a b => (F2Q (similarity_score b) <= F2Q (similarity_score a))%Q) results.
Proof.
  refine (search_similar_documents_scores binary32
            {| index_search := fun _ _ => ([fl_zero; tiny_distance; f32_max], [1; 0; -1]%Z) |}
            [sample_metformin; sample_insulin] ["Metformin in the elderly"; "Insulin"]
            "insulin" 3 _ _ _).
  - now left.
  - repeat constructor.
  - repeat constructor; vm_compute; discriminate.
Defined.

Import PubmedXml.

(** ** Stripping twice *)

Lemma lstrip_idem (s : string) : lstrip (lstrip s) = lstrip s.
Proof.
  induction s as [|c s IH]; [reflexivity|]. cbn [lstrip].
  destruct (is_space c) eqn:E; [exact IH|]. cbn [lstrip]. now rewrite E.
Qed.

Lemma rstrip_idem (s : string) : rstrip (rstrip s) = rstrip s.
Proof.
  induction s as [|c s IH]; [reflexivity|]. cbn [rstrip].
  destruct (is_space c && is_empty (rstrip s)) eqn:E; [reflexivity|].
  cbn [rstrip]. now rewrite IH, E.
Qed.

Lemma lstrip_rstrip_fixed (t : string) : lstrip t = t -> lstrip (rstrip t) = rstrip t.
Proof.
  destruct t as [|c t]; [reflexivity|]. cbn [lstrip].
  destruct (is_space c) eqn:E.
  - intros H. exfalso.
    assert (Hlen : (String.length (lstrip t) <= String.length t)%nat).
    { clear. induction t as [|a t IH]; [reflexivity|]. cbn [lstrip].
      destruct (is_space a); cbn [String.length]; lia. }
    rewrite H in Hlen. cbn [String.length] in Hlen. lia.
  - intros _. cbn [rstrip]. rewrite E. cbn [andb lstrip]. now rewrite E.
Qed.

Lemma strip_idem (s : string) : strip (strip s) = strip s.
Proof.
  unfold strip. rewrite (lstrip_rstrip_fixed (lstrip s) (lstrip_idem s)).
  apply rstrip_idem.
Qed.

(** ** The records of the parser *)

Lemma article_abstract_stripped (e : element) :
  strip (article_abstract e) = article_abstract e
  /\ is_empty (article_abstract e) = false.
Proof.
  unfold article_abstract. cbv zeta.
  match goal with |- context [is_empty (strip ?x)] => generalize x end.
  intros s. destruct (is_empty (strip s)) eqn:E.
  - split; reflexivity.
  - split; [apply strip_idem|exact E].
Qed.

Lemma article_title_stripped (e : element) : strip (article_title e) = article_title e.
Proof.
  unfold article_title.
  destruct (match find e "ArticleTitle" with
            | Some title_elem => elem_text title_elem
            | None => Some no_title
            end) as [t|]; [|reflexivity].
  destruct (is_empty t); [reflexivity|apply strip_idem].
Qed.

Lemma article_record_lookup (e : element) (pmid : option string) :
  article_record e pmid !! "title" = Some (FStr (article_title e))
  /\ article_record e pmid !! "abstract" = Some (FStr (article_abstract e))
  /\ article_record e pmid !! "url" = Some (FStr (article_url pmid))
  /\ article_record e pmid !! "pmid"
     = Some (match pmid with Some p => FStr p | None => FNone end).
Proof.
  unfold article_record. repeat split.
Qed.

Lemma parse_pubmed_xml_In (xml : option element) (ids : id_sequence) (r : record) :
  In r (parse_pubmed_xml xml ids) ->
  exists root i e pmid,
    xml = Some root
    /\ findall root "PubmedArticle" !! i = Some e
    /\ article_pmid e ids i = Pmid pmid
    /\ r = article_record e pmid.
Proof.
  destruct xml as [root|]; [|intros []]. cbn [parse_pubmed_xml]. intros H.
  apply list_elem_of_In, list_elem_of_omap in H as (o & Ho & Hr).
  apply elem_of_lookup_imap_1 in Ho as (i & e & -> & He).
  unfold parse_article in Hr. cbn [id] in Hr.
  destruct (article_pmid e ids i) as [|pmid] eqn:Ep; [discriminate|].
  injection Hr as <-. exists root, i, e, pmid. auto.
Qed.

(** X20: every record the parser builds has exactly the keys title,
    abstract, url and pmid; its title and abstract are text without
    white space at either end, the abstract is never empty, and the url
    is the PubMed address followed by the pmid. *)
Theorem parse_pubmed_xml_records (xml : option element) (article_ids : id_sequence)
    (r : record) :
  In r (parse_pubmed_xml xml article_ids) ->
  dom r = ({[ "title"; "abstract"; "url"; "pmid" ]} : gset string)
  /\ exists (title abstract : string) (pmid : option string),
       r !! "title" = Some (FStr title) /\ strip title = title
       /\ r !! "abstract" = Some (FStr abstract) /\ strip abstract = abstract
       /\ abstract <> ""
       /\ r !! "pmid" = Some (match pmid with Some p => FStr p | None => FNone end)
       /\ r !! "url"
          = Some (FStr ("https://pubmed.ncbi.nlm.nih.gov/" ++ default "None" pmid)).
Proof.
  intros H. destruct (parse_pubmed_xml_In _ _ _ H) as (root & i & e & pmid & _ & _ & _ & ->).
  destruct (article_record_lookup e pmid) as (Ht & Ha & Hu & Hp).
  destruct (article_abstract_stripped e) as [Hs Hne].
  split.
  - unfold article_record. rewrite !dom_insert_L, dom_singleton_L. set_solver.
  - exists (article_title e), (article_abstract e), pmid.
    split; [exact Ht|]. split; [apply article_title_stripped|].
    split; [exact Ha|]. split; [exact Hs|].
    split; [intros E; rewrite E in Hne; discriminate|].
    split; [exact Hp|exact Hu].
Qed.

Lemma parse_pubmed_xml_records_witness :
  dom (article_record sample_article_2 (Some "22"))
  = ({[ "title"; "abstract"; "url"; "pmid" ]} : gset string)
  /\ exists (title abstract : string) (pmid : option string),
       article_record sample_article_2 (Some "22") !! "title" = Some (FStr title)
       /\ strip title = title
       /\ article_record sample_article_2 (Some "22") !! "abstract" = Some (FStr abstract)
       /\ strip abstract = abstract
       /\ abstract <> ""
       /\ article_record sample_article_2 (Some "22") !! "pmid"
          = Some (match pmid with Some p => FStr p | None => FNone end)
       /\ article_record sample_article_2 (Some "22") !! "url"
          = Some (FStr ("https://pubmed.ncbi.nlm.nih.gov/" ++ default "None" pmid)).
Proof.
  apply (parse_pubmed_xml_records (Some sample_xml) (IdList ["11"; "22"])).
  right. left. reflexivity.
Defined.

(** On the sample document. *)
Example parse_pubmed_xml_sample :
  parse_pubmed_xml (Some sample_xml) (IdList ["11"; "22"])
  = [ {[ "title" := FStr "Metformin in the elderly";
         "abstract" := FStr "RESULTS: Metformin side effects are mild.";
         "url" := FStr "https://pubmed.ncbi.nlm.nih.gov/1";
         "pmid" := FStr "1" ]};
      {[ "title" := FStr "Insulin";
         "abstract" := FStr "No abstract available";
         "url" := FStr "https://pubmed.ncbi.nlm.nih.gov/22";
         "pmid" := FStr "22" ]} ]
  /\ parse_pubmed_xml (Some sample_xml) (IdDict 2)
     = [ {[ "title" := FStr "Metformin in the elderly";
            "abstract" := FStr "RESULTS: Metformin side effects are mild.";
            "url" := FStr "https://pubmed.ncbi.nlm.nih.gov/1";
            "pmid" := FStr "1" ]} ].
Proof. split; reflexivity. Qed.

(** ** Where the pmid of a record comes from *)




(** ** Parsed records and the scorer *)

Lemma as_dict_lookup (r : record) (key : string) :
  as_dict r !! key = as_value <$> r !! key.
Proof. unfold as_dict. apply lookup_fmap. Qed.

Lemma article_record_well_formed (e : element) (pmid : option string) :
  article_record e pmid !! "pmid" <> Some FNone ->
  well_formed (as_dict (article_record e pmid)) = true.
Proof.
  intros Hpmid. destruct (article_record_lookup e pmid) as (Ht & Ha & Hu & Hp).
  unfold well_formed, has_text_pmid, scorable, text_or_absent.
  rewrite !as_dict_lookup, Ht, Ha, Hp.
  destruct pmid; [reflexivity|]. now rewrite Hp in Hpmid.
Qed.

(** Every parsed record goes through the retrieval, also one whose
    pmid is [None]. *)
Lemma article_record_retrievable (e : element) (pmid : option string) :
  retrievable (as_dict (article_record e pmid)) = true.
Proof.
  destruct (article_record_lookup e pmid) as (Ht & Ha & Hu & Hp).
  unfold retrievable, has_pmid, has_title, scorable, text_or_absent.
  now rewrite !as_dict_lookup, Ht, Ha, Hp.
Qed.

(** X22: a parsed record is an article as the retrieval expects it:
    read as a dict it has a pmid, text for title and abstract, and the
    scorer gives it a score; when its pmid is not [None] it is well
    formed.  When no abstract text was found the scorer sees the
    placeholder and grants no completeness bonus. *)
Theorem parse_pubmed_xml_scorable (xml : option element) (article_ids : id_sequence)
    (r : record) (query_words : gset string) (medical_terms : list string)
    (full_query : string) :
  In r (parse_pubmed_xml xml article_ids) ->
  retrievable (as_dict r) = true
  /\ (r !! "pmid" <> Some FNone -> well_formed (as_dict r) = true)
  /\ exists score,
       calculate_relevance_score (as_dict r) query_words medical_terms full_query = Ok score
       /\ (r !! "abstract" = Some (FStr no_abstract_available) ->
           (score == phrase_points (lower (text_of (as_dict r) "title"))
                       "no abstract available" full_query
                     + sum_Q (List.map (term_points (lower (text_of (as_dict r) "title"))
                                          "no abstract available") medical_terms)
                     + 2.0 * word_matches query_words (lower (text_of (as_dict r) "title"))
                     + 0.5 * word_matches query_words "no abstract available"
                     + 0.5)%Q).
Proof.
  intros H.
  destruct (parse_pubmed_xml_In _ _ _ H) as (root & i & e & pmid & _ & _ & _ & ->).
  pose proof (article_record_retrievable e pmid) as Hret.
  set (r := article_record e pmid) in *.
  split; [exact Hret|]. split; [apply article_record_well_formed|].
  assert (Hs : scorable (as_dict r) = true).
  { unfold retrievable in Hret. now apply andb_true_iff in Hret as [[_ ?]%andb_true_iff _]. }
  destruct (calculate_relevance_score_ok (as_dict r) query_words medical_terms full_query Hs)
    as (score & E & Hv).
  exists score. split; [exact E|]. intros Hno.
  rewrite Hv. unfold reference_score.
  assert (Eabs : text_of (as_dict r) "abstract" = no_abstract_available).
  { unfold text_of. now rewrite as_dict_lookup, Hno. }
  rewrite Eabs.
  change (lower no_abstract_available) with "no abstract available".
  change (completeness_points "no abstract available") with 0%Q. ring.
Qed.

Lemma parse_pubmed_xml_scorable_witness :
  retrievable (as_dict (article_record sample_article_2 (Some "22"))) = true
  /\ (article_record sample_article_2 (Some "22") !! "pmid" <> Some FNone ->
      well_formed (as_dict (article_record sample_article_2 (Some "22"))) = true)
  /\ exists score,
       calculate_relevance_score (as_dict (article_record sample_article_2 (Some "22")))
         (list_to_set (split "insulin")) (extract_medical_terms "insulin") "insulin" = Ok score
       /\ (article_record sample_article_2 (Some "22") !! "abstract"
           = Some (FStr no_abstract_available) ->
           (score == phrase_points
                       (lower (text_of (as_dict (article_record sample_article_2 (Some "22")))
                                 "title"))
                       "no abstract available" "insulin"
                     + sum_Q (List.map
                                (term_points
                                   (lower (text_of (as_dict (article_record sample_article_2 (Some "22"))) "title"))
                                   "no abstract available")
                                (extract_medical_terms "insulin"))
                     + 2.0 * word_matches (list_to_set (split "insulin"))
                               (lower (text_of (as_dict (article_record sample_article_2 (Some "22"))) "title"))
                     + 0.5 * word_matches (list_to_set (split "insulin")) "no abstract available"
                     + 0.5)%Q).
Proof.
  apply (parse_pubmed_xml_scorable (Some sample_xml) (IdList ["11"; "22"])).
  right. left. reflexivity.
Defined.

Import Indexer.


(** ** Building the index *)

Lemma extract_texts_spec (docs : list dict) (texts : list string) (metadatas : list dict) :
  extract_texts docs = Ok (texts, metadatas) ->
  Forall2 (fun doc text => exists title abstract,
             get_stripped doc "title" "No title" = Ok title
             /\ get_stripped doc "abstract" "" = Ok abstract
             /\ text = document_text title abstract) docs texts
  /\ Forall2 (fun doc metadata => exists title,
                get_stripped doc "title" "No title" = Ok title
                /\ metadata = document_metadata doc title) docs metadatas.
Proof.
  revert texts metadatas. induction docs as [|doc rest IH]; intros texts metadatas.
  - cbn [extract_texts]. intros [= <- <-]. split; constructor.
  - cbn [extract_texts].
    destruct (get_stripped doc "abstract" "") as [abstract|e] eqn:Ea; cbn [rbind]; [|discriminate].
    destruct (get_stripped doc "title" "No title") as [title|e] eqn:Et; cbn [rbind]; [|discriminate].
    destruct (extract_texts rest) as [[ts ms]|e] eqn:Er; cbn [rbind]; [|discriminate].
    intros [= <- <-]. destruct (IH ts ms eq_refl) as [H1 H2].
    split; constructor; eauto.
Qed.

Section IndexProofs.
Variable encode : list string -> result matrix.
Variable normalized : matrix -> matrix.
Variable search_L2 : matrix -> string -> Z -> list float * list Z.

(** The ways [create_faiss_index] returns. *)
Lemma create_faiss_index_cases (docs : list dict) r :
  create_faiss_index encode normalized docs = Ok r ->
  r = (None, [], [])
  \/ exists texts metadatas first_row rows,
       docs <> []
       /\ extract_texts docs = Ok (texts, metadatas)
       /\ encode texts = Ok (first_row :: rows)
       /\ r = (Some {| dimension := List.length first_row;
                       vectors := List.map (List.map (cast binary32)) (first_row :: rows) |},
               metadatas, texts).
Proof.
  unfold create_faiss_index. destruct docs as [|doc docs]; [intros [= <-]; now left|].
  destruct (extract_texts (doc :: docs)) as [[texts metadatas]|e] eqn:Ex; cbn [rbind];
    [|discriminate].
  destruct texts as [|text texts]; [intros [= <-]; now left|].
  destruct (encode (text :: texts)) as [[|first_row rows]|e] eqn:Ee;
    [intros [= <-]; now left| |intros [= <-]; now left].
  intros [= <-]. right. exists (text :: texts), metadatas, first_row, rows.
  split; [discriminate|]. split; [reflexivity|]. split; [exact Ee|].
  reflexivity.
Qed.

(** X23: when [create_faiss_index] returns an index, the texts and the
    metadata it returns are parallel to the documents: the i-th text is
    the title of the i-th document, followed by its abstract when it
    has one, and the i-th metadata holds the same title with the url
    and pmid of that document.  When it returns no index both lists are
    empty. *)
Theorem create_faiss_index_parallel
    (docs : list dict) (index : option flat_index)
    (metadatas : list dict) (texts : list string) :
  create_faiss_index encode normalized docs = Ok (index, metadatas, texts) ->
  (index = None -> metadatas = [] /\ texts = [])
  /\ (index <> None ->
      docs <> []
      /\ List.length texts = List.length docs
      /\ List.length metadatas = List.length docs
      /\ forall (i : nat) (doc : dict),
           docs !! i = Some doc ->
           exists title abstract,
             get_stripped doc "title" "No title" = Ok title
             /\ get_stripped doc "abstract" "" = Ok abstract
             /\ texts !! i = Some (document_text title abstract)
             /\ metadatas !! i = Some (document_metadata doc title)).
Proof.
  intros H. apply create_faiss_index_cases in H
    as [[= -> -> ->]|(ts & ms & row & rows & Hne & Ex & _ & [= -> -> ->])].
  - split; [auto|congruence].
  - split; [discriminate|]. intros _.
    destruct (extract_texts_spec _ _ _ Ex) as [Ht Hm].
    split; [exact Hne|].
    split; [symmetry; eapply Forall2_length; exact Ht|].
    split; [symmetry; eapply Forall2_length; exact Hm|].
    intros i doc Hi.
    destruct (Forall2_lookup_l _ _ _ _ _ Ht Hi) as (text & Hti & title & abstract & Et & Ea & ->).
    destruct (Forall2_lookup_l _ _ _ _ _ Hm Hi) as (m & Hmi & title' & Et' & ->).
    rewrite Et in Et'. injection Et' as <-.
    exists title, abstract. auto.
Qed.

(** X24: the vectors of the index are the embeddings of the texts,
    converted to [float32], whatever [faiss.normalize_L2] does: it is
    given a converted copy, and a second copy is added to the index. *)
Theorem create_faiss_index_raw_embeddings
    (docs : list dict) (index : flat_index)
    (metadatas : list dict) (texts : list string) :
  create_faiss_index encode normalized docs = Ok (Some index, metadatas, texts) ->
  exists rows,
    encode texts = Ok rows
    /\ rows <> []
    /\ vectors index = List.map (List.map (cast binary32)) rows
    /\ dimension index = List.length (hd [] rows).
Proof.
  intros H. apply create_faiss_index_cases in H
    as [[=]|(ts & ms & row & rows & _ & _ & Ee & [= -> -> ->])].
  exists (row :: rows). split; [exact Ee|]. split; [discriminate|]. split; reflexivity.
Qed.

(** X25: searching the index that was built from a list of documents:
    when every neighbour index is a position of the list, each result
    shows the text and the metadata of one and the same document. *)
Theorem create_faiss_index_then_search
    (arith : format) (docs : list dict) (index : flat_index)
    (metadatas : list dict) (texts : list string) (query : string) (k : Z) :
  create_faiss_index encode normalized docs = Ok (Some index, metadatas, texts) ->
  Forall (fun idx => (0 <= idx < Z.of_nat (List.length docs))%Z)
         (snd (search_L2 (vectors index) query k)) ->
  let neighbours :=
    combine (fst (search_L2 (vectors index) query k))
            (snd (search_L2 (vectors index) query k)) in
  let results :=
    search_similar_documents arith (Some (as_faiss_index search_L2 index))
      metadatas texts query k in
  List.length results = List.length neighbours
  /\ Forall (fun r => exists distance idx doc title abstract,
               neighbours !! Z.to_nat (rank r - 1) = Some (distance, idx)
               /\ docs !! Z.to_nat idx = Some doc
               /\ get_stripped doc "title" "No title" = Ok title
               /\ get_stripped doc "abstract" "" = Ok abstract
               /\ similarity_score r = similarity arith distance
               /\ text r = document_text title abstract
               /\ metadata r = document_metadata doc title) results.
Proof.
  intros H Hidx neighbours results.
  apply create_faiss_index_cases in H
    as [[=]|(ts & ms & row & rows & Hne & Ex & _ & [= -> -> ->])].
  destruct (extract_texts_spec _ _ _ Ex) as [Ht Hm].
  pose proof (Forall2_length _ _ _ Ht) as Hlt.
  pose proof (Forall2_length _ _ _ Hm) as Hlm.
  unfold results, search_similar_documents.
  destruct ms as [|m ms]; [destruct docs; [congruence|discriminate]|].
  cbn [as_faiss_index index_search]. fold neighbours.
  unfold neighbours in *. cbn [vectors] in *.
  destruct (search_L2 _ query k) as [distances indices] eqn:Es. cbn [fst snd] in *.
  rewrite (collect_results_in_range arith (m :: ms) ts) by
    (try congruence; apply List.Forall_forall; intros [d idx] Hin; cbn [snd];
     rewrite List.Forall_forall in Hidx; rewrite <- Hlm;
     apply Hidx; eapply in_combine_r; exact Hin).
  split; [now rewrite length_imap|].
  apply List.Forall_forall. intros r Hr.
  apply list_elem_of_In, elem_of_lookup_imap_1 in Hr as (j & [distance idx] & -> & Hj).
  cbn [rank similarity_score text metadata fst snd].
  assert (Hin : (0 <= idx < Z.of_nat (List.length docs))%Z).
  { rewrite List.Forall_forall in Hidx. apply Hidx.
    apply (in_combine_r distances indices distance idx).
    apply list_elem_of_In, list_elem_of_lookup. eauto. }
  destruct (lookup_lt_is_Some_2 docs (Z.to_nat idx) ltac:(lia)) as [doc Hdoc].
  destruct (Forall2_lookup_l _ _ _ _ _ Ht Hdoc) as (t & Hti & title & abstract & Et & Ea & ->).
  destruct (Forall2_lookup_l _ _ _ _ _ Hm Hdoc) as (md & Hmi & title' & Et' & ->).
  rewrite Et in Et'. injection Et' as <-.
  exists distance, idx, doc, title, abstract.
  replace (0 + Z.of_nat j + 1 - 1)%Z with (Z.of_nat j) by lia. rewrite Nat2Z.id.
  split; [exact Hj|]. split; [exact Hdoc|]. split; [exact Et|]. split; [exact Ea|].
  split; [reflexivity|]. split.
  - now apply nth_lookup_Some.
  - now apply nth_lookup_Some.
Qed.

Lemma get_stripped_text (doc : dict) (key default : string) :
  text_or_absent doc key = true ->
  exists s, get_stripped doc key default = Ok s.
Proof.
  unfold text_or_absent, get_stripped.
  destruct (doc !! key) as [[s| |x]|]; [eauto|discriminate|discriminate|eauto].
Qed.

Lemma get_stripped_not_text (doc : dict) (key default : string) :
  text_or_absent doc key = false ->
  get_stripped doc key default = Raise AttributeError.
Proof.
  unfold text_or_absent, get_stripped.
  destruct (doc !! key) as [[s| |x]|]; [discriminate|reflexivity|reflexivity|discriminate].
Qed.

Lemma extract_texts_ok (docs : list dict) :
  Forall (fun doc => scorable doc = true) docs ->
  exists texts metadatas,
    extract_texts docs = Ok (texts, metadatas)
    /\ List.length texts = List.length docs.
Proof.
  induction 1 as [|doc rest Hdoc _ (texts & metadatas & IH & Hlen)].
  - exists [], []. split; reflexivity.
  - apply andb_true_iff in Hdoc as [Ht Ha]. cbn [extract_texts].
    destruct (get_stripped_text doc "abstract" "" Ha) as (abstract & ->).
    destruct (get_stripped_text doc "title" "No title" Ht) as (title & ->).
    rewrite IH. cbn [rbind]. eexists _, _. split; [reflexivity|].
    cbn [List.length]. now rewrite Hlen.
Qed.

Lemma extract_texts_raises (docs : list dict) :
  Exists (fun doc => scorable doc = false) docs ->
  extract_texts docs = Raise AttributeError.
Proof.
  induction docs as [|doc rest IH]; intros Hex; [now apply Exists_nil in Hex|].
  cbn [extract_texts].
  destruct (text_or_absent doc "abstract") eqn:Ha.
  - destruct (get_stripped_text doc "abstract" "" Ha) as (abstract & ->). cbn [rbind].
    destruct (text_or_absent doc "title") eqn:Ht.
    + destruct (get_stripped_text doc "title" "No title" Ht) as (title & ->). cbn [rbind].
      apply Exists_cons in Hex as [Hbad|Hex].
      * unfold scorable in Hbad. rewrite Ht, Ha in Hbad. discriminate.
      * now rewrite (IH Hex).
    + now rewrite (get_stripped_not_text doc "title" "No title" Ht).
  - now rewrite (get_stripped_not_text doc "abstract" "" Ha).
Qed.

Lemma create_faiss_index_returns (docs : list dict) :
  Forall (fun doc => scorable doc = true) docs ->
  exists r, create_faiss_index encode normalized docs = Ok r.
Proof.
  intros Hall. destruct (extract_texts_ok docs Hall) as (texts & metadatas & Ex & _).
  unfold create_faiss_index. destruct docs as [|doc docs]; [eauto|].
  rewrite Ex. cbn [rbind]. destruct texts as [|t ts]; [eauto|].
  destruct (encode (t :: ts)) as [[|row rows]|e]; eauto.
Qed.

(** X26: [create_faiss_index] returns for every list of documents
    whose titles and abstracts are text or absent; a title or an
    abstract that is [None] or a float makes it raise [AttributeError],
    which its own handler does not catch, and it never raises anything
    else. *)
Theorem create_faiss_index_attribute_error (docs : list dict) :
  (Forall (fun doc => scorable doc = true) docs ->
   exists r, create_faiss_index encode normalized docs = Ok r)
  /\ (Exists ill_typed docs ->
      create_faiss_index encode normalized docs = Raise AttributeError)
  /\ (forall e, create_faiss_index encode normalized docs = Raise e -> e = AttributeError).
Proof.
  split; [|split].
  - apply create_faiss_index_returns.
  - intros Hex. unfold create_faiss_index.
    destruct docs as [|doc docs]; [now apply Exists_nil in Hex|].
    rewrite (extract_texts_raises (doc :: docs)); [reflexivity|].
    eapply List.Exists_impl; [|exact Hex]. intros d. apply unscorable_cases.
  - intros e. destruct (forallb scorable docs) eqn:Hs.
    + assert (Hall : Forall (fun doc => scorable doc = true) docs).
      { apply List.Forall_forall. now rewrite forallb_forall in Hs. }
      destruct (create_faiss_index_returns docs Hall) as (r & ->). discriminate.
    + apply forallb_false_Exists in Hs. unfold create_faiss_index.
      destruct docs as [|doc docs]; [now apply Exists_nil in Hs|].
      rewrite (extract_texts_raises _ Hs). cbn [rbind]. now intros [= <-].
Qed.

End IndexProofs.

Lemma create_faiss_index_parallel_witness :
  (Some {| dimension := 1; vectors := [[fl_zero]; [fl_zero]] |} = None ->
   [document_metadata sample_metformin "Metformin in the elderly";
    document_metadata sample_insulin "Insulin"] = []
   /\ ["Metformin in the elderly. Metformin side effects are mild."; "Insulin"] = [])
  /\ (Some {| dimension := 1; vectors := [[fl_zero]; [fl_zero]] |} <> None ->
      [sample_metformin; sample_insulin] <> []
      /\ List.length ["Metformin in the elderly. Metformin side effects are mild."; "Insulin"]
         = List.length [sample_metformin; sample_insulin]
      /\ List.length [document_metadata sample_metformin "Metformin in the elderly";
                      document_metadata sample_insulin "Insulin"]
         = List.length [sample_metformin; sample_insulin]
      /\ forall (i : nat) (doc : dict),
           [sample_metformin; sample_insulin] !! i = Some doc ->
           exists title abstract,
             get_stripped doc "title" "No title" = Ok title
             /\ get_stripped doc "abstract" "" = Ok abstract
             /\ ["Metformin in the elderly. Metformin side effects are mild."; "Insulin"] !! i
                = Some (document_text title abstract)
             /\ [document_metadata sample_metformin "Metformin in the elderly";
                 document_metadata sample_insulin "Insulin"] !! i
                = Some (document_metadata doc title)).
Proof.
  refine (create_faiss_index_parallel
            (fun texts => Ok (List.map (fun _ => [fl_zero]) texts)) (fun _ => [])
            [sample_metformin; sample_insulin] _ _ _ _).
  reflexivity.
Defined.

Lemma create_faiss_index_raw_embeddings_witness :
  exists rows,
    Ok (List.map (fun _ : string => [tiny_distance])
          ["Metformin in the elderly. Metformin side effects are mild."; "Insulin"])
    = Ok rows
    /\ rows <> []
    /\ [[tiny_distance]; [tiny_distance]] = List.map (List.map (cast binary32)) rows
    /\ 1%nat = List.length (hd [] rows).
Proof.
  refine (create_faiss_index_raw_embeddings
            (fun texts => Ok (List.map (fun _ => [tiny_distance]) texts)) (fun _ => [])
            [sample_metformin; sample_insulin]
            {| dimension := 1; vectors := [[tiny_distance]; [tiny_distance]] |}
            [document_metadata sample_metformin "Metformin in the elderly";
             document_metadata sample_insulin "Insulin"]
            ["Metformin in the elderly. Metformin side effects are mild."; "Insulin"] _).
  reflexivity.
Defined.

Lemma create_faiss_index_then_search_witness :
  let neighbours := [(fl_zero, 1%Z); (tiny_distance, 0%Z)] in
  let results :=
    search_similar_documents binary32
      (Some (as_faiss_index (fun _ _ _ => ([fl_zero; tiny_distance], [1; 0]%Z))
               {| dimension := 1; vectors := [[fl_zero]; [fl_zero]] |}))
      [document_metadata sample_metformin "Metformin in the elderly";
       document_metadata sample_insulin "Insulin"]
      ["Metformin in the elderly. Metformin side effects are mild."; "Insulin"]
      "insulin" 2 in
  List.length results = List.length neighbours
  /\ Forall (fun r => exists distance idx doc title abstract,
               neighbours !! Z.to_nat (rank r - 1) = Some (distance, idx)
               /\ [sample_metformin; sample_insulin] !! Z.to_nat idx = Some doc
               /\ get_stripped doc "title" "No title" = Ok title
               /\ get_stripped doc "abstract" "" = Ok abstract
               /\ similarity_score r = similarity binary32 distance
               /\ text r = document_text title abstract
               /\ metadata r = document_metadata doc title) results.
Proof.
  refine (create_faiss_index_then_search
            (fun texts => Ok (List.map (fun _ => [fl_zero]) texts)) (fun _ => [])
            (fun _ _ _ => ([fl_zero; tiny_distance], [1; 0]%Z))
            binary32 [sample_metformin; sample_insulin] _ _ _ "insulin" 2 _ _).
  - reflexivity.
  - repeat constructor; cbn; lia.
Defined.

Import PubmedXml Indexer Entrez.

(** ** One search of the literature service *)

Lemma requests_made_app (xs ys : list action) :
  requests_made (xs ++ ys) = (requests_made xs + requests_made ys)%nat.
Proof. unfold requests_made. now rewrite List.filter_app, List.length_app. Qed.

Lemma requests_made_http (events : list event) :
  requests_made (List.map Http events) = count_requests events.
Proof.
  unfold requests_made, count_requests.
  induction events as [|[s|] events IH]; cbn [List.map List.filter List.length]; auto.
Qed.

Lemma requests_at_most_3 {J} (server : nat -> get_outcome J) (return_json : bool) :
  (count_requests (snd (make_request_with_retry server 3 return_json)) <= 3)%nat.
Proof. unfold make_request_with_retry. apply (retry_loop_requests server (range 3)). Qed.

Section SearchProofs.
Variable esearch : string -> Z -> string -> nat -> get_outcome json.
Variable efetch : string -> nat -> get_outcome json.
Variable response_xml : response json -> option element.

(** The two ways a search ends. *)
Lemma search_pubmed_articles_cases (query : string) (max_results : Z) (sort_by : string) :
  let searched :=
    List.map Http (snd (make_request_with_retry (esearch query max_results sort_by) 3 true)) in
  search_pubmed_articles esearch efetch response_xml query max_results sort_by = ([], searched)
  \/ exists search_data ids article_ids,
       fst (make_request_with_retry (esearch query max_results sort_by) 3 true)
       = Some (Json search_data)
       /\ ids_to_fetch search_data = Ok (Some (ids, article_ids))
       /\ snd (search_pubmed_articles esearch efetch response_xml query max_results sort_by)
          = (searched ++ Paused
               :: List.map Http (snd (make_request_with_retry (efetch ids) 3 false)))%list
       /\ (fst (search_pubmed_articles esearch efetch response_xml query max_results sort_by)
           = []
           \/ exists r,
                fst (make_request_with_retry (efetch ids) 3 false) = Some (Resp r)
                /\ fst (search_pubmed_articles esearch efetch response_xml
                          query max_results sort_by)
                   = parse_pubmed_xml (response_xml r) article_ids).
Proof.
  intros searched. unfold searched, search_pubmed_articles.
  destruct (make_request_with_retry (esearch query max_results sort_by) 3 true)
    as [[[search_data|r]|] events]; cbn [fst snd]; [|now left|now left].
  destruct (ids_to_fetch search_data) as [[[ids article_ids]|]|e] eqn:Eids;
    [|now left|now left].
  right. exists search_data, ids, article_ids.
  split; [reflexivity|]. split; [exact Eids|].
  destruct (make_request_with_retry (efetch ids) 3 false) as [[[j|r]|] events'];
    cbn [fst snd]; [split; [reflexivity|now left]| |split; [reflexivity|now left]].
  destruct (raise_for_status json r); cbn [fst snd];
    (split; [reflexivity|]); [now left|right; eauto].
Qed.

(** X27: one search makes at most 6 requests and never raises.  It
    asks for the articles only after the id search has handed back a
    JSON document that holds ids, and after a pause; otherwise it
    returns the empty list with no further request. *)
Theorem search_pubmed_articles_actions (query : string) (max_results : Z) (sort_by : string) :
  let searched :=
    List.map Http (snd (make_request_with_retry (esearch query max_results sort_by) 3 true)) in
  let result := search_pubmed_articles esearch efetch response_xml query max_results sort_by in
  (requests_made (snd result) <= 6)%nat
  /\ (result = ([], searched)
      \/ exists search_data ids article_ids,
           fst (make_request_with_retry (esearch query max_results sort_by) 3 true)
           = Some (Json search_data)
           /\ ids_to_fetch search_data = Ok (Some (ids, article_ids))
           /\ snd result
              = (searched ++ Paused
                   :: List.map Http (snd (make_request_with_retry (efetch ids) 3 false)))%list).
Proof.
  intros searched result.
  pose proof (requests_at_most_3 (esearch query max_results sort_by) true) as H1.
  destruct (search_pubmed_articles_cases query max_results sort_by)
    as [E|(search_data & ids & article_ids & Es & Ei & Ea & _)].
  - fold searched in E. fold result in E. split; [|now left].
    rewrite E. cbn [snd]. unfold searched. rewrite requests_made_http. lia.
  - fold searched in Ea. fold result in Ea. split.
    + rewrite Ea. change (Paused :: ?l) with ([Paused] ++ l)%list.
      rewrite !requests_made_app. unfold searched. rewrite !requests_made_http.
      pose proof (requests_at_most_3 (efetch ids) false) as H2.
      cbn [requests_made List.filter List.length]. lia.
    + right. exists search_data, ids, article_ids. auto.
Qed.

Lemma getitem_found (x : json) (key : string) (v : json) :
  getitem x key = Ok v -> truthy x = true /\ contains_key key x = Ok true.
Proof.
  destruct x as [| | | | |items]; try discriminate. cbn [getitem truthy contains_key].
  destruct (List.find (fun item => String.eqb (fst item) key) items) as [[k w]|] eqn:E;
    [|discriminate].
  intros _. apply List.find_some in E as [Hin Hk]. split.
  - destruct items; [destruct Hin|reflexivity].
  - f_equal. apply existsb_exists. eauto.
Qed.

Lemma strings_map (ids : list string) : strings (List.map JString ids) = Some ids.
Proof. induction ids as [|s ids IH]; [reflexivity|]. cbn [List.map strings]. now rewrite IH. Qed.

Lemma returned_response_ok {J} (server : nat -> get_outcome J) max_retries return_json r events :
  make_request_with_retry server max_retries return_json = (Some (Resp r), events) ->
  raise_for_status J r = None.
Proof.
  unfold make_request_with_retry. intros H.
  destruct (retry_loop_some _ _ _ _ _ _ H) as (a & _ & Hx). unfold answer in Hx.
  destruct (server (Z.to_nat a)) as [r'|msg]; [|discriminate].
  destruct (raise_for_status J r') eqn:E; [discriminate|].
  destruct return_json.
  - destruct (json_body r'); discriminate.
  - now injection Hx as <-.
Qed.

(** X28: the usual case.  When the id search hands back a document
    whose [esearchresult] holds a non-empty [idlist] of strings, the
    articles are fetched for exactly these ids, joined by commas, after
    the pause; and when that request hands back a response, the result
    is what the parser makes of its body with these ids. *)
Theorem search_pubmed_articles_fetches_ids
    (query : string) (max_results : Z) (sort_by : string)
    (search_data esearchresult : json) (ids : list string)
    (events events' : list event) (r : response json) :
  make_request_with_retry (esearch query max_results sort_by) 3 true
  = (Some (Json search_data), events) ->
  getitem search_data "esearchresult" = Ok esearchresult ->
  getitem esearchresult "idlist" = Ok (JArray (List.map JString ids)) ->
  ids <> [] ->
  make_request_with_retry (efetch (join "," ids)) 3 false = (Some (Resp r), events') ->
  search_pubmed_articles esearch efetch response_xml query max_results sort_by
  = (parse_pubmed_xml (response_xml r) (IdList ids),
     (List.map Http events ++ Paused :: List.map Http events')%list).
Proof.
  intros Es Hres Hids Hne Ef. unfold search_pubmed_articles. rewrite Es.
  destruct (getitem_found _ _ _ Hres) as [Ht Hc].
  assert (Ei : ids_to_fetch search_data = Ok (Some (join "," ids, IdList ids))).
  { unfold ids_to_fetch. rewrite Ht, Hc. cbn [negb rbind]. rewrite Hres. cbn [rbind].
    rewrite Hids. cbn [rbind].
    assert (Hti : truthy (JArray (List.map JString ids)) = true).
    { destruct ids; [congruence|reflexivity]. }
    rewrite Hti. cbn [negb join_ids]. now rewrite strings_map. }
  rewrite Ei, Ef. now rewrite (returned_response_ok _ _ _ _ _ Ef).
Qed.

(** ** From the search to the index *)

Lemma search_pubmed_articles_parsed (query : string) (max_results : Z) (sort_by : string)
    (r : record) :
  In r (fst (search_pubmed_articles esearch efetch response_xml query max_results sort_by)) ->
  exists xml article_ids, In r (parse_pubmed_xml xml article_ids).
Proof.
  destruct (search_pubmed_articles_cases query max_results sort_by)
    as [E|(_ & _ & article_ids & _ & _ & _ & [E|(resp & _ & E)])]; rewrite E; cbn [fst].
  - intros [].
  - intros [].
  - eauto.
Qed.

Lemma well_formed_with_score q d : well_formed (with_score q d) = well_formed d.
Proof.
  unfold well_formed. rewrite scorable_with_score. f_equal.
  unfold has_text_pmid, with_score. now rewrite lookup_insert_ne by discriminate.
Qed.

Variable encode : list string -> result matrix.
Variable normalized : matrix -> matrix.

(** X29: the retrieval over the service, end to end.  Whatever the
    service answers, [get_pubmed_articles] returns without raising;
    every record it returns has a pmid and text for title and abstract
    and carries its relevance score; and [create_faiss_index], called on
    these records as the application does, returns without raising.
    When no fetched article has an empty [PMID] element, the pmid of
    every returned record is text. *)
Theorem retrieval_feeds_index (h : store) (query : string) (max_results : Z) :
  exists out h',
    get_pubmed_articles (pubmed esearch efetch response_xml) query max_results h = (Ok out, h')
    /\ Forall (fun d => retrievable d = true
                        /\ d !! "relevance_score" = Some (VFloat (relevance_of d)))
         (records_at h' out)
    /\ (exists r, create_faiss_index encode normalized (records_at h' out) = Ok r)
    /\ ((forall q n s,
           Forall (fun r => r !! "pmid" <> Some FNone)
             (fst (search_pubmed_articles esearch efetch response_xml q n s))) ->
        Forall (fun d => well_formed d = true) (records_at h' out)).
Proof.
  assert (Hparsed : forall q n s d,
            In d (pubmed esearch efetch response_xml q n s) ->
            exists r e pmid,
              In r (fst (search_pubmed_articles esearch efetch response_xml q n s))
              /\ r = article_record e pmid /\ d = as_dict r).
  { intros q n s d Hd. unfold pubmed in Hd.
    apply List.in_map_iff in Hd as (r & <- & Hr).
    destruct (search_pubmed_articles_parsed q n s r Hr) as (xml & ids & Hin).
    destruct (parse_pubmed_xml_In _ _ _ Hin) as (_ & _ & e & pmid & _ & _ & _ & E).
    exists r, e, pmid. auto. }
  assert (Hret : forall q n s,
            Forall (fun d => retrievable d = true) (pubmed esearch efetch response_xml q n s)).
  { intros q n s. apply List.Forall_forall. intros d Hd.
    destruct (Hparsed q n s d Hd) as (r & e & pmid & _ & -> & ->).
    apply article_record_retrievable. }
  set (cq := clean_medical_query query). set (n := Z.min (max_results * 3) 15).
  set (primary := pubmed esearch efetch response_xml cq n "relevance").
  set (recent := pubmed esearch efetch response_xml cq
                   (n - Z.of_nat (List.length primary)) "pub_date").
  destruct (get_pubmed_articles_records (pubmed esearch efetch response_xml)
              h query max_results (Hret _ _ _) (Hret _ _ _))
    as (out & h' & E & _ & _ & _ & Hrec).
  fold cq n primary recent in Hrec. fold (top_records query (merged_records primary recent n) max_results) in Hrec.
  assert (Hfrom : forall (P : dict -> Prop),
            (forall q d, P d -> P (with_score q d)) ->
            Forall P primary -> Forall P recent -> Forall P (records_at h' out)).
  { intros P HP Hp Hr. rewrite Hrec. apply List.Forall_forall. intros t Ht.
    apply top_records_In in Ht as (d & Hd & ->). apply HP.
    pose proof (merged_records_Forall P primary recent n Hp Hr) as Hm.
    rewrite List.Forall_forall in Hm. now apply Hm. }
  exists out, h'. split; [exact E|].
  assert (Hall : Forall (fun d => retrievable d = true
                                  /\ d !! "relevance_score" = Some (VFloat (relevance_of d)))
                   (records_at h' out)).
  { rewrite Hrec. apply List.Forall_forall. intros t Ht.
    apply top_records_In in Ht as (d & Hd & ->).
    rewrite relevance_of_with_score. split; [|unfold with_score; apply lookup_insert_eq].
    pose proof (merged_records_Forall _ primary recent n (Hret _ _ _) (Hret _ _ _)) as Hm.
    rewrite List.Forall_forall in Hm. specialize (Hm d Hd).
    unfold retrievable in *. rewrite scorable_with_score, has_title_with_score.
    unfold has_pmid, with_score in *. now rewrite lookup_insert_ne by discriminate. }
  split; [exact Hall|]. split.
  - apply create_faiss_index_returns.
    eapply Forall_impl; [exact Hall|]. cbv beta. intros d [Hd _].
    unfold retrievable in Hd. now apply andb_true_iff in Hd as [[_ ?]%andb_true_iff _].
  - intros Hpmid. apply (Hfrom (fun d => well_formed d = true)).
    + intros q d Hd. now rewrite well_formed_with_score.
    + apply List.Forall_forall. intros d Hd.
      destruct (Hparsed _ _ _ d Hd) as (r & e & pmid & Hr & Er & ->).
      specialize (Hpmid cq n "relevance"). rewrite List.Forall_forall in Hpmid.
      specialize (Hpmid r Hr). subst r. now apply article_record_well_formed.
    + apply List.Forall_forall. intros d Hd.
      destruct (Hparsed _ _ _ d Hd) as (r & e & pmid & Hr & Er & ->).
      specialize (Hpmid cq (n - Z.of_nat (List.length primary))%Z "pub_date").
      rewrite List.Forall_forall in Hpmid.
      specialize (Hpmid r Hr). subst r. now apply article_record_well_formed.
Qed.

End SearchProofs.

Lemma search_pubmed_articles_fetches_ids_witness :
  search_pubmed_articles sample_esearch sample_efetch (fun _ => Some sample_xml)
    "metformin" 15 "relevance"
  = (parse_pubmed_xml (Some sample_xml) (IdList ["1"; "22"]),
     [Http Requested; Paused; Http Requested]).
Proof.
  refine (search_pubmed_articles_fetches_ids sample_esearch sample_efetch
            (fun _ => Some sample_xml) "metformin" 15 "relevance"
            (idlist_answer ["1"; "22"])
            (JObject [ ("count", JString "2");
                       ("idlist", JArray (List.map JString ["1"; "22"])) ])
            ["1"; "22"] [Requested] [Requested]
            (sample_response (JSONDecodeError "Expecting value")) _ _ _ _ _);
    try reflexivity.
  discriminate.
Defined.

(** On a service that lists two ids and answers the fetch with the
    sample document. *)
Example retrieval_feeds_index_sample :
  let '(r, h') :=
    get_pubmed_articles (pubmed sample_esearch sample_efetch (fun _ => Some sample_xml))
      "metformin side effects" 5 ∅ in
  exists out,
    r = Ok out
    /\ List.map (fun d => (d !! "pmid", d !! "title")) (records_at h' out)
       = [ (Some (VStr "1"), Some (VStr "Metformin in the elderly"));
           (Some (VStr "22"), Some (VStr "Insulin")) ].
Proof. vm_compute. eexists. split; reflexivity. Qed.

(** An article whose [PMID] element is empty has the pmid [None]; the
    two searches return it and the merge keeps it once. *)
Example retrieval_feeds_index_no_pmid :
  let article :=
    Element "PubmedArticle" ∅ None
      [ Element "PMID" ∅ None [] None; leaf "ArticleTitle" "Insulin" ] None in
  let '(r, h') :=
    get_pubmed_articles
      (pubmed sample_esearch sample_efetch
         (fun _ => Some (Element "PubmedArticleSet" ∅ None [article] None)))
      "insulin" 5 ∅ in
  exists out,
    r = Ok out
    /\ List.map (fun d => (d !! "pmid", d !! "url")) (records_at h' out)
       = [ (Some VNone, Some (VStr "https://pubmed.ncbi.nlm.nih.gov/None")) ].
Proof. vm_compute. eexists. split; reflexivity. Qed.
